(** * esbuild-bundle-size-diff: the size table and its delivery

    A shallow embedding of the action's single source file: the per-entrypoint
    aggregation ([computeSizeByEntrypoint]), the size formatter
    ([bytesToSize]), the table ([diff]), the comment upsert ([getClient],
    [findComment], [comment]) and the two entry points ([run], [main]).

    Conventions of the model.
    - The values are those of the declared types: a manifest is a [Metafile],
      a byte size any binary64 number ([spec_float], precision 53, emax
      1024), a name any string.
    - An object used as a map is the list of its own properties.  A
      manifest's [outputs] is the list of its entries in the order
      [Object.entries] gives them, with unique keys ([wf_metafile]).  A
      lookup [o[k]] goes on to [Object.prototype] when [o] has no own
      property [k] ([get]).
    - All arithmetic on sizes is binary64 arithmetic: [reduce] adds with
      [SFadd], the differences are [SFsub], the percentage [SFdiv] and
      [SFmul].  A missing [bytes] is [undefined], which arithmetic reads as
      NaN.
    - Strings are sequences of code units; [sort] without a comparator orders
      them code unit by code unit.
    - [bytesToSize] formats through [Math.log], [**] and [Intl.NumberFormat];
      the language fixes the first two on their special values only, and what
      the third prints is locale data: the table is parametric in the three,
      and in [Number::toString], which [toFixed] uses from 10^21 on.
    - A function that can throw returns [exn + A] ([Try]).
    - The issue's comments, the standard output and the order of the
      program's calls are the state ([World]); the file system, the inputs,
      the environment and [JSON.parse] are read-only ([Host]).  The REST
      call that lists the comments is made once, without [per_page]: it
      returns the first page, of 30 comments. *)

From Stdlib Require Import ZArith List String Ascii Bool Lia.
From Stdlib Require Import SpecFloat DecimalString Orders Mergesort Sorted Permutation.
From Stdlib Require Import RelationClasses.
Import ListNotations.

Open Scope string_scope.
Open Scope list_scope.
Open Scope Z_scope.

Infix "+:+" := String.append (at level 60, right associativity).

(** ** Strings *)

Definition LF : string := String "010"%char EmptyString.
Definition backslash : ascii := "092"%char.
Definition pipe : ascii := "124"%char.

(** [Array.prototype.join]. *)
Definition join (sep : string) (l : list string) : string := String.concat sep l.

(** [String.prototype.startsWith]. *)
Definition startsWith (s searchString : string) : bool := String.prefix searchString s.

(** [str.replace(/\|/g, "\\|")]: every pipe gets a backslash in front. *)
Fixpoint escapePipes (str : string) : string :=
  match str with
  | EmptyString => EmptyString
  | String c rest =>
      if Ascii.eqb c pipe then String backslash (String pipe (escapePipes rest))
      else String c (escapePipes rest)
  end.

(** A string in a condition: the empty string and [undefined] are falsy. *)
Definition truthy (s : option string) : option string :=
  match s with
  | Some v => if (v =? "")%string then None else Some v
  | None => None
  end.

(** [l.includes(x)]. *)
Definition mem (x : string) (l : list string) : bool := existsb (String.eqb x) l.


(** ** Errors *)

Inductive exn :=
  | Error (message : string)
  | SystemError (code : string) (file : string)
  | SyntaxError (message : string)
  | TypeError.

(** A value or the exception thrown instead. *)
Definition Try (A : Type) : Type := (exn + A)%type.

Definition and_then {A B} (r : Try A) (k : A -> Try B) : Try B :=
  match r with
  | inl e => inl e
  | inr a => k a
  end.

Notation "x <~ r ;; k" := (and_then r (fun x => k))
  (at level 61, r at next level, right associativity).

(** [l.forEach(x => { state = f(state, x) })], stopped by the first throw. *)
Fixpoint forEach {A S} (f : S -> A -> Try S) (l : list A) (state : S) : Try S :=
  match l with
  | [] => inr state
  | x :: rest => state' <~ f state x ;; forEach f rest state'
  end.

(** ** Objects used as maps

    Own string-keyed properties.  [obj_get] finds an own property, [get] is
    [o[k]]: the own property, or else the property of that name inherited
    from [Object.prototype], or else [undefined].  [obj_set] is [o[k] = v]
    for a [k] that is an own property or no property at all: an existing key
    keeps its place. *)

Section Obj.
Context {A : Type}.

Fixpoint obj_get (o : list (string * A)) (k : string) : option A :=
  match o with
  | [] => None
  | (k', v) :: rest => if (k' =? k)%string then Some v else obj_get rest k
  end.

Fixpoint obj_set (o : list (string * A)) (k : string) (v : A) : list (string * A) :=
  match o with
  | [] => [(k, v)]
  | (k', v') :: rest =>
      if (k' =? k)%string then (k, v) :: rest else (k', v') :: obj_set rest k v
  end.

Definition keys (o : list (string * A)) : list string := map fst o.
End Obj.

(** The property names of [Object.prototype]: functions, but for [__proto__],
    which reads as [Object.prototype] itself.  None of the values is nullish,
    none has a property [bytes], [push] or [reduce]. *)
Definition Object_prototype : list string :=
  [ "constructor"; "__defineGetter__"; "__defineSetter__"; "hasOwnProperty";
    "__lookupGetter__"; "__lookupSetter__"; "isPrototypeOf"; "propertyIsEnumerable";
    "toString"; "valueOf"; "__proto__"; "toLocaleString" ].

Inductive property (A : Type) :=
  | Own (value : A)
  | Inherited
  | Undefined.

Arguments Own {A} value.
Arguments Inherited {A}.
Arguments Undefined {A}.

Definition get {A} (o : list (string * A)) (k : string) : property A :=
  match obj_get o k with
  | Some v => Own v
  | None => if mem k Object_prototype then Inherited else Undefined
  end.

(** ** The manifest *)

Record Output := {
  entryPoint : option string;
  bytes : spec_float;
  cssBundle : option string
}.

Record Metafile := { outputs : list (string * Output) }.

Definition wf_metafile (metafile : Metafile) : Prop := NoDup (keys (outputs metafile)).

(** An element of a size list: [{ path, bytes }], where [bytes] is
    [undefined] when it was read from a value that has none. *)
Record PathBytes := { path : string; path_bytes : option spec_float }.

Definition Sizes := list (string * list PathBytes).

(** ** computeSizeByEntrypoint

    [visit] is the body of the [forEach] callback, for one entry of
    [metafile.outputs].  [result[entryPoint] ||= []] assigns only when the
    lookup is [undefined]; when it finds an inherited property, the [push]
    that follows is no function and the call throws. *)

Definition has_path (items : list PathBytes) (p : string) : bool :=
  existsb (fun it => (path it =? p)%string) items.

Definition visit (outs : list (string * Output)) (result : Sizes)
    (entry : string * Output) : Try Sizes :=
  let '(p, output) := entry in
  match truthy (entryPoint output) with
  | None => inr result
  | Some ep =>
      match get result ep with
      | Inherited => inl TypeError
      | found =>
          let items :=
            match found with Own l => l | _ => [] end
            ++ [{| path := p; path_bytes := Some (bytes output) |}] in
          let items :=
            match truthy (cssBundle output) with
            | Some css =>
                match get outs css with
                | Undefined => items
                | cssOutput =>
                    if has_path items css then items
                    else items ++
                         [{| path := css;
                             path_bytes := match cssOutput with
                                           | Own o => Some (bytes o)
                                           | _ => None
                                           end |}]
                end
            | None => items
            end in
          inr (obj_set result ep items)
      end
  end.

Definition computeSizeByEntrypoint (metafile : Metafile) : Try Sizes :=
  forEach (visit (outputs metafile)) (outputs metafile) [].

(** ** Numbers

    [number_of_Z] is the binary64 value of an integer (round to nearest, ties
    to even); it is exact below 2^53.  [ToNumber] is what arithmetic makes of
    a possibly undefined number. *)

Definition number_of_Z (z : Z) : spec_float := binary_normalize 53 1024 z 0 false.

Definition ToNumber (v : option spec_float) : spec_float :=
  match v with
  | Some x => x
  | None => S754_nan
  end.

(** [((prSizeTotal - baseSizeTotal) / baseSizeTotal) * 100]. *)
Definition percentChange (baseSizeTotal prSizeTotal : spec_float) : spec_float :=
  SFmul 53 1024
    (SFdiv 53 1024 (SFsub 53 1024 prSizeTotal baseSizeTotal) baseSizeTotal)
    (number_of_Z 100).

(** A number other than the zeros and NaN. *)
Definition nonzero_number (x : spec_float) : Prop :=
  match x with
  | S754_finite _ _ _ | S754_infinity _ => True
  | S754_zero _ | S754_nan => False
  end.

Definition decimal (n : Z) : string := NilZero.string_of_uint (N.to_uint (Z.to_N n)).

Fixpoint zeros (k : nat) : string :=
  match k with
  | O => EmptyString
  | S k' => String "0"%char (zeros k')
  end.

(** The integer [n] for which [n / 10^f] is closest to [m * 2^e]; of two such,
    the larger. *)
Definition nearest_scaled (f : nat) (m : positive) (e : Z) : Z :=
  let s := Zpos m * 10 ^ Z.of_nat f in
  match e with
  | Zneg k => (2 * s + 2 ^ Zpos k) / 2 ^ (Zpos k + 1)
  | _ => s * 2 ^ e
  end.

Definition at_least_1e21 (m : positive) (e : Z) : bool :=
  match e with
  | Zneg k => 10 ^ 21 * 2 ^ Zpos k <=? Zpos m
  | _ => 10 ^ 21 <=? Zpos m * 2 ^ e
  end.

(** The digits of [n] with a point before the last [f] of them, padded with
    zeros on the left up to [f + 1] digits. *)
Definition fixed_digits (n : Z) (f : nat) : string :=
  let m := decimal n in
  match f with
  | O => m
  | _ =>
      let k := String.length m in
      let m := if Nat.leb k f then zeros (f + 1 - k) +:+ m else m in
      let k := String.length m in
      substring 0 (k - f) m +:+ "." +:+ substring (k - f) f m
  end.

(** [Array.prototype.sort] without a comparator: ascending by code units.
    The order is total, so the sorted arrangement does not depend on the
    engine's algorithm. *)
Module StringOrder <: TotalLeBool.
Definition t := string.
Definition leb := String.leb.
Definition leb_total := String.leb_total.
End StringOrder.

Module StringSort := Sort StringOrder.


(** ** bytesToSize

    The language fixes [Math.log] and [**] on their special values and leaves
    the other values implementation-approximated; what [Intl.NumberFormat]
    prints is locale data.  [Format] takes the approximations
    ([log_approx], [pow_approx]) and the printing ([NumberFormat_format], for
    a unit and a value) as parameters and follows the source for the rest.
    Constructing the formatter with [style: "unit"] and an undefined unit
    throws a [TypeError]. *)

Module Format.

Inductive outcome :=
  | Text (text : string)
  | TypeError.

Definition isFinite (x : spec_float) : bool :=
  match x with
  | S754_finite _ _ _ | S754_zero _ => true
  | S754_infinity _ | S754_nan => false
  end.

(** [Math.floor], exact. *)
Definition Math_floor (x : spec_float) : spec_float :=
  match x with
  | S754_finite s m (Zneg k) =>
      let q := Zpos m / 2 ^ Zpos k in
      if s then number_of_Z (- (if Zpos m mod 2 ^ Zpos k =? 0 then q else q + 1))
      else number_of_Z q
  | _ => x
  end.

(** The integer a number is, when it is one. *)
Definition integral (x : spec_float) : option Z :=
  match x with
  | S754_zero _ => Some 0
  | S754_finite s m (Zneg k) =>
      if Zpos m mod 2 ^ Zpos k =? 0 then Some (cond_Zopp s (Zpos m / 2 ^ Zpos k)) else None
  | S754_finite s m e => Some (cond_Zopp s (Zpos m * 2 ^ e))
  | S754_infinity _ | S754_nan => None
  end.

(** [array[index]] for a number [index]: [undefined] unless the index is one
    of the array's. *)
Definition element (array : list string) (index : spec_float) : option string :=
  match integral index with
  | Some i => if i <? 0 then None else nth_error array (Z.to_nat i)
  | None => None
  end.

Definition units : list string := ["byte"; "kilobyte"; "megabyte"; "terabyte"; "petabyte"].

Section Runtime.

Variable log_approx : spec_float -> spec_float.
Variable pow_approx : spec_float -> spec_float -> spec_float.
Variable NumberFormat_format : string -> spec_float -> string.

(** [Math.log]: NaN below zero, -Infinity at zero, +0 at 1, +Infinity at
    +Infinity. *)
Definition Math_log (x : spec_float) : spec_float :=
  match x with
  | S754_nan => S754_nan
  | S754_zero _ => S754_infinity true
  | S754_infinity s => if s then S754_nan else S754_infinity false
  | S754_finite true _ _ => S754_nan
  | S754_finite false _ _ =>
      if SFeqb x (number_of_Z 1) then S754_zero false else log_approx x
  end.

(** [1024 ** exponent]: NaN for NaN, 1 for a zero, +Infinity and +0 for the
    infinities. *)
Definition pow_1024 (exponent : spec_float) : spec_float :=
  match exponent with
  | S754_nan => S754_nan
  | S754_zero _ => number_of_Z 1
  | S754_infinity s => if s then S754_zero false else S754_infinity false
  | S754_finite _ _ _ => pow_approx (number_of_Z 1024) exponent
  end.

(** [Math.floor(Math.log(bytes) / Math.log(1024))]. *)
Definition unitIdx (bytes : spec_float) : spec_float :=
  Math_floor (SFdiv 53 1024 (Math_log bytes) (Math_log (number_of_Z 1024))).

Definition bytesToSize (bytes : spec_float) : outcome :=
  if negb (isFinite bytes) then Text ""
  else
    let unitIdx := unitIdx bytes in
    let unit :=
      if isFinite unitIdx
      then element units
             (if SFltb (number_of_Z (Z.of_nat (List.length units))) unitIdx
              then number_of_Z (Z.of_nat (List.length units) - 1)
              else unitIdx)
      else element units (number_of_Z 0) in
    let value :=
      if SFeqb bytes (number_of_Z 0) then number_of_Z 0
      else SFdiv 53 1024 bytes (pow_1024 unitIdx) in
    match unit with
    | Some u => Text (NumberFormat_format u value)
    | None => TypeError
    end.

End Runtime.

End Format.

(** ** The table *)

Section Runtime.

(** [Number::toString], reached by [toFixed] only from 10^21 on. *)
Variable Number_toString : spec_float -> string.

(** What [bytesToSize] takes from the runtime. *)
Variable log_approx : spec_float -> spec_float.
Variable pow_approx : spec_float -> spec_float -> spec_float.
Variable NumberFormat_format : string -> spec_float -> string.

(** [Number.prototype.toFixed]. *)
Definition toFixed (x : spec_float) (fractionDigits : nat) : string :=
  match x with
  | S754_nan => "NaN"
  | S754_infinity s => if s then "-Infinity" else "Infinity"
  | S754_zero _ => fixed_digits 0 fractionDigits
  | S754_finite s m e =>
      (if s then "-" else "") +:+
      (if at_least_1e21 m e then Number_toString (S754_finite false m e)
       else fixed_digits (nearest_scaled fractionDigits m e) fractionDigits)
  end.

(** [bytesToSize] as [diff] calls it: the text, or the [TypeError] thrown. *)
Definition bytesToSize (bytes : spec_float) : Try string :=
  match Format.bytesToSize log_approx pow_approx NumberFormat_format bytes with
  | Format.Text text => inr text
  | Format.TypeError => inl TypeError
  end.

(** ** diff *)

Definition columnHeadings : list string :=
  ["Entrypoint"; "Path"; "Old size"; "New size"; "Diff"].

(** [size.reduce((acc, { bytes }) => acc + bytes, 0)]. *)
Definition sum_bytes (size : list PathBytes) : spec_float :=
  fold_left (fun acc it => SFadd 53 1024 acc (ToNumber (path_bytes it))) size (number_of_Z 0).

(** [size.find(({ path: p }) => p === path)]. *)
Definition find_path (size : list PathBytes) (p : string) : option PathBytes :=
  find (fun it => (path it =? p)%string) size.

(** [sizes[entrypoint] ?? []]; an inherited property is no array, and the
    [reduce] that follows throws. *)
Definition or_empty (size : property (list PathBytes)) : Try (list PathBytes) :=
  match size with
  | Own l => inr l
  | Inherited => inl TypeError
  | Undefined => inr []
  end.

(** The template [`${bytesToSize(d)} (${percentChange.toFixed(2)}%)`]. *)
Definition change_text (diffSizeTotal percent : spec_float) : Try string :=
  text <~ bytesToSize diffSizeTotal ;;
  inr (text +:+ " (" +:+ toFixed percent 2 +:+ "%)").

Definition sub (str : string) : string := "<sub>" +:+ str +:+ "</sub>".

(** The row pushed first for an entrypoint. *)
Definition summary_row (entrypoint : string) (baseSize prSize : list PathBytes)
    : Try (list string) :=
  let baseSizeTotal := sum_bytes baseSize in
  let prSizeTotal := sum_bytes prSize in
  let diffSizeTotal := SFsub 53 1024 prSizeTotal baseSizeTotal in
  let percentChange := percentChange baseSizeTotal prSizeTotal in
  old <~ bytesToSize baseSizeTotal ;;
  new <~ bytesToSize prSizeTotal ;;
  change <~ change_text diffSizeTotal percentChange ;;
  inr [ entrypoint; "*"; old; new; change ].

(** [item?.bytes !== undefined ? bytesToSize(item?.bytes) : "n/a"]. *)
Definition size_cell (item : option PathBytes) : Try string :=
  match item with
  | Some {| path_bytes := Some x |} => bytesToSize x
  | _ => inr "n/a"
  end.

(** The row pushed for one path of an entrypoint; [percent] is the
    [percentChange] in scope, the one computed for the entrypoint. *)
Definition detail_row (baseSize prSize : list PathBytes) (percent : spec_float)
    (p : string) : Try (list string) :=
  let baseItem := find_path baseSize p in
  let prItem := find_path prSize p in
  let diffSizeTotal :=
    match baseItem, prItem with
    | Some b, Some n => SFsub 53 1024 (ToNumber (path_bytes n)) (ToNumber (path_bytes b))
    | _, _ => number_of_Z 0
    end in
  old <~ size_cell baseItem ;;
  new <~ size_cell prItem ;;
  change <~ match baseItem, prItem with
            | None, _ => inr "new"
            | Some _, None => inr "deleted"
            | Some _, Some _ => change_text diffSizeTotal percent
            end ;;
  inr (map sub [ ""; p; old; new; change ]).

(** [[...new Set(l)]]: the elements of [l] in order of first occurrence. *)
Definition Set_add (set : list string) (x : string) : list string :=
  if existsb (String.eqb x) set then set else set ++ [x].

Definition Set_of (l : list string) : list string := fold_left Set_add l [].

Definition paths_of (baseSize prSize : list PathBytes) : list string :=
  StringSort.sort (Set_of (map path baseSize ++ map path prSize)).

(** The body of [entrypoints.forEach]. *)
Definition push_entrypoint (baseSizes prSizes : Sizes) (result : list (list string))
    (entrypoint : string) : Try (list (list string)) :=
  baseSize <~ or_empty (get baseSizes entrypoint) ;;
  prSize <~ or_empty (get prSizes entrypoint) ;;
  let percent := percentChange (sum_bytes baseSize) (sum_bytes prSize) in
  row <~ summary_row entrypoint baseSize prSize ;;
  forEach (fun result p => row <~ detail_row baseSize prSize percent p ;; inr (result ++ [row]))
    (paths_of baseSize prSize) (result ++ [row]).

Definition entrypoints_of (baseSizes prSizes : Sizes) : list string :=
  StringSort.sort (Set_of (keys baseSizes ++ keys prSizes)).

Definition diff_rows (baseMetafile prMetafile : Metafile) : Try (list (list string)) :=
  baseSizes <~ computeSizeByEntrypoint baseMetafile ;;
  prSizes <~ computeSizeByEntrypoint prMetafile ;;
  let result := [columnHeadings; map (fun _ => "---") columnHeadings] in
  forEach (push_entrypoint baseSizes prSizes) (entrypoints_of baseSizes prSizes) result.

Definition render_row (row : list string) : string :=
  "| " +:+ join " | " (map escapePipes row) +:+ " |".

Definition diff (baseMetafile prMetafile : Metafile) : Try string :=
  result <~ diff_rows baseMetafile prMetafile ;;
  inr (join LF (map render_row result)).

End Runtime.

(** ** The action's environment

    What the program reads ([Host]) and what it changes ([World]).  [calls]
    records the calls the program makes, in order. *)

Record IssueComment := { comment_id : Z; body : option string }.

Inductive Call :=
  | ReadFile (file : string)
  | Diff
  | ListComments
  | UpdateComment (id : Z)
  | CreateComment
  | ConsoleLog.

Record World := {
  comments : list IssueComment;
  stdout : list string;
  calls : list Call
}.

Record Host := {
  argv : list string;
  cwd : string;
  getInput : string -> string;
  env_GITHUB_TOKEN : option string;
  readFileSync : string -> exn + string;
  JSON_parse : string -> exn + Metafile;
  path_resolve : string -> string -> string
}.

(** A computation that may throw, over the world. *)
Definition M (A : Type) : Type := World -> (exn + A) * World.

Definition ret {A} (a : A) : M A := fun w => (inr a, w).

Definition throw {A} (e : exn) : M A := fun w => (inl e, w).

Definition bind {A B} (m : M A) (k : A -> M B) : M B :=
  fun w =>
    match m w with
    | (inl e, w') => (inl e, w')
    | (inr a, w') => k a w'
    end.

Notation "x <- m ;; k" := (bind m (fun x => k))
  (at level 61, m at next level, right associativity).
Notation "m ;;; k" := (bind m (fun _ => k))
  (at level 61, right associativity).

Definition lift {A} (r : exn + A) : M A :=
  match r with inl e => throw e | inr a => ret a end.

Definition call (c : Call) : M unit :=
  fun w => (inr tt, {| comments := comments w; stdout := stdout w; calls := calls w ++ [c] |}).

(** The three REST calls on the issue's comments.  [listComments] is called
    without [per_page] and without pagination: the response holds the first
    page of the issue's comments. *)
Definition per_page : nat := 30.

Definition listComments : M (list IssueComment) :=
  call ListComments ;;; fun w => (inr (firstn per_page (comments w)), w).

Definition set_body (id : Z) (message : string) (c : IssueComment) : IssueComment :=
  if comment_id c =? id then {| comment_id := id; body := Some message |} else c.

Definition updateComment (id : Z) (message : string) : M unit :=
  call (UpdateComment id) ;;;
  fun w => (inr tt, {| comments := map (set_body id message) (comments w);
                       stdout := stdout w; calls := calls w |}).

Definition fresh_id (cs : list IssueComment) : Z :=
  1 + fold_right (fun c acc => Z.max (comment_id c) acc) 0 cs.

Definition createComment (message : string) : M unit :=
  call CreateComment ;;;
  fun w => (inr tt, {| comments := comments w ++
                         [{| comment_id := fresh_id (comments w); body := Some message |}];
                       stdout := stdout w; calls := calls w |}).

Definition console_log (line : string) : M unit :=
  call ConsoleLog ;;;
  fun w => (inr tt, {| comments := comments w; stdout := stdout w ++ [line];
                       calls := calls w |}).

Definition token_not_found : string :=
  "GitHub token not found; looked in env.GITHUB_TOKEN and input.github_token".

Definition identifier : string := "<!-- esbuild-bundle-size-diff-comment -->".

Section Action.

Variable Number_toString : spec_float -> string.
Variable log_approx : spec_float -> spec_float.
Variable pow_approx : spec_float -> spec_float -> spec_float.
Variable NumberFormat_format : string -> spec_float -> string.
Variable host : Host.

(** [core.getInput("github_token") || process.env.GITHUB_TOKEN]. *)
Definition githubToken : option string :=
  match truthy (Some (getInput host "github_token")) with
  | Some t => Some t
  | None => env_GITHUB_TOKEN host
  end.

(** The client stands for the token [getOctokit] wraps. *)
Definition getClient : M string :=
  match truthy githubToken with
  | None => throw (Error token_not_found)
  | Some t => ret t
  end.

(** The [for] loop of [findComment]: the first comment whose body starts
    with the identifier. *)
Fixpoint first_marked (data : list IssueComment) : option Z :=
  match data with
  | [] => None
  | c :: rest =>
      match body c with
      | Some b => if startsWith b identifier then Some (comment_id c) else first_marked rest
      | None => first_marked rest
      end
  end.

Definition findComment : M (option Z) :=
  _ <- getClient ;;
  data <- listComments ;;
  ret (first_marked data).

(** [if (commentId)]: [null] and [0] are falsy. *)
Definition comment (message : string) : M unit :=
  _ <- getClient ;;
  commentId <- findComment ;;
  match commentId with
  | Some id => if id =? 0 then createComment message else updateComment id message
  | None => createComment message
  end.

(** [JSON.parse(fs.readFileSync(file, "utf8")) as Metafile]. *)
Definition load (file : string) : M Metafile :=
  call (ReadFile file) ;;;
  text <- lift (readFileSync host file) ;;
  lift (JSON_parse host text).

(** The template literal [run] passes to [comment]. *)
Definition run_message (resultMarkdownTable : string) : string :=
  LF +:+ "  ## Bundle size diff" +:+ LF +:+ LF +:+ "  " +:+ resultMarkdownTable
     +:+ LF +:+ "  ".

Definition diffM (baseMetafile prMetafile : Metafile) : M string :=
  call Diff ;;;
  lift (diff Number_toString log_approx pow_approx NumberFormat_format
          baseMetafile prMetafile).

(** [comment] is called without [await]: its rejection reaches the process
    as an unhandled rejection; the model returns it as the outcome of [run]. *)
Definition run : M unit :=
  let basePath := getInput host "base_path" in
  let prPath := getInput host "pr_path" in
  let base := path_resolve host (cwd host) basePath in
  let pr := path_resolve host (cwd host) prPath in
  baseMetafile <- load base ;;
  prMetafile <- load pr ;;
  resultMarkdownTable <- diffM baseMetafile prMetafile ;;
  comment (run_message resultMarkdownTable).

Definition main (base pr : string) : M unit :=
  baseMetafile <- load base ;;
  prMetafile <- load pr ;;
  resultMarkdownTable <- diffM baseMetafile prMetafile ;;
  console_log resultMarkdownTable.

(** The module's top level: [process.argv.length >= 4] selects the local
    code path. *)
Definition program : M unit :=
  match argv host with
  | _ :: _ :: base :: pr :: _ => main base pr
  | _ => run
  end.

End Action.

(** ** Reading a rendered line

    A pipe is escaped when a backslash stands immediately before it.
    [unescaped_pipes_after escaped s] counts the other pipes of [s];
    [escaped] tells whether the character before [s] is a backslash. *)

Fixpoint unescaped_pipes_after (escaped : bool) (s : string) : nat :=
  match s with
  | EmptyString => O
  | String c rest =>
      ((if Ascii.eqb c pipe && negb escaped then 1 else 0)
       + unescaped_pipes_after (Ascii.eqb c backslash) rest)%nat
  end.

Definition unescaped_pipes (line : string) : nat := unescaped_pipes_after false line.

(** The number of pipes of a string. *)
Fixpoint count_pipes (s : string) : nat :=
  match s with
  | EmptyString => O
  | String c rest => ((if Ascii.eqb c pipe then 1 else 0) + count_pipes rest)%nat
  end.

(** [str.replace(/\\|/g, "|")], the inverse reading of an escaped cell. *)
Fixpoint unescapePipes (s : string) : string :=
  match s with
  | EmptyString => EmptyString
  | String c rest =>
      match rest with
      | String c' _ =>
          if Ascii.eqb c backslash && Ascii.eqb c' pipe then unescapePipes rest
          else String c (unescapePipes rest)
      | EmptyString => String c EmptyString
      end
  end.

(** ** Reading the table *)

Definition str_lt (a b : string) : Prop := String.ltb a b = true.

Definition separator_row : list string := ["---"; "---"; "---"; "---"; "---"].

(** The lines of a text: the pieces between its line feeds. *)
Fixpoint lines_from (current : string) (s : string) : list string :=
  match s with
  | EmptyString => [current]
  | String c rest =>
      if Ascii.eqb c "010"%char then current :: lines_from EmptyString rest
      else lines_from (current +:+ String c EmptyString) rest
  end.

Definition lines (text : string) : list string := lines_from EmptyString text.

Fixpoint has_LF (s : string) : bool :=
  match s with
  | EmptyString => false
  | String c rest => Ascii.eqb c "010"%char || has_LF rest
  end.

(** [l.map(f)] for an [f] that can throw. *)
Fixpoint mapM {A B} (f : A -> Try B) (l : list A) : Try (list B) :=
  match l with
  | [] => inr []
  | x :: rest => y <~ f x ;; ys <~ mapM f rest ;; inr (y :: ys)
  end.

(** The cell of a row under the heading "Diff". *)
Definition diff_cell (row : list string) : string := nth 4 row "".

(** ** Reading the aggregation

    [names e entry]: the output's [entryPoint] is the (non-empty) name [e].
    [inherited_name entry]: its [entryPoint] is a property name of
    [Object.prototype].  [css_ref outs output]: the item pushed for the
    stylesheet bundle [output] references, when the lookup in [outs] finds
    something.  [extend] is what one visit does to the list of its
    entrypoint. *)

Definition names (e : string) (entry : string * Output) : bool :=
  match truthy (entryPoint (snd entry)) with
  | Some ep => (ep =? e)%string
  | None => false
  end.

Definition inherited_name (entry : string * Output) : bool :=
  match truthy (entryPoint (snd entry)) with
  | Some ep => mem ep Object_prototype
  | None => false
  end.

(** The entrypoints a manifest names. *)
Definition entry_names (metafile : Metafile) : list string :=
  flat_map (fun entry => match truthy (entryPoint (snd entry)) with
                         | Some ep => [ep]
                         | None => []
                         end) (outputs metafile).

Definition css_ref (outs : list (string * Output)) (output : Output) : option PathBytes :=
  match truthy (cssBundle output) with
  | Some css =>
      match get outs css with
      | Own cssOutput => Some {| path := css; path_bytes := Some (bytes cssOutput) |}
      | Inherited => Some {| path := css; path_bytes := None |}
      | Undefined => None
      end
  | None => None
  end.

Definition extend (outs : list (string * Output)) (items : list PathBytes)
    (entry : string * Output) : list PathBytes :=
  let items := items ++ [{| path := fst entry; path_bytes := Some (bytes (snd entry)) |}] in
  match css_ref outs (snd entry) with
  | Some c => if has_path items (path c) then items else items ++ [c]
  | None => items
  end.

Definition own_outputs (metafile : Metafile) (e : string) : list (string * Output) :=
  filter (names e) (outputs metafile).

(** The list aggregated for an entrypoint, and its size as [diff] totals it. *)
Definition items_of (metafile : Metafile) (e : string) : list PathBytes :=
  fold_left (extend (outputs metafile)) (own_outputs metafile e) [].

Definition size_of (metafile : Metafile) (e : string) : spec_float :=
  sum_bytes (items_of metafile e).

Definition css_refs (outs : list (string * Output)) (l : list (string * Output))
    : list PathBytes :=
  flat_map (fun entry => match css_ref outs (snd entry) with Some c => [c] | None => [] end) l.

(** First occurrences by path, skipping the paths in [seen]. *)
Fixpoint distinct_from (seen : list string) (l : list PathBytes) : list PathBytes :=
  match l with
  | [] => []
  | c :: rest =>
      if mem (path c) seen then distinct_from seen rest
      else c :: distinct_from (path c :: seen) rest
  end.

(** No output naming [e] is also a stylesheet bundle of an output naming [e]. *)
Definition css_apart (metafile : Metafile) (e : string) : bool :=
  forallb (fun c => negb (mem (path c) (keys (own_outputs metafile e))))
    (css_refs (outputs metafile) (own_outputs metafile e)).


(** Some entry of [l] references the stylesheet bundle [p], and the lookup
    of [p] in [outs] finds something. *)
Definition refers (outs : list (string * Output)) (l : list (string * Output))
    (p : string) : bool :=
  existsb (fun entry => match css_ref outs (snd entry) with
                        | Some c => (path c =? p)%string
                        | None => false
                        end) l.

(** ** Whole sizes

    The integer a byte size is, and the sizes that are non-negative integers
    ([whole]), as the manifests of the build tool have them. *)

Definition byte_count (x : spec_float) : Z :=
  match Format.integral x with
  | Some n => n
  | None => 0
  end.

Definition whole (x : spec_float) : Prop :=
  x = number_of_Z (byte_count x) /\ 0 <= byte_count x < 2 ^ 53.

Definition total (l : list Z) : Z := fold_right Z.add 0 l.


(** [computeSizeByEntrypoint] throws on this manifest. *)
Definition throws (metafile : Metafile) : bool :=
  existsb inherited_name (outputs metafile).

(** No own key is a property name of [Object.prototype]. *)
Definition plain_keys {A} (o : list (string * A)) : Prop :=
  forall k, In k (keys o) -> mem k Object_prototype = false.

Definition or_nil {A} (l : option (list A)) : list A :=
  match l with
  | Some l => l
  | None => []
  end.

(** ** Reading the action

    [read_manifest] is the outcome of [JSON.parse(fs.readFileSync(file))];
    [manifest_paths] are the two files the program reads; [first_failure] is
    the first of the two that fails, if any. *)

Definition read_manifest (host : Host) (file : string) : exn + Metafile :=
  match readFileSync host file with
  | inl e => inl e
  | inr text => JSON_parse host text
  end.

Definition manifest_paths (host : Host) : string * string :=
  match argv host with
  | _ :: _ :: base :: pr :: _ => (base, pr)
  | _ => (path_resolve host (cwd host) (getInput host "base_path"),
          path_resolve host (cwd host) (getInput host "pr_path"))
  end.

Definition first_failure (host : Host) : option exn :=
  match read_manifest host (fst (manifest_paths host)) with
  | inl e => Some e
  | inr _ =>
      match read_manifest host (snd (manifest_paths host)) with
      | inl e => Some e
      | inr _ => None
      end
  end.

Definition logged (w : World) (cs : list Call) : World :=
  {| comments := comments w; stdout := stdout w; calls := calls w ++ cs |}.

(** The comments whose body starts with the identifier. *)
Definition marked (c : IssueComment) : bool :=
  match body c with
  | Some b => startsWith b identifier
  | None => false
  end.

(** How many comments of an issue are marked. *)
Definition count_marked (cs : list IssueComment) : nat := List.length (filter marked cs).

(** ** A sample runtime and sample manifests

    The sample runtime takes the number of binary digits for the logarithm,
    computes integer powers exactly and prints a whole value in decimal,
    followed by the unit.  The percentages of the samples stay below 10^21,
    so [Number_toString_sample] is never reached. *)

(** The unit [bytesToSize] picks for the unit index [k]. *)
Definition unit_for (k : Z) : option string :=
  if k <? 0 then None
  else if k <? 5 then nth_error Format.units (Z.to_nat k)
  else if k =? 5 then None
  else Some "petabyte".

(** A logarithm for the samples: the number of binary digits, less one, of
    the integer part. *)
Definition log_sample (x : spec_float) : spec_float :=
  match x with
  | S754_finite _ m (Zneg k) => number_of_Z (Z.log2 (Zpos m / 2 ^ Zpos k))
  | S754_finite _ m e => number_of_Z (Z.log2 (Zpos m * 2 ^ e))
  | _ => x
  end.

Definition pow_sample (base exponent : spec_float) : spec_float :=
  match Format.integral base, Format.integral exponent with
  | Some b, Some n => number_of_Z (b ^ n)
  | _, _ => S754_nan
  end.

Definition format_sample (unit : string) (value : spec_float) : string :=
  match Format.integral value with
  | Some v => decimal v +:+ " " +:+ unit
  | None => "? " +:+ unit
  end.

Definition Number_toString_sample (x : spec_float) : string := "1e+21".

Definition emitted (ep : string) (size : Z) (css : option string) : Output :=
  {| entryPoint := Some ep; bytes := number_of_Z size; cssBundle := css |}.

Definition chunk (size : Z) : Output :=
  {| entryPoint := None; bytes := number_of_Z size; cssBundle := None |}.

(** One entrypoint, a 100-byte script and its 100-byte stylesheet. *)
Definition app_base : Metafile := {| outputs :=
  [ ("out/app.js", emitted "src/app.ts" 100 (Some "out/app.css"));
    ("out/app.css", chunk 100) ] |}.

(** The same after the script grew to 200 bytes. *)
Definition app_pr : Metafile := {| outputs :=
  [ ("out/app.js", emitted "src/app.ts" 200 (Some "out/app.css"));
    ("out/app.css", chunk 100) ] |}.

(** An entrypoint that goes away and one that appears. *)
Definition site_base : Metafile := {| outputs :=
  [ ("out/app.js", emitted "src/app.ts" 100 (Some "out/app.css"));
    ("out/app.css", chunk 100);
    ("out/old.js", emitted "src/old.ts" 7 None) ] |}.

Definition site_pr : Metafile := {| outputs :=
  [ ("out/app.js", emitted "src/app.ts" 200 (Some "out/app.css"));
    ("out/app.css", chunk 100);
    ("out/a|b.js", emitted "src/new.ts" 12 None) ] |}.

(** An entrypoint whose only output is empty. *)
Definition empty_entry : Metafile := {| outputs :=
  [ ("out/empty.js", emitted "src/empty.ts" 0 None) ] |}.

(** Two outputs of one entrypoint sharing a stylesheet bundle, a shared
    chunk, and a reference to a bundle the manifest does not list. *)
Definition shared_css : Metafile := {| outputs :=
  [ ("out/a.js", emitted "src/app.ts" 100 (Some "out/app.css"));
    ("out/b.js", emitted "src/app.ts" 30 (Some "out/app.css"));
    ("out/c.js", emitted "src/app.ts" 1 (Some "out/gone.css"));
    ("out/app.css", chunk 10);
    ("out/chunk.js", chunk 5) ] |}.


(** Two bundles emitted for the entrypoint itself, one listed before the
    output that references it and one after. *)
Definition css_around : Metafile := {| outputs :=
  [ ("out/c1.css", emitted "src/app.ts" 1 None);
    ("out/p.js", emitted "src/app.ts" 100 (Some "out/c1.css"));
    ("out/q.js", emitted "src/app.ts" 1000 (Some "out/c2.css"));
    ("out/c2.css", emitted "src/app.ts" 10 None) ] |}.

(** An output that names [toString] as its stylesheet bundle; the manifest
    lists no such output. *)
Definition css_toString : Metafile := {| outputs :=
  [ ("out/o.js", emitted "src/app.ts" 5 (Some "toString")) ] |}.

(** An entrypoint called [constructor]. *)
Definition entry_constructor : Metafile := {| outputs :=
  [ ("out/o.js", emitted "constructor" 5 None) ] |}.

(** An entrypoint with a line feed in its name. *)
Definition entry_two_lines : Metafile := {| outputs :=
  [ ("out/o.js", emitted ("src/a" +:+ LF +:+ "b.ts") 5 None) ] |}.

(** ** A sample host

    The working directory holds base.json and pr.json, standing for
    [app_base] and [app_pr], proto.json,
    standing for [entry_constructor], and broken.json, cut short; every
    other file is missing. *)

Definition sample_files (file : string) : exn + string :=
  if (file =? "/work/base.json")%string then inr "text of base.json"
  else if (file =? "/work/pr.json")%string then inr "text of pr.json"
  else if (file =? "/work/proto.json")%string then inr "text of proto.json"
  else if (file =? "/work/broken.json")%string then inr "{"
  else inl (SystemError "ENOENT" file).

Definition sample_parse (text : string) : exn + Metafile :=
  if (text =? "text of base.json")%string then inr app_base
  else if (text =? "text of pr.json")%string then inr app_pr
  else if (text =? "text of proto.json")%string then inr entry_constructor
  else inl (SyntaxError "Unexpected end of JSON input").

Definition sample_host (args : list string) (base_path token : string)
    (env_token : option string) : Host :=
  {| argv := "node" :: "index.js" :: args;
     cwd := "/work";
     getInput := fun name =>
       if (name =? "base_path")%string then base_path
       else if (name =? "pr_path")%string then "pr.json"
       else if (name =? "github_token")%string then token
       else "";
     env_GITHUB_TOKEN := env_token;
     readFileSync := sample_files;
     JSON_parse := sample_parse;
     path_resolve := fun from to => from +:+ "/" +:+ to |}.

Definition no_comments : World := {| comments := []; stdout := []; calls := [] |}.

(** An issue with two comments, the second one marked. *)
Definition one_marked : World :=
  {| comments := [ {| comment_id := 7; body := Some "first" |};
                   {| comment_id := 9; body := Some (identifier +:+ " old") |} ];
     stdout := [];
     calls := [] |}.

(** An issue with thirty comments and then a marked one: the marked comment
    is on the second page. *)
Definition crowded : World :=
  {| comments := map (fun i => {| comment_id := Z.of_nat i; body := Some "chat" |})
                   (seq 1 30)
                 ++ [ {| comment_id := 31; body := Some (identifier +:+ " old") |} ];
     stdout := [];
     calls := [] |}.

(** The application before it had a stylesheet. *)
Definition app_plain : Metafile := {| outputs :=
  [ ("out/app.js", emitted "src/app.ts" 100 None) ] |}.

(** [app_base] with its two outputs listed the other way round. *)
Definition app_base_reordered : Metafile := {| outputs :=
  [ ("out/app.css", chunk 100);
    ("out/app.js", emitted "src/app.ts" 100 (Some "out/app.css")) ] |}.

(** ** Notions used by the facts about numbers *)

(** The binary64 number of a positive integer below 2^53: the integer shifted
    to 53 binary digits, and the exponent that undoes the shift. *)
Definition aligned (p : positive) : positive * Z :=
  shl_align p 0 (Zpos (digits2_pos p) - 53).

(** A number above zero, [Infinity] included. *)
Definition positive_number (x : spec_float) : Prop :=
  match x with
  | S754_finite false _ _ | S754_infinity false => True
  | _ => False
  end.


(** ** Reading the rows

    [block] is what [entrypoints.forEach] pushes for one entrypoint, given
    the two lists aggregated for it: its summary row, then one row per path.
    [entrypoints] are the entrypoints either manifest names, in the order of
    the table.  [table_rows] are the rows of the table of two manifests on
    which the aggregation does not throw. *)

Definition block (Number_toString : spec_float -> string)
    (log_approx : spec_float -> spec_float)
    (pow_approx : spec_float -> spec_float -> spec_float)
    (NumberFormat_format : string -> spec_float -> string)
    (entrypoint : string) (baseSize prSize : list PathBytes) : Try (list (list string)) :=
  row <~ summary_row Number_toString log_approx pow_approx NumberFormat_format
           entrypoint baseSize prSize ;;
  rows <~ mapM (detail_row Number_toString log_approx pow_approx NumberFormat_format
                  baseSize prSize (percentChange (sum_bytes baseSize) (sum_bytes prSize)))
            (paths_of baseSize prSize) ;;
  inr (row :: rows).

Definition entrypoints (baseMetafile prMetafile : Metafile) : list string :=
  StringSort.sort (Set_of (entry_names baseMetafile ++ entry_names prMetafile)).

Definition table_rows (Number_toString : spec_float -> string)
    (log_approx : spec_float -> spec_float)
    (pow_approx : spec_float -> spec_float -> spec_float)
    (NumberFormat_format : string -> spec_float -> string)
    (baseMetafile prMetafile : Metafile) : Try (list (list string)) :=
  blocks <~ mapM (fun e => block Number_toString log_approx pow_approx NumberFormat_format
                             e (items_of baseMetafile e) (items_of prMetafile e))
              (entrypoints baseMetafile prMetafile) ;;
  inr (columnHeadings :: separator_row :: List.concat blocks).

(** The text holds these rows, rendered, one after the other. *)
Definition shows (table : string) (rows : list (list string)) : Prop :=
  exists before after, table = join LF (map render_row (before ++ rows ++ after)).

(** The path is aggregated for the entrypoint: it is the path of an output
    that names the entrypoint, or the stylesheet bundle of such an output for
    which the lookup among the outputs finds something. *)
Definition aggregated (metafile : Metafile) (e p : string) : Prop :=
  exists entry,
    In entry (outputs metafile)
    /\ truthy (entryPoint (snd entry)) = Some e
    /\ (fst entry = p
        \/ (truthy (cssBundle (snd entry)) = Some p
            /\ get (outputs metafile) p <> Undefined)).

(** How the table is to mark an entrypoint that one manifest only names. *)
Definition mark_of (baseMetafile prMetafile : Metafile) (e : string) : option string :=
  match mem e (entry_names baseMetafile), mem e (entry_names prMetafile) with
  | false, true => Some "new"
  | true, false => Some "deleted"
  | _, _ => None
  end.

(** The mark of a path that only one of the two manifests has for the
    entrypoint: [baseItem === undefined ? "new" : prItem === undefined ?
    "deleted" : ...]. *)
Definition path_mark (baseSize prSize : list PathBytes) (p : string) : option string :=
  match mem p (map path baseSize), mem p (map path prSize) with
  | false, true => Some "new"
  | true, false => Some "deleted"
  | _, _ => None
  end.

(** An output with no (or an empty) [entryPoint]. *)
Definition unnamed (entry : string * Output) : bool :=
  match truthy (entryPoint (snd entry)) with
  | Some _ => false
  | None => true
  end.

(** The output names [q] as its stylesheet bundle. *)
Definition references (q : string) (entry : string * Output) : bool :=
  match truthy (cssBundle (snd entry)) with
  | Some css => (css =? q)%string
  | None => false
  end.

(** ** The tables of the samples, as the sample runtime prints them *)

(** [app_base] against [app_pr]. *)
Definition app_table : string :=
  "| Entrypoint | Path | Old size | New size | Diff |" +:+ LF +:+
  "| --- | --- | --- | --- | --- |" +:+ LF +:+
  "| src/app.ts | * | 200 byte | 300 byte | 100 byte (50.00%) |" +:+ LF +:+
  "| <sub></sub> | <sub>out/app.css</sub> | <sub>100 byte</sub> | <sub>100 byte</sub> | <sub>0 byte (50.00%)</sub> |" +:+ LF +:+
  "| <sub></sub> | <sub>out/app.js</sub> | <sub>100 byte</sub> | <sub>200 byte</sub> | <sub>100 byte (50.00%)</sub> |".

(** [site_base] against [site_pr]. *)
Definition site_table : string :=
  "| Entrypoint | Path | Old size | New size | Diff |" +:+ LF +:+
  "| --- | --- | --- | --- | --- |" +:+ LF +:+
  "| src/app.ts | * | 200 byte | 300 byte | 100 byte (50.00%) |" +:+ LF +:+
  "| <sub></sub> | <sub>out/app.css</sub> | <sub>100 byte</sub> | <sub>100 byte</sub> | <sub>0 byte (50.00%)</sub> |" +:+ LF +:+
  "| <sub></sub> | <sub>out/app.js</sub> | <sub>100 byte</sub> | <sub>200 byte</sub> | <sub>100 byte (50.00%)</sub> |" +:+ LF +:+
  "| src/new.ts | * | 0 byte | 12 byte | 12 byte (Infinity%) |" +:+ LF +:+
  "| <sub></sub> | <sub>out/a\|b.js</sub> | <sub>n/a</sub> | <sub>12 byte</sub> | <sub>new</sub> |" +:+ LF +:+
  "| src/old.ts | * | 7 byte | 0 byte | ? byte (-100.00%) |" +:+ LF +:+
  "| <sub></sub> | <sub>out/old.js</sub> | <sub>7 byte</sub> | <sub>n/a</sub> | <sub>deleted</sub> |".

(** [app_pr] against itself. *)
Definition app_pr_table : string :=
  "| Entrypoint | Path | Old size | New size | Diff |" +:+ LF +:+
  "| --- | --- | --- | --- | --- |" +:+ LF +:+
  "| src/app.ts | * | 300 byte | 300 byte | 0 byte (0.00%) |" +:+ LF +:+
  "| <sub></sub> | <sub>out/app.css</sub> | <sub>100 byte</sub> | <sub>100 byte</sub> | <sub>0 byte (0.00%)</sub> |" +:+ LF +:+
  "| <sub></sub> | <sub>out/app.js</sub> | <sub>200 byte</sub> | <sub>200 byte</sub> | <sub>0 byte (0.00%)</sub> |".

(** [empty_entry] against itself. *)
Definition empty_table : string :=
  "| Entrypoint | Path | Old size | New size | Diff |" +:+ LF +:+
  "| --- | --- | --- | --- | --- |" +:+ LF +:+
  "| src/empty.ts | * | 0 byte | 0 byte | 0 byte (NaN%) |" +:+ LF +:+
  "| <sub></sub> | <sub>out/empty.js</sub> | <sub>0 byte</sub> | <sub>0 byte</sub> | <sub>0 byte (NaN%)</sub> |".


(** [app_plain] against [app_pr]. *)
Definition app_plain_table : string :=
  "| Entrypoint | Path | Old size | New size | Diff |" +:+ LF +:+
  "| --- | --- | --- | --- | --- |" +:+ LF +:+
  "| src/app.ts | * | 100 byte | 300 byte | 200 byte (200.00%) |" +:+ LF +:+
  "| <sub></sub> | <sub>out/app.css</sub> | <sub>n/a</sub> | <sub>100 byte</sub> | <sub>new</sub> |" +:+ LF +:+
  "| <sub></sub> | <sub>out/app.js</sub> | <sub>100 byte</sub> | <sub>200 byte</sub> | <sub>100 byte (200.00%)</sub> |".

(** [entry_two_lines] against itself: the row that names the entrypoint
    takes two lines. *)
Definition two_lines_table : string :=
  "| Entrypoint | Path | Old size | New size | Diff |" +:+ LF +:+
  "| --- | --- | --- | --- | --- |" +:+ LF +:+
  "| src/a" +:+ LF +:+ "b.ts | * | 5 byte | 5 byte | 0 byte (0.00%) |" +:+ LF +:+
  "| <sub></sub> | <sub>out/o.js</sub> | <sub>5 byte</sub> | <sub>5 byte</sub> | <sub>0 byte (0.00%)</sub> |".

(** ** Reading the sizes as integers *)

(** The integer an item counts for. *)
Definition count_of (it : PathBytes) : Z := byte_count (ToNumber (path_bytes it)).

(** The size of an entrypoint in the specification's words: the bytes of the
    outputs that name it, plus the bytes of each stylesheet bundle those
    outputs reference (each bundle once, and only bundles for which the
    lookup finds something). *)
Definition claimed_size (metafile : Metafile) (e : string) : Z :=
  total (map (fun entry => byte_count (bytes (snd entry))) (own_outputs metafile e))
  + total (map count_of
             (distinct_from [] (css_refs (outputs metafile) (own_outputs metafile e)))).

(** The same over distinct paths: every path among the outputs naming [e] and
    their stylesheet bundles, once. *)
Definition distinct_size (metafile : Metafile) (e : string) : Z :=
  total (map count_of
           (distinct_from []
              (map (fun entry => {| path := fst entry;
                                    path_bytes := Some (bytes (snd entry)) |})
                   (own_outputs metafile e)
               ++ css_refs (outputs metafile) (own_outputs metafile e)))).

(** Every size of the manifest is a non-negative integer below 2^53. *)
Definition whole_sizes (metafile : Metafile) : Prop :=
  Forall (fun entry => whole (bytes (snd entry))) (outputs metafile).

(** No output names as its stylesheet bundle a property of [Object.prototype]
    that is no output of the manifest. *)
Definition plain_refs (metafile : Metafile) : bool :=
  forallb (fun entry => match css_ref (outputs metafile) (snd entry) with
                        | Some {| path_bytes := None |} => false
                        | _ => true
                        end) (outputs metafile).

(** The item is what the lookup of its path among the outputs finds: an
    output, with its bytes, or a property of [Object.prototype], without
    bytes. *)
Definition listed (outs : list (string * Output)) (it : PathBytes) : Prop :=
  match get outs (path it) with
  | Own o => path_bytes it = Some (bytes o)
  | Inherited => path_bytes it = None
  | Undefined => False
  end.

(** The item of a path among the outputs. *)
Definition item_of (outs : list (string * Output)) (p : string) : PathBytes :=
  {| path := p;
     path_bytes := match get outs p with
                   | Own o => Some (bytes o)
                   | _ => None
                   end |}.

(** The integer total of every entrypoint is below 2^53. *)
Definition exact_totals (metafile : Metafile) : bool :=
  forallb (fun e => total (map count_of (items_of metafile e)) <? 2 ^ 53)
    (entry_names metafile).

(** * Facts *)

(** ** Lists built by pushing *)

Lemma fold_left_push {A B} (f : A -> B) (l : list A) (acc : list B) :
  fold_left (fun r a => r ++ [f a]) l acc = acc ++ map f l.
Proof.
  revert acc; induction l as [|a l IH]; intros acc; simpl.
  - now rewrite app_nil_r.
  - rewrite IH, <- app_assoc. reflexivity.
Qed.

(** ** Escaping *)

Lemma escapePipes_then_space (cell : string) (escaped : bool) (rest : string) :
  unescaped_pipes_after escaped (escapePipes cell +:+ String " "%char rest)
  = unescaped_pipes_after false rest.
Proof.
  revert escaped; induction cell as [|c cell IH]; intros escaped; simpl.
  - reflexivity.
  - destruct (Ascii.eqb c pipe) eqn:Hc; simpl; rewrite ?Hc, IH; reflexivity.
Qed.

Lemma escapePipes_no_unescaped (cell : string) (escaped : bool) :
  unescaped_pipes_after escaped (escapePipes cell) = O.
Proof.
  revert escaped; induction cell as [|c cell IH]; intros escaped; simpl.
  - reflexivity.
  - destruct (Ascii.eqb c pipe) eqn:Hc; simpl; rewrite ?Hc, IH; reflexivity.
Qed.

Lemma escapePipes_app (a b : string) :
  escapePipes (a +:+ b) = escapePipes a +:+ escapePipes b.
Proof.
  induction a as [|c a IH]; simpl; [reflexivity|].
  destruct (Ascii.eqb c pipe); simpl; now rewrite IH.
Qed.

Lemma unescapePipes_cons (c : ascii) (s : string) :
  Ascii.eqb c backslash
  && match s with String c' _ => Ascii.eqb c' pipe | EmptyString => false end = false ->
  unescapePipes (String c s) = String c (unescapePipes s).
Proof.
  destruct s as [|c' s]; [reflexivity|].
  intros H. cbn [unescapePipes]. rewrite H. reflexivity.
Qed.

Lemma escapePipes_head (cell : string) :
  match escapePipes cell with
  | String c' _ => Ascii.eqb c' pipe
  | EmptyString => false
  end = false.
Proof.
  destruct cell as [|c cell]; [reflexivity|]. cbn [escapePipes].
  destruct (Ascii.eqb c pipe) eqn:Hc; [reflexivity | exact Hc].
Qed.

Lemma unescape_escapePipes (cell : string) : unescapePipes (escapePipes cell) = cell.
Proof.
  induction cell as [|c cell IH]; [reflexivity|].
  cbn [escapePipes].
  destruct (Ascii.eqb c pipe) eqn:Hc.
  - apply Ascii.eqb_eq in Hc; subst c.
    change (unescapePipes (String backslash (String pipe (escapePipes cell))))
      with (unescapePipes (String pipe (escapePipes cell))).
    rewrite unescapePipes_cons by reflexivity. now rewrite IH.
  - rewrite unescapePipes_cons by (rewrite escapePipes_head; apply andb_false_r).
    now rewrite IH.
Qed.

Lemma count_pipes_escapePipes (cell : string) :
  count_pipes (escapePipes cell) = count_pipes cell.
Proof.
  induction cell as [|c cell IH]; [reflexivity|]. simpl.
  destruct (Ascii.eqb c pipe) eqn:Hc; simpl; rewrite ?Hc, IH; reflexivity.
Qed.

(** ** Sets and sorting *)

Lemma Set_add_In (set : list string) (x y : string) :
  In y (Set_add set x) <-> In y set \/ y = x.
Proof.
  unfold Set_add. destruct (existsb (String.eqb x) set) eqn:E.
  - apply existsb_exists in E as (z & Hz & Hxz). apply String.eqb_eq in Hxz; subst z.
    split; [auto | intros [H| ->]; assumption].
  - rewrite in_app_iff. simpl. intuition.
Qed.

Lemma Set_add_NoDup (set : list string) (x : string) :
  NoDup set -> NoDup (Set_add set x).
Proof.
  intros H. unfold Set_add. destruct (existsb (String.eqb x) set) eqn:E; [assumption|].
  apply NoDup_app; [assumption | repeat constructor; simpl; tauto |].
  intros y Hy [<-|[]].
  assert (existsb (String.eqb x) set = true) as E'
    by (apply existsb_exists; exists x; split; [assumption | apply String.eqb_refl]).
  congruence.
Qed.

Lemma fold_Set_add_In (l acc : list string) (y : string) :
  In y (fold_left Set_add l acc) <-> In y acc \/ In y l.
Proof.
  revert acc; induction l as [|x l IH]; intros acc; simpl.
  - tauto.
  - rewrite IH, Set_add_In. intuition.
Qed.

Lemma fold_Set_add_NoDup (l acc : list string) :
  NoDup acc -> NoDup (fold_left Set_add l acc).
Proof.
  revert acc; induction l as [|x l IH]; intros acc H; simpl; [assumption|].
  apply IH, Set_add_NoDup, H.
Qed.

Lemma Set_of_In (l : list string) (y : string) : In y (Set_of l) <-> In y l.
Proof. unfold Set_of. rewrite fold_Set_add_In. simpl. tauto. Qed.

Lemma Set_of_NoDup (l : list string) : NoDup (Set_of l).
Proof. apply fold_Set_add_NoDup. constructor. Qed.

Lemma sort_In (l : list string) (y : string) : In y (StringSort.sort l) <-> In y l.
Proof.
  split; intros H.
  - eapply Permutation_in; [apply Permutation_sym, StringSort.Permuted_sort | exact H].
  - eapply Permutation_in; [apply StringSort.Permuted_sort | exact H].
Qed.

Lemma sort_NoDup (l : list string) : NoDup l -> NoDup (StringSort.sort l).
Proof. apply Permutation_NoDup, StringSort.Permuted_sort. Qed.

Lemma leb_neq_ltb (a b : string) : String.leb a b = true -> a <> b -> str_lt a b.
Proof.
  unfold String.leb, str_lt, String.ltb. intros H Hne.
  destruct (String.compare a b) eqn:E; [|reflexivity|discriminate].
  apply String.compare_eq_iff in E. contradiction.
Qed.

Lemma Sorted_strict (l : list string) :
  Sorted (fun a b => is_true (String.leb a b)) l -> NoDup l -> Sorted str_lt l.
Proof.
  induction l as [|a l IH]; intros Hs Hn; [constructor|].
  apply Sorted_inv in Hs as [Hs Hh]. inversion Hn as [|? ? Hna Hn']; subst.
  constructor; [auto|].
  destruct l as [|b l]; constructor.
  apply HdRel_inv in Hh. apply leb_neq_ltb; [exact Hh|].
  intros ->. apply Hna. left. reflexivity.
Qed.

Lemma compare_lt_trans (a b c : string) :
  String.compare a b = Lt -> String.compare b c = Lt -> String.compare a c = Lt.
Proof.
  revert b c; induction a as [|x a IH]; intros [|y b] [|z c]; simpl; try congruence.
  unfold Ascii.compare.
  destruct (N.compare_spec (N_of_ascii x) (N_of_ascii y)) as [Hxy|Hxy|Hxy];
    destruct (N.compare_spec (N_of_ascii y) (N_of_ascii z)) as [Hyz|Hyz|Hyz];
    try congruence; intros H1 H2.
  - rewrite Hxy, Hyz, N.compare_refl. eapply IH; eassumption.
  - rewrite Hxy. apply N.compare_lt_iff in Hyz. now rewrite Hyz.
  - rewrite <- Hyz. apply N.compare_lt_iff in Hxy. now rewrite Hxy.
  - assert (N_of_ascii x < N_of_ascii z)%N as Hxz by (eapply N.lt_trans; eassumption).
    apply N.compare_lt_iff in Hxz. now rewrite Hxz.
Qed.

Lemma str_lt_trans : Transitive str_lt.
Proof.
  intros a b c. unfold str_lt, String.ltb.
  destruct (String.compare a b) eqn:Hab; try discriminate.
  destruct (String.compare b c) eqn:Hbc; try discriminate.
  intros _ _. now rewrite (compare_lt_trans a b c Hab Hbc).
Qed.

(** A sorted set: every element is below all the elements after it. *)
Lemma sort_Set_of_sorted (l : list string) :
  StronglySorted str_lt (StringSort.sort (Set_of l)).
Proof.
  apply Sorted_StronglySorted; [exact str_lt_trans|].
  apply Sorted_strict; [apply StringSort.Sorted_sort | apply sort_NoDup, Set_of_NoDup].
Qed.

(** ** Separators of a rendered row *)

Lemma append_assoc (a b c : string) : (a +:+ b) +:+ c = a +:+ (b +:+ c).
Proof. induction a as [|x a IH]; simpl; [reflexivity | now rewrite IH]. Qed.

Lemma append_nil_r (a : string) : a +:+ "" = a.
Proof. induction a as [|x a IH]; simpl; [reflexivity | now rewrite IH]. Qed.

Lemma cells_then_close (cells : list string) (escaped : bool) :
  cells <> [] ->
  unescaped_pipes_after escaped (join " | " (map escapePipes cells) +:+ " |")
  = List.length cells.
Proof.
  revert escaped; induction cells as [|x cells IH]; intros escaped Hne; [contradiction|].
  destruct cells as [|y cells].
  - cbn [map join String.concat].
    change (escapePipes x +:+ " |") with (escapePipes x +:+ String " "%char "|").
    rewrite escapePipes_then_space. reflexivity.
  - change (join " | " (map escapePipes (x :: y :: cells)))
      with (escapePipes x +:+ " | " +:+ join " | " (map escapePipes (y :: cells))).
    rewrite !append_assoc.
    change (" | " +:+ ?r) with (String " "%char (String "|"%char (String " "%char r))).
    rewrite escapePipes_then_space.
    cbn [unescaped_pipes_after].
    change (Ascii.eqb "|" pipe && negb false) with true.
    change (Ascii.eqb "|" backslash) with false.
    change (Ascii.eqb " " pipe && negb false) with false.
    change (Ascii.eqb " " backslash) with false.
    rewrite IH by discriminate. reflexivity.
Qed.

Lemma render_row_separators (row : list string) :
  row <> [] -> unescaped_pipes (render_row row) = S (List.length row).
Proof.
  intros Hne. unfold render_row, unescaped_pipes.
  change ("| " +:+ ?r) with (String "|"%char (String " "%char r)).
  cbn [unescaped_pipes_after].
  change (Ascii.eqb "|" pipe && negb false) with true.
  change (Ascii.eqb "|" backslash) with false.
  change (Ascii.eqb " " pipe && negb false) with false.
  change (Ascii.eqb " " backslash) with false.
  rewrite cells_then_close by assumption. reflexivity.
Qed.

(** ** Objects *)

Lemma obj_get_set {A} (o : list (string * A)) (k k' : string) (v : A) :
  obj_get (obj_set o k v) k' = if (k =? k')%string then Some v else obj_get o k'.
Proof.
  induction o as [|[k0 v0] o IH]; simpl.
  - reflexivity.
  - destruct (k0 =? k)%string eqn:E0; simpl.
    + apply String.eqb_eq in E0; subst k0. destruct (k =? k')%string; reflexivity.
    + destruct (k0 =? k')%string eqn:E1; [|exact IH].
      apply String.eqb_eq in E1; subst k0. rewrite String.eqb_sym in E0. now rewrite E0.
Qed.

Lemma obj_get_keys {A} (o : list (string * A)) (k : string) :
  In k (keys o) <-> obj_get o k <> None.
Proof.
  induction o as [|[k0 v0] o IH]; simpl.
  - split; [tauto | congruence].
  - destruct (k0 =? k)%string eqn:E.
    + apply String.eqb_eq in E. split; [discriminate | auto].
    + apply String.eqb_neq in E. rewrite <- IH. tauto.
Qed.

Lemma mem_In (x : string) (l : list string) : mem x l = true <-> In x l.
Proof.
  unfold mem. rewrite existsb_exists. split.
  - intros (y & Hy & E). apply String.eqb_eq in E. now subst.
  - intros H. exists x. split; [assumption | apply String.eqb_refl].
Qed.

Lemma mem_ext (x : string) (l l' : list string) :
  (In x l <-> In x l') -> mem x l = mem x l'.
Proof.
  intros H. destruct (mem x l) eqn:E, (mem x l') eqn:E'; try reflexivity.
  - apply mem_In, H, mem_In in E. congruence.
  - apply mem_In, H, mem_In in E'. congruence.
Qed.

Lemma has_path_mem (items : list PathBytes) (p : string) :
  has_path items p = mem p (map path items).
Proof.
  unfold has_path, mem. induction items as [|it items IH]; simpl; [reflexivity|].
  rewrite IH, (String.eqb_sym (path it) p). reflexivity.
Qed.

(** ** Functions that can throw *)

Lemma mapM_inr {A B} (f : A -> Try B) (l : list A) (ys : list B) :
  mapM f l = inr ys <-> Forall2 (fun x y => f x = inr y) l ys.
Proof.
  revert ys; induction l as [|x l IH]; intros ys; simpl.
  - split.
    + intros H. injection H as <-. constructor.
    + intros H. inversion H. reflexivity.
  - split.
    + destruct (f x) as [e|y] eqn:Hx; simpl; [discriminate|].
      destruct (mapM f l) as [e|ys'] eqn:Hl; simpl; [discriminate|].
      intros H. injection H as <-. constructor; [assumption|]. now apply IH.
    + intros H. inversion H as [|? y ? ys' Hx Hl]; subst.
      rewrite Hx. simpl. apply IH in Hl. rewrite Hl. reflexivity.
Qed.

Lemma mapM_app {A B} (f : A -> Try B) (l1 l2 : list A) :
  mapM f (l1 ++ l2)
  = (ys1 <~ mapM f l1 ;; ys2 <~ mapM f l2 ;; inr (ys1 ++ ys2)).
Proof.
  induction l1 as [|x l1 IH]; simpl.
  - destruct (mapM f l2); reflexivity.
  - destruct (f x) as [e|y]; simpl; [reflexivity|]. rewrite IH.
    destruct (mapM f l1) as [e|ys1]; simpl; [reflexivity|].
    destruct (mapM f l2); reflexivity.
Qed.

Lemma mapM_length {A B} (f : A -> Try B) (l : list A) (ys : list B) :
  mapM f l = inr ys -> List.length ys = List.length l.
Proof.
  intros H. apply mapM_inr in H. symmetry. eapply Forall2_length; eassumption.
Qed.

(** The result for one element of the list, and where it stands. *)
Lemma mapM_In {A B} (f : A -> Try B) (l : list A) (ys : list B) (x : A) :
  mapM f l = inr ys -> In x l ->
  exists before y after, f x = inr y /\ ys = before ++ y :: after.
Proof.
  intros H Hin. apply in_split in Hin as (l1 & l2 & ->).
  rewrite mapM_app in H. simpl in H.
  destruct (mapM f l1) as [e|ys1]; simpl in H; [discriminate|].
  destruct (f x) as [e|y]; simpl in H; [discriminate|].
  destruct (mapM f l2) as [e|ys2]; simpl in H; [discriminate|].
  injection H as <-. now exists ys1, y, ys2.
Qed.

Lemma mapM_ext_in {A B} (f g : A -> Try B) (l : list A) :
  (forall x, In x l -> f x = g x) -> mapM f l = mapM g l.
Proof.
  induction l as [|x l IH]; intros H; simpl; [reflexivity|].
  rewrite (H x) by now left. rewrite IH; [reflexivity|].
  intros y Hy. apply H. now right.
Qed.

Lemma mapM_pure {A B} (f : A -> B) (l : list A) :
  mapM (fun x => inr (f x)) l = inr (map f l).
Proof. induction l as [|x l IH]; simpl; [reflexivity|]. now rewrite IH. Qed.

Lemma forEach_push {A B} (f : A -> Try B) (l : list A) (acc : list B) :
  forEach (fun acc x => y <~ f x ;; inr (acc ++ [y])) l acc
  = (ys <~ mapM f l ;; inr (acc ++ ys)).
Proof.
  revert acc; induction l as [|x l IH]; intros acc; simpl.
  - now rewrite app_nil_r.
  - destruct (f x) as [e|y]; simpl; [reflexivity|]. rewrite IH.
    destruct (mapM f l) as [e|ys]; simpl; [reflexivity|].
    now rewrite <- app_assoc.
Qed.

Lemma forEach_blocks {A B} (f : A -> Try (list B)) (l : list A) (acc : list B) :
  forEach (fun acc x => ys <~ f x ;; inr (acc ++ ys)) l acc
  = (yss <~ mapM f l ;; inr (acc ++ List.concat yss)).
Proof.
  revert acc; induction l as [|x l IH]; intros acc; simpl.
  - now rewrite app_nil_r.
  - destruct (f x) as [e|ys]; simpl; [reflexivity|]. rewrite IH.
    destruct (mapM f l) as [e|yss]; simpl; [reflexivity|].
    now rewrite <- app_assoc.
Qed.

Lemma forEach_ext {A S} (f g : S -> A -> Try S) (l : list A) (s : S) :
  (forall s x, f s x = g s x) -> forEach f l s = forEach g l s.
Proof.
  intros H. revert s; induction l as [|x l IH]; intros s; simpl; [reflexivity|].
  rewrite H. destruct (g s x); simpl; [reflexivity | apply IH].
Qed.

(** ** One entrypoint at a time *)

Lemma get_plain {A} (o : list (string * A)) (k : string) :
  mem k Object_prototype = false ->
  get o k = match obj_get o k with Some v => Own v | None => Undefined end.
Proof. intros H. unfold get. now rewrite H. Qed.

Lemma visit_extend (outs : list (string * Output)) (result : Sizes) (p : string)
    (output : Output) (ep : string) :
  truthy (entryPoint output) = Some ep ->
  get result ep <> Inherited ->
  visit outs result (p, output)
  = inr (obj_set result ep (extend outs (or_nil (obj_get result ep)) (p, output))).
Proof.
  intros Hep Hget. unfold visit. rewrite Hep.
  assert (forall first,
    (let items := first ++ [{| path := p; path_bytes := Some (bytes output) |}] in
     match truthy (cssBundle output) with
     | Some css =>
         match get outs css with
         | Undefined => items
         | cssOutput =>
             if has_path items css then items
             else items ++
                  [{| path := css;
                      path_bytes := match cssOutput with
                                    | Own o => Some (bytes o)
                                    | _ => None
                                    end |}]
         end
     | None => items
     end) = extend outs first (p, output)) as Hitems.
  { intros first. unfold extend, css_ref. cbn [fst snd].
    destruct (truthy (cssBundle output)) as [css|]; [|reflexivity].
    destruct (get outs css); reflexivity. }
  unfold get in *. destruct (obj_get result ep) as [l|]; cbn [or_nil].
  - now rewrite <- Hitems.
  - destruct (mem ep Object_prototype); [congruence|]. now rewrite <- Hitems.
Qed.

Lemma plain_keys_set {A} (o : list (string * A)) (k : string) (v : A) :
  plain_keys o -> mem k Object_prototype = false -> plain_keys (obj_set o k v).
Proof.
  unfold plain_keys. intros Ho Hk k' Hin. apply obj_get_keys in Hin. rewrite obj_get_set in Hin.
  destruct (String.eqb_spec k k') as [E|E]; [now subst|].
  apply Ho. now apply obj_get_keys.
Qed.

Lemma forEach_visit (outs l : list (string * Output)) (result : Sizes) :
  plain_keys result ->
  match forEach (visit outs) l result with
  | inl err => err = TypeError /\ existsb inherited_name l = true
  | inr sizes =>
      existsb inherited_name l = false
      /\ plain_keys sizes
      /\ forall e,
           obj_get sizes e
           = match filter (names e) l with
             | [] => obj_get result e
             | own => Some (fold_left (extend outs) own (or_nil (obj_get result e)))
             end
  end.
Proof.
  revert result; induction l as [|[p output] l IH]; intros result Hplain.
  - simpl. auto.
  - cbn [forEach existsb].
    destruct (truthy (entryPoint output)) as [ep|] eqn:Hep.
    + assert (inherited_name (p, output) = mem ep Object_prototype) as ->
        by (unfold inherited_name; cbn [snd]; now rewrite Hep).
      assert (forall e, filter (names e) ((p, output) :: l)
                        = if (ep =? e)%string then (p, output) :: filter (names e) l
                          else filter (names e) l) as Hf
        by (intros e; cbn [filter]; unfold names at 1; cbn [snd]; now rewrite Hep).
      destruct (mem ep Object_prototype) eqn:Hproto.
      * (* the name is inherited: no own key, the push throws *)
        assert (obj_get result ep = None) as Hnone.
        { destruct (obj_get result ep) eqn:E; [|reflexivity].
          assert (In ep (keys result)) as Hin by (apply obj_get_keys; congruence).
          apply Hplain in Hin. congruence. }
        unfold visit. rewrite Hep. unfold get. rewrite Hnone, Hproto. simpl. auto.
      * rewrite (visit_extend outs result p output ep Hep)
          by (rewrite get_plain by assumption; destruct (obj_get result ep); discriminate).
        cbn [and_then].
        specialize (IH (obj_set result ep
                          (extend outs (or_nil (obj_get result ep)) (p, output)))
                       (plain_keys_set _ _ _ Hplain Hproto)).
        destruct (forEach (visit outs) l _) as [err|sizes]; [exact IH|].
        destruct IH as (Hno & Hkeys & Hget). split; [assumption|].
        split; [assumption|]. intros e. rewrite Hget, obj_get_set, Hf.
        destruct (String.eqb_spec ep e) as [E|E]; [|reflexivity].
        subst e. cbn [or_nil fold_left]. destruct (filter (names ep) l); reflexivity.
    + assert (inherited_name (p, output) = false) as ->
        by (unfold inherited_name; cbn [snd]; now rewrite Hep).
      assert (forall e, filter (names e) ((p, output) :: l) = filter (names e) l) as Hf
        by (intros e; cbn [filter]; unfold names at 1; cbn [snd]; now rewrite Hep).
      assert (visit outs result (p, output) = inr result) as ->
        by (unfold visit; now rewrite Hep).
      cbn [and_then]. specialize (IH result Hplain).
      destruct (forEach (visit outs) l result) as [err|sizes]; [exact IH|].
      destruct IH as (Hno & Hkeys & Hget). split; [assumption|].
      split; [assumption|]. intros e. now rewrite Hget, Hf.
Qed.

Lemma computeSizeByEntrypoint_throws (metafile : Metafile) :
  throws metafile = true -> computeSizeByEntrypoint metafile = inl TypeError.
Proof.
  intros H. unfold computeSizeByEntrypoint, throws in *.
  pose proof (forEach_visit (outputs metafile) (outputs metafile) []) as F.
  destruct (forEach _ _ _) as [err|sizes].
  - destruct F as [-> _]; [intros k []|reflexivity].
  - destruct F as [F _]; [intros k []|congruence].
Qed.

Lemma items_of_none (metafile : Metafile) (e : string) :
  own_outputs metafile e = [] -> items_of metafile e = [].
Proof. unfold items_of. now intros ->. Qed.

Lemma computeSizeByEntrypoint_returns (metafile : Metafile) :
  throws metafile = false ->
  exists sizes,
    computeSizeByEntrypoint metafile = inr sizes
    /\ plain_keys sizes
    /\ forall e, obj_get sizes e
                 = match own_outputs metafile e with
                   | [] => None
                   | _ => Some (items_of metafile e)
                   end.
Proof.
  intros H. unfold computeSizeByEntrypoint, throws in *.
  pose proof (forEach_visit (outputs metafile) (outputs metafile) []) as F.
  destruct (forEach _ _ _) as [err|sizes].
  - destruct F as [_ F]; [intros k []|congruence].
  - exists sizes. destruct F as (_ & Hplain & Hget); [intros k []|].
    split; [reflexivity|]. split; [assumption|].
    intros e. rewrite Hget. unfold items_of, own_outputs.
    destruct (filter (names e) (outputs metafile)); reflexivity.
Qed.

Lemma computeSizeByEntrypoint_inr (metafile : Metafile) (sizes : Sizes) :
  computeSizeByEntrypoint metafile = inr sizes ->
  throws metafile = false
  /\ plain_keys sizes
  /\ forall e, obj_get sizes e
               = match own_outputs metafile e with
                 | [] => None
                 | _ => Some (items_of metafile e)
                 end.
Proof.
  intros H. destruct (throws metafile) eqn:T.
  - rewrite computeSizeByEntrypoint_throws in H by assumption. discriminate.
  - destruct (computeSizeByEntrypoint_returns metafile T) as (sizes' & H' & Hp & Hg).
    rewrite H in H'. injection H' as <-. auto.
Qed.

Lemma computeSizeByEntrypoint_inl (metafile : Metafile) (err : exn) :
  computeSizeByEntrypoint metafile = inl err -> err = TypeError /\ throws metafile = true.
Proof.
  intros H. destruct (throws metafile) eqn:T.
  - rewrite computeSizeByEntrypoint_throws in H by assumption. injection H as <-. auto.
  - destruct (computeSizeByEntrypoint_returns metafile T) as (sizes' & H' & _).
    congruence.
Qed.

Lemma own_outputs_names (metafile : Metafile) (e : string) :
  own_outputs metafile e <> [] <-> In e (entry_names metafile).
Proof.
  unfold own_outputs, entry_names. rewrite in_flat_map. split.
  - intros H. destruct (filter (names e) (outputs metafile)) as [|entry l] eqn:F;
      [congruence|].
    assert (In entry (filter (names e) (outputs metafile))) as Hin by (rewrite F; now left).
    apply filter_In in Hin as [Hin Hn]. exists entry. split; [assumption|].
    unfold names in Hn. destruct (truthy (entryPoint (snd entry))) as [ep|]; [|discriminate].
    apply String.eqb_eq in Hn. subst. now left.
  - intros (entry & Hin & He) Hnil.
    assert (In entry (filter (names e) (outputs metafile))) as Hf.
    { apply filter_In. split; [assumption|]. unfold names.
      destruct (truthy (entryPoint (snd entry))) as [ep|]; [|destruct He].
      destruct He as [->|[]]. apply String.eqb_refl. }
    rewrite Hnil in Hf. destruct Hf.
Qed.

Lemma entry_names_In (metafile : Metafile) (e : string) :
  In e (entry_names metafile)
  <-> exists entry, In entry (outputs metafile) /\ truthy (entryPoint (snd entry)) = Some e.
Proof.
  unfold entry_names. rewrite in_flat_map. split; intros (entry & Hin & H); exists entry;
    (split; [assumption|]).
  - destruct (truthy (entryPoint (snd entry))) as [ep|]; [|destruct H].
    destruct H as [->|[]]. reflexivity.
  - rewrite H. now left.
Qed.

Lemma keys_sizes (metafile : Metafile) (sizes : Sizes) (e : string) :
  computeSizeByEntrypoint metafile = inr sizes ->
  In e (keys sizes) <-> In e (entry_names metafile).
Proof.
  intros H. apply computeSizeByEntrypoint_inr in H as (_ & _ & Hget).
  rewrite obj_get_keys, Hget, <- own_outputs_names.
  destruct (own_outputs metafile e); split; congruence.
Qed.

(** [sizes[e] ?? []] for a name that [Object.prototype] does not have. *)
Lemma get_sizes (metafile : Metafile) (sizes : Sizes) (e : string) :
  computeSizeByEntrypoint metafile = inr sizes ->
  mem e Object_prototype = false ->
  or_empty (get sizes e) = inr (items_of metafile e).
Proof.
  intros H Hproto. apply computeSizeByEntrypoint_inr in H as (_ & _ & Hget).
  rewrite get_plain, Hget by assumption.
  destruct (own_outputs metafile e) eqn:E; [|reflexivity].
  now rewrite items_of_none.
Qed.

(** ** What the visits of one entrypoint add up to *)

Section Extend.

Variable outs : list (string * Output).

Lemma extend_paths (items : list PathBytes) (entry : string * Output) (q : string) :
  In q (map path (extend outs items entry))
  <-> In q (map path items) \/ q = fst entry
      \/ exists c, css_ref outs (snd entry) = Some c /\ path c = q.
Proof.
  unfold extend. destruct (css_ref outs (snd entry)) as [c|].
  - destruct (has_path _ (path c)) eqn:Hp.
    + rewrite has_path_mem in Hp. apply mem_In in Hp.
      rewrite map_app, in_app_iff in *. simpl in *. split.
      * intros [H|[H|[]]]; auto.
      * intros [H|[H|(c' & Hc & H)]]; auto.
        injection Hc as <-. subst q. destruct Hp as [Hp|[Hp|[]]]; auto.
    + rewrite !map_app, !in_app_iff. simpl. split.
      * intros [[H|[H|[]]]|[H|[]]]; eauto.
      * intros [H|[H|(c' & Hc & H)]]; auto. injection Hc as <-. auto.
  - rewrite map_app, in_app_iff. simpl. split.
    + intros [H|[H|[]]]; auto.
    + intros [H|[H|(c' & Hc & _)]]; auto. discriminate.
Qed.

Lemma refers_cons (entry : string * Output) (l : list (string * Output)) (q : string) :
  refers outs (entry :: l) q = true
  <-> (exists c, css_ref outs (snd entry) = Some c /\ path c = q) \/ refers outs l q = true.
Proof.
  unfold refers. simpl. rewrite orb_true_iff.
  destruct (css_ref outs (snd entry)) as [c|].
  - rewrite String.eqb_eq. split.
    + intros [H|H]; eauto.
    + intros [(c' & Hc & H)|H]; auto. injection Hc as <-. auto.
  - split.
    + intros [H|H]; [discriminate | auto].
    + intros [(c' & Hc & _)|H]; [discriminate | auto].
Qed.

Lemma fold_extend_paths (l : list (string * Output)) (items : list PathBytes) (q : string) :
  In q (map path (fold_left (extend outs) l items))
  <-> In q (map path items) \/ In q (keys l) \/ refers outs l q = true.
Proof.
  revert items; induction l as [|entry l IH]; intros items.
  - simpl. unfold refers. simpl. intuition discriminate.
  - cbn [fold_left]. rewrite IH, extend_paths, refers_cons. simpl. intuition.
Qed.



Lemma has_path_app (p : string) (a b : list PathBytes) :
  has_path (a ++ b) p = has_path a p || has_path b p.
Proof. unfold has_path. apply existsb_app. Qed.


End Extend.

(** ** Binary64 numbers *)

Lemma digits2_pos_lower (m : positive) : 2 ^ (Zpos (digits2_pos m) - 1) <= Zpos m.
Proof.
  induction m as [m IH|m IH|]; cbn [digits2_pos].
  - rewrite Pos2Z.inj_succ.
    replace (Z.succ (Zpos (digits2_pos m)) - 1)
      with (Z.succ (Zpos (digits2_pos m) - 1)) by lia.
    rewrite Z.pow_succ_r by lia. lia.
  - rewrite Pos2Z.inj_succ.
    replace (Z.succ (Zpos (digits2_pos m)) - 1)
      with (Z.succ (Zpos (digits2_pos m) - 1)) by lia.
    rewrite Z.pow_succ_r by lia. lia.
  - simpl. lia.
Qed.

Lemma shr_1_m (mrs : shr_record) : 0 <= shr_m mrs -> shr_m (shr_1 mrs) = shr_m mrs / 2.
Proof.
  destruct mrs as [m r s]. simpl. intros H.
  destruct m as [|p|p]; [reflexivity| |lia].
  destruct p as [p|p|]; simpl.
  - apply Z.div_unique with (r := 1); lia.
  - apply Z.div_unique with (r := 0); lia.
  - reflexivity.
Qed.

Lemma iter_shr_1_m (p : positive) (mrs : shr_record) :
  0 <= shr_m mrs -> shr_m (iter_pos shr_1 p mrs) = shr_m mrs / 2 ^ Zpos p.
Proof.
  revert mrs; induction p as [p IH|p IH|]; intros mrs H; cbn [iter_pos].
  - assert (0 <= shr_m (shr_1 mrs)) as H1
      by (rewrite shr_1_m by assumption; apply Z.div_pos; lia).
    assert (0 <= shr_m (iter_pos shr_1 p (shr_1 mrs))) as H2
      by (rewrite IH by assumption; apply Z.div_pos;
          [assumption | apply Z.pow_pos_nonneg; lia]).
    rewrite IH, IH, shr_1_m by assumption.
    rewrite !Z.div_div by (try apply Z.pow_pos_nonneg; lia).
    f_equal. replace (Zpos p~1) with (1 + Zpos p + Zpos p) by lia.
    rewrite !Z.pow_add_r by lia. lia.
  - assert (0 <= shr_m (iter_pos shr_1 p mrs)) as H2
      by (rewrite IH by assumption; apply Z.div_pos;
          [assumption | apply Z.pow_pos_nonneg; lia]).
    rewrite IH, IH by assumption.
    rewrite !Z.div_div by (try apply Z.pow_pos_nonneg; lia).
    f_equal. replace (Zpos p~0) with (Zpos p + Zpos p) by lia.
    rewrite !Z.pow_add_r by lia. lia.
  - rewrite shr_1_m by assumption. reflexivity.
Qed.

Lemma shr_fexp_pos (m : positive) (e : Z) (l : location) :
  -1074 <= e ->
  0 < shr_m (fst (shr_fexp 53 1024 (Zpos m) e l))
  /\ -1074 <= snd (shr_fexp 53 1024 (Zpos m) e l).
Proof.
  intros He. unfold shr_fexp, shr.
  assert (shr_m (shr_record_of_loc (Zpos m) l) = Zpos m) as Hm
    by (destruct l as [|[]]; reflexivity).
  set (n := fexp 53 1024 (Zdigits2 (Zpos m) + e) - e).
  assert (n <= Zpos (digits2_pos m) - 1) as Hn.
  { unfold n, fexp, emin. simpl Zdigits2. lia. }
  destruct n as [|p|p] eqn:En; simpl fst; simpl snd.
  - rewrite Hm. lia.
  - rewrite iter_shr_1_m by (rewrite Hm; lia). rewrite Hm. split; [|lia].
    apply Z.div_str_pos. split; [apply Z.pow_pos_nonneg; lia|].
    pose proof (digits2_pos_lower m).
    assert (2 ^ Zpos p <= 2 ^ (Zpos (digits2_pos m) - 1)) by (apply Z.pow_le_mono_r; lia).
    lia.
  - rewrite Hm. lia.
Qed.

Lemma binary_round_aux_nonzero (sx : bool) (m : positive) (e : Z) (l : location) :
  -1074 <= e -> nonzero_number (binary_round_aux 53 1024 sx (Zpos m) e l).
Proof.
  intros He. unfold binary_round_aux.
  pose proof (shr_fexp_pos m e l He) as [H1 H2].
  destruct (shr_fexp 53 1024 (Zpos m) e l) as [mrs' e']. simpl in H1, H2.
  assert (0 < round_nearest_even (shr_m mrs') (loc_of_shr_record mrs')) as Hr.
  { unfold round_nearest_even. destruct (loc_of_shr_record mrs') as [|[]]; try lia.
    destruct (Z.even (shr_m mrs')); lia. }
  destruct (round_nearest_even (shr_m mrs') (loc_of_shr_record mrs')) as [|m''|m'']; try lia.
  pose proof (shr_fexp_pos m'' e' loc_Exact H2) as [H3 H4].
  destruct (shr_fexp 53 1024 (Zpos m'') e' loc_Exact) as [mrs'' e'']. simpl in H3, H4.
  destruct (shr_m mrs'') as [|q|q]; try lia.
  destruct (e'' <=? 1024 - 53); exact I.
Qed.

Lemma number_of_Z_nonzero (z : Z) : z <> 0 -> nonzero_number (number_of_Z z).
Proof.
  intros Hz. unfold number_of_Z, binary_normalize.
  assert (forall sx m, nonzero_number (binary_round 53 1024 sx m 0)) as H.
  { intros sx m. unfold binary_round.
    destruct (shl_align m 0 (fexp 53 1024 (Zpos (digits2_pos m) + 0))) as [mz ez] eqn:E.
    apply binary_round_aux_nonzero.
    unfold shl_align in E.
    destruct (fexp 53 1024 (Zpos (digits2_pos m) + 0) - 0) eqn:E2;
      inversion E; subst; try lia.
    unfold fexp, emin in *. lia. }
  destruct z as [|p|p]; [contradiction | apply H | apply H].
Qed.

(** ** Integers as binary64 numbers *)

Lemma digits2_pos_upper (m : positive) : Zpos m < 2 ^ Zpos (digits2_pos m).
Proof.
  induction m as [m IH|m IH|]; cbn [digits2_pos].
  - rewrite Pos2Z.inj_succ, Z.pow_succ_r by lia. lia.
  - rewrite Pos2Z.inj_succ, Z.pow_succ_r by lia. lia.
  - reflexivity.
Qed.

Lemma iter_xO_digits (m n : positive) :
  digits2_pos (Pos.iter xO m n) = (digits2_pos m + n)%positive.
Proof.
  induction n as [|n IH] using Pos.peano_ind.
  - simpl. lia.
  - rewrite Pos.iter_succ. cbn [digits2_pos]. rewrite IH. lia.
Qed.

Lemma iter_xO_value (m n : positive) :
  Zpos (Pos.iter xO m n) = Zpos m * 2 ^ Zpos n.
Proof.
  induction n as [|n IH] using Pos.peano_ind.
  - simpl. lia.
  - rewrite Pos.iter_succ, Pos2Z.inj_xO, IH, Pos2Z.inj_succ, Z.pow_succ_r by lia. lia.
Qed.

(** A mantissa of 53 digits with an exponent in range is kept as it is. *)
Lemma binary_round_aux_canonical (sx : bool) (m : positive) (e : Z) :
  digits2_pos m = 53%positive -> -1074 <= e <= 971 ->
  binary_round_aux 53 1024 sx (Zpos m) e loc_Exact = S754_finite sx m e.
Proof.
  intros Hd He. unfold binary_round_aux, shr_fexp, fexp, emin.
  cbn [Zdigits2 shr_record_of_loc]. rewrite Hd.
  replace (Z.max (53 + e - 53) (3 - 1024 - 53) - e) with 0 by lia.
  cbn [shr shr_m loc_of_shr_record round_nearest_even Zdigits2]. rewrite Hd.
  replace (Z.max (53 + e - 53) (3 - 1024 - 53) - e) with 0 by lia.
  cbn [shr shr_m].
  replace (e <=? 1024 - 53) with true by (symmetry; apply Z.leb_le; lia).
  reflexivity.
Qed.

Lemma binary_round_exact (sx : bool) (p : positive) :
  Zpos p < 2 ^ 53 ->
  binary_round 53 1024 sx p 0 = S754_finite sx (fst (aligned p)) (snd (aligned p))
  /\ Zpos (fst (aligned p)) = Zpos p * 2 ^ (- snd (aligned p))
  /\ snd (aligned p) = Zpos (digits2_pos p) - 53
  /\ -52 <= snd (aligned p) <= 0.
Proof.
  intros Hp.
  assert (Zpos (digits2_pos p) <= 53) as Hd.
  { pose proof (digits2_pos_lower p) as Hl.
    destruct (Z_le_gt_dec (Zpos (digits2_pos p)) 53) as [H|H]; [exact H|].
    assert (2 ^ 53 <= 2 ^ (Zpos (digits2_pos p) - 1)) by (apply Z.pow_le_mono_r; lia).
    lia. }
  unfold binary_round, aligned, fexp, emin.
  replace (Z.max (Zpos (digits2_pos p) + 0 - 53) (3 - 1024 - 53))
    with (Zpos (digits2_pos p) - 53) by lia.
  unfold shl_align.
  destruct (Zpos (digits2_pos p) - 53 - 0) as [|n|n] eqn:En; try lia; cbn [fst snd].
  - split; [apply binary_round_aux_canonical; [|lia]|].
    + apply Pos2Z.inj. lia.
    + repeat split; try lia.
  - split; [apply binary_round_aux_canonical; [|lia]|].
    + rewrite iter_xO_digits. apply Pos2Z.inj. rewrite Pos2Z.inj_add. lia.
    + rewrite iter_xO_value. repeat split; try lia.
      f_equal. f_equal. lia.
Qed.

Lemma binary_round_aux_sign (sx : bool) (m : positive) (e : Z) (l : location) :
  -1074 <= e ->
  match binary_round_aux 53 1024 sx (Zpos m) e l with
  | S754_finite s _ _ | S754_infinity s => s = sx
  | S754_zero _ | S754_nan => False
  end.
Proof.
  intros He. unfold binary_round_aux.
  pose proof (shr_fexp_pos m e l He) as [H1 H2].
  destruct (shr_fexp 53 1024 (Zpos m) e l) as [mrs' e']. simpl in H1, H2.
  assert (0 < round_nearest_even (shr_m mrs') (loc_of_shr_record mrs')) as Hr.
  { unfold round_nearest_even. destruct (loc_of_shr_record mrs') as [|[]]; try lia.
    destruct (Z.even (shr_m mrs')); lia. }
  destruct (round_nearest_even (shr_m mrs') (loc_of_shr_record mrs')) as [|m''|m'']; try lia.
  pose proof (shr_fexp_pos m'' e' loc_Exact H2) as [H3 H4].
  destruct (shr_fexp 53 1024 (Zpos m'') e' loc_Exact) as [mrs'' e'']. simpl in H3, H4.
  destruct (shr_m mrs'') as [|q|q]; try lia.
  destruct (e'' <=? 1024 - 53); reflexivity.
Qed.

Lemma number_of_Z_positive (z : Z) : 0 < z -> positive_number (number_of_Z z).
Proof.
  intros Hz. destruct z as [|p|p]; try lia.
  unfold number_of_Z, binary_normalize, binary_round.
  destruct (shl_align p 0 (fexp 53 1024 (Zpos (digits2_pos p) + 0))) as [mz ez] eqn:E.
  assert (-1074 <= ez) as Hez.
  { unfold shl_align in E.
    destruct (fexp 53 1024 (Zpos (digits2_pos p) + 0) - 0) eqn:E2;
      inversion E; subst; try lia.
    unfold fexp, emin in *. lia. }
  pose proof (binary_round_aux_sign false mz ez loc_Exact Hez) as H.
  unfold positive_number.
  destruct (binary_round_aux 53 1024 false (Zpos mz) ez loc_Exact) as [s|s| |s m e];
    try contradiction; subst s; exact I.
Qed.

Lemma number_of_Z_exact (z : Z) :
  - 2 ^ 53 < z < 2 ^ 53 ->
  Format.integral (number_of_Z z) = Some z /\ Format.isFinite (number_of_Z z) = true.
Proof.
  intros Hz. destruct z as [|p|p].
  - split; reflexivity.
  - destruct (binary_round_exact false p) as (Heq & Hv & _ & He); [lia|].
    unfold number_of_Z, binary_normalize. rewrite Heq. split; [|reflexivity].
    unfold Format.integral. destruct (snd (aligned p)) as [|k|k] eqn:Ek; try lia.
    + rewrite Hv. simpl. f_equal. lia.
    + rewrite Hv. change (- Zneg k) with (Zpos k).
      rewrite Z.mod_mul, Z.div_mul by (apply Z.pow_nonzero; lia). reflexivity.
  - destruct (binary_round_exact true p) as (Heq & Hv & _ & He); [lia|].
    unfold number_of_Z, binary_normalize. rewrite Heq. split; [|reflexivity].
    unfold Format.integral. destruct (snd (aligned p)) as [|k|k] eqn:Ek; try lia.
    + rewrite Hv. simpl. f_equal. lia.
    + rewrite Hv. change (- Zneg k) with (Zpos k).
      rewrite Z.mod_mul, Z.div_mul by (apply Z.pow_nonzero; lia). reflexivity.
Qed.

Lemma five_below (k : Z) :
  - 2 ^ 53 < k < 2 ^ 53 -> SFltb (number_of_Z 5) (number_of_Z k) = (5 <? k).
Proof.
  intros Hk. destruct k as [|p|p].
  - reflexivity.
  - destruct (binary_round_exact false p) as (Heq & Hv & Hs & He); [lia|].
    unfold number_of_Z at 2, binary_normalize. rewrite Heq.
    change (number_of_Z 5) with (S754_finite false 5629499534213120 (-50)).
    unfold SFltb, SFcompare.
    pose proof (digits2_pos_lower p) as Hl. pose proof (digits2_pos_upper p) as Hu.
    destruct (Z.compare_spec (-50) (snd (aligned p))) as [E|E|E].
    + fold (Pos.compare 5629499534213120 (fst (aligned p))).
      rewrite Pos2Z.inj_compare, Hv, <- E.
      change (- -50) with 50. change (2 ^ 50) with 1125899906842624.
      destruct (Z.compare_spec 5629499534213120 (Zpos p * 1125899906842624));
        destruct (Z.ltb_spec 5 (Zpos p)); try reflexivity; lia.
    + symmetry. apply Z.ltb_lt.
      assert (2 ^ 3 <= 2 ^ (Zpos (digits2_pos p) - 1)) by (apply Z.pow_le_mono_r; lia).
      change (2 ^ 3) with 8 in *. lia.
    + symmetry. apply Z.ltb_ge.
      assert (2 ^ Zpos (digits2_pos p) <= 2 ^ 2) by (apply Z.pow_le_mono_r; lia).
      change (2 ^ 2) with 4 in *. lia.
  - destruct (binary_round_exact true p) as (Heq & _); [lia|].
    unfold number_of_Z at 2, binary_normalize. rewrite Heq. reflexivity.
Qed.

Lemma aligned_digits (p : positive) :
  Zpos p < 2 ^ 53 -> digits2_pos (fst (aligned p)) = 53%positive.
Proof.
  intros Hp.
  destruct (binary_round_exact false p Hp) as (_ & Hv & He & Hr).
  pose proof (digits2_pos_lower p) as Hl. pose proof (digits2_pos_upper p) as Hu.
  pose proof (digits2_pos_lower (fst (aligned p))) as Hl'.
  pose proof (digits2_pos_upper (fst (aligned p))) as Hu'.
  set (m := fst (aligned p)) in *. set (e := snd (aligned p)) in *.
  set (d := Zpos (digits2_pos p)) in *. set (d' := digits2_pos m) in *.
  assert (2 ^ 52 <= Zpos m < 2 ^ 53) as Hm.
  { rewrite Hv. replace (- e) with (53 - d) by lia.
    assert (0 < 2 ^ (53 - d)) as Hk by (apply Z.pow_pos_nonneg; lia).
    assert (2 ^ 52 = 2 ^ (d - 1) * 2 ^ (53 - d)) as ->
      by (rewrite <- Z.pow_add_r by lia; f_equal; lia).
    assert (2 ^ 53 = 2 ^ d * 2 ^ (53 - d)) as ->
      by (rewrite <- Z.pow_add_r by lia; f_equal; lia).
    split; [apply Z.mul_le_mono_nonneg_r | apply Z.mul_lt_mono_pos_r]; lia. }
  assert (Zpos d' - 1 < 53) as H1.
  { apply (Z.pow_lt_mono_r_iff 2); lia. }
  assert (52 < Zpos d') as H2.
  { apply (Z.pow_lt_mono_r_iff 2); lia. }
  lia.
Qed.

(** ** Sums of whole sizes are exact *)

Lemma digits2_pos_unique (p : positive) (d : Z) :
  2 ^ (d - 1) <= Zpos p < 2 ^ d -> Zpos (digits2_pos p) = d.
Proof.
  intros [Hl Hu].
  pose proof (digits2_pos_lower p) as Hl'. pose proof (digits2_pos_upper p) as Hu'.
  assert (0 < d) as Hd.
  { destruct (Z_lt_le_dec 0 d) as [H|H]; [assumption|].
    assert (2 ^ d <= 2 ^ 0) by (apply Z.pow_le_mono_r; lia). simpl in *. lia. }
  assert (Zpos (digits2_pos p) - 1 < d) by (apply (Z.pow_lt_mono_r_iff 2); lia).
  assert (d - 1 < Zpos (digits2_pos p)) by (apply (Z.pow_lt_mono_r_iff 2); lia).
  lia.
Qed.

Lemma digits2_pos_scaled (p p' : positive) (k : Z) :
  0 <= k -> Zpos p' = Zpos p * 2 ^ k ->
  Zpos (digits2_pos p') = Zpos (digits2_pos p) + k.
Proof.
  intros Hk Hp'. apply digits2_pos_unique. rewrite Hp'.
  pose proof (digits2_pos_lower p) as Hl. pose proof (digits2_pos_upper p) as Hu.
  assert (0 < 2 ^ k) by (apply Z.pow_pos_nonneg; lia).
  replace (Zpos (digits2_pos p) + k - 1) with (Zpos (digits2_pos p) - 1 + k) by lia.
  rewrite !Z.pow_add_r by lia.
  split; [apply Z.mul_le_mono_nonneg_r | apply Z.mul_lt_mono_pos_r]; lia.
Qed.

Lemma shr_1_exact (q : Z) :
  0 <= q ->
  shr_1 {| shr_m := q * 2; shr_r := false; shr_s := false |}
  = {| shr_m := q; shr_r := false; shr_s := false |}.
Proof.
  intros Hq. destruct q as [|q|q]; [reflexivity| |lia].
  replace (Zpos q * 2) with (Zpos q~0) by lia. reflexivity.
Qed.

Lemma iter_shr_1_exact (d : positive) (q : Z) :
  0 <= q ->
  iter_pos shr_1 d {| shr_m := q * 2 ^ Zpos d; shr_r := false; shr_s := false |}
  = {| shr_m := q; shr_r := false; shr_s := false |}.
Proof.
  revert q; induction d as [d IH|d IH|]; intros q Hq; cbn [iter_pos].
  - replace (q * 2 ^ Zpos d~1) with (q * 2 ^ Zpos d * 2 ^ Zpos d * 2)
      by (replace (Zpos d~1) with (Zpos d + Zpos d + 1) by lia;
          rewrite !Z.pow_add_r by lia; lia).
    assert (0 <= q * 2 ^ Zpos d) by (apply Z.mul_nonneg_nonneg; [|apply Z.pow_nonneg]; lia).
    rewrite shr_1_exact by (apply Z.mul_nonneg_nonneg; [|apply Z.pow_nonneg]; lia).
    rewrite IH by assumption. now rewrite IH.
  - replace (q * 2 ^ Zpos d~0) with (q * 2 ^ Zpos d * 2 ^ Zpos d)
      by (replace (Zpos d~0) with (Zpos d + Zpos d) by lia;
          rewrite !Z.pow_add_r by lia; lia).
    assert (0 <= q * 2 ^ Zpos d) by (apply Z.mul_nonneg_nonneg; [|apply Z.pow_nonneg]; lia).
    rewrite IH by assumption. now rewrite IH.
  - change (2 ^ 1) with 2. now apply shr_1_exact.
Qed.

(** Rounding a mantissa with trailing zeros to 53 digits drops zeros only. *)
Lemma binary_round_aux_trailing (sx : bool) (q p' : positive) (k d : Z) :
  digits2_pos q = 53%positive -> 0 <= d -> Zpos p' = Zpos q * 2 ^ d ->
  -1074 <= k + d <= 971 ->
  binary_round_aux 53 1024 sx (Zpos p') k loc_Exact = S754_finite sx q (k + d).
Proof.
  intros Hq Hd Hp' Hkd.
  rewrite <- (binary_round_aux_canonical sx q (k + d) Hq) by lia.
  assert (Zpos (digits2_pos p') = 53 + d) as Hdig.
  { rewrite (digits2_pos_scaled q p' d Hd Hp'), Hq. reflexivity. }
  unfold binary_round_aux.
  assert (shr_fexp 53 1024 (Zpos p') k loc_Exact
          = shr_fexp 53 1024 (Zpos q) (k + d) loc_Exact) as ->; [|reflexivity].
  unfold shr_fexp, fexp, emin. cbn [Zdigits2 shr_record_of_loc]. rewrite Hdig, Hq.
  replace (Z.max (53 + d + k - 53) (3 - 1024 - 53) - k) with d by lia.
  replace (Z.max (53 + (k + d) - 53) (3 - 1024 - 53) - (k + d)) with 0 by lia.
  unfold shr. destruct d as [|d|d]; [|rewrite Hp', iter_shr_1_exact by lia|lia].
  - rewrite Z.add_0_r. f_equal. f_equal. rewrite Hp'. simpl. lia.
  - reflexivity.
Qed.

Lemma iter_xO_shift (m : positive) (n : positive) :
  Zpos (Pos.iter xO m n) = Zpos m * 2 ^ Zpos n.
Proof. apply iter_xO_value. Qed.

Lemma shl_align_value (m : positive) (e e' : Z) :
  e' <= e ->
  Zpos (fst (shl_align m e e')) = Zpos m * 2 ^ (e - e')
  /\ snd (shl_align m e e') = e'.
Proof.
  intros He. unfold shl_align. destruct (e' - e) as [|d|d] eqn:E; try lia; cbn [fst snd].
  - replace (e - e') with 0 by lia. simpl. lia.
  - rewrite iter_xO_value. replace (e - e') with (Zpos d) by lia. lia.
Qed.

(** An integer below 2^53 times a power of two, with the exponent that
    undoes the power, is the number of the integer. *)
Lemma binary_round_scaled (sx : bool) (p p' : positive) (k : Z) :
  Zpos p < 2 ^ 53 -> 0 <= k -> Zpos p' = Zpos p * 2 ^ k ->
  binary_round 53 1024 sx p' (- k) = binary_round 53 1024 sx p 0.
Proof.
  intros Hp Hk Hp'.
  destruct (binary_round_exact sx p Hp) as (-> & Hv & He & Hr).
  pose proof (aligned_digits p Hp) as Hq.
  set (q := fst (aligned p)) in *. set (e := snd (aligned p)) in *.
  pose proof (digits2_pos_scaled p p' k Hk Hp') as Hdig.
  unfold binary_round, fexp, emin. rewrite Hdig.
  replace (Z.max (Zpos (digits2_pos p) + k + - k - 53) (3 - 1024 - 53)) with e by lia.
  destruct (Z_le_gt_dec e (- k)) as [Hle|Hgt].
  - (* the mantissa is shifted to the left, or kept *)
    pose proof (shl_align_value p' (- k) e Hle) as [Hval Hexp].
    destruct (shl_align p' (- k) e) as [mz ez]. cbn [fst snd] in *. subst ez.
    assert (mz = q) as ->.
    { apply Pos2Z.inj. rewrite Hval, Hp', Hv, <- Z.mul_assoc, <- Z.pow_add_r by lia.
      f_equal. f_equal. lia. }
    apply binary_round_aux_canonical; [assumption | lia].
  - (* the mantissa is longer than 53 digits: rounding drops its zeros *)
    unfold shl_align. destruct (e - - k) as [|d|d] eqn:E; try lia.
    replace e with (- k + Zpos d) by lia.
    apply binary_round_aux_trailing; try assumption; try lia.
    rewrite Hp', Hv. rewrite <- Z.mul_assoc, <- Z.pow_add_r by lia.
    f_equal. f_equal. lia.
Qed.

Lemma binary_normalize_scaled (z k : Z) :
  - 2 ^ 53 < z < 2 ^ 53 -> 0 <= k ->
  binary_normalize 53 1024 (z * 2 ^ k) (- k) false = number_of_Z z.
Proof.
  intros Hz Hk. assert (0 < 2 ^ k) as Hpow by (apply Z.pow_pos_nonneg; lia).
  unfold number_of_Z. destruct z as [|p|p].
  - reflexivity.
  - destruct (Zpos p * 2 ^ k) as [|p'|p'] eqn:E; try lia.
    cbn [binary_normalize]. apply binary_round_scaled; lia.
  - destruct (Zneg p * 2 ^ k) as [|p'|p'] eqn:E; try lia.
    cbn [binary_normalize]. apply binary_round_scaled; lia.
Qed.

Lemma number_of_Z_finite (p : positive) :
  Zpos p < 2 ^ 53 ->
  number_of_Z (Zpos p) = S754_finite false (fst (aligned p)) (snd (aligned p)).
Proof.
  intros Hp. unfold number_of_Z, binary_normalize.
  now destruct (binary_round_exact false p Hp) as (-> & _).
Qed.

(** Adding two non-negative integers whose sum is below 2^53 is exact. *)
Lemma SFadd_exact (a b : Z) :
  0 <= a -> 0 <= b -> a + b < 2 ^ 53 ->
  SFadd 53 1024 (number_of_Z a) (number_of_Z b) = number_of_Z (a + b).
Proof.
  intros Ha Hb Hab.
  destruct a as [|pa|pa]; [|destruct b as [|pb|pb]|]; try lia.
  - simpl Z.add. destruct b as [|pb|pb]; [reflexivity| |lia].
    change (number_of_Z 0) with (S754_zero false).
    rewrite number_of_Z_finite by lia. reflexivity.
  - rewrite Z.add_0_r. change (number_of_Z 0) with (S754_zero false).
    rewrite number_of_Z_finite by lia. reflexivity.
  - destruct (binary_round_exact false pa) as (_ & Hva & Hea & Hra); [lia|].
    destruct (binary_round_exact false pb) as (_ & Hvb & Heb & Hrb); [lia|].
    rewrite (number_of_Z_finite pa), (number_of_Z_finite pb) by lia.
    set (ma := fst (aligned pa)) in *. set (ea := snd (aligned pa)) in *.
    set (mb := fst (aligned pb)) in *. set (eb := snd (aligned pb)) in *.
    unfold SFadd. cbn [cond_Zopp].
    pose proof (shl_align_value ma ea (Z.min ea eb) ltac:(lia)) as [Hsa _].
    pose proof (shl_align_value mb eb (Z.min ea eb) ltac:(lia)) as [Hsb _].
    rewrite Hsa, Hsb, Hva, Hvb.
    rewrite <- !Z.mul_assoc, <- !Z.pow_add_r by lia.
    replace (- ea + (ea - Z.min ea eb)) with (- Z.min ea eb) by lia.
    replace (- eb + (eb - Z.min ea eb)) with (- Z.min ea eb) by lia.
    rewrite <- Z.mul_add_distr_r.
    rewrite <- (Z.opp_involutive (Z.min ea eb)) at 2.
    apply binary_normalize_scaled; lia.
Qed.

Lemma whole_number_of_Z (n : Z) :
  0 <= n < 2 ^ 53 -> whole (number_of_Z n) /\ byte_count (number_of_Z n) = n.
Proof.
  intros Hn. destruct (number_of_Z_exact n) as [Hint _]; [lia|].
  unfold whole, byte_count. rewrite Hint. auto.
Qed.

(** ** Numbers that are not finite *)

Lemma SFadd_finite (x y : spec_float) :
  Format.isFinite (SFadd 53 1024 x y) = true ->
  Format.isFinite x = true /\ Format.isFinite y = true.
Proof.
  destruct x as [sx|sx| |sx mx ex], y as [sy|sy| |sy my ey]; simpl; auto;
    try discriminate; destruct sx, sy; simpl; auto; discriminate.
Qed.

Lemma fold_SFadd_finite (items : list PathBytes) (acc : spec_float) :
  Format.isFinite
    (fold_left (fun acc it => SFadd 53 1024 acc (ToNumber (path_bytes it))) items acc) = true ->
  Format.isFinite acc = true
  /\ Forall (fun it => exists x, path_bytes it = Some x /\ Format.isFinite x = true) items.
Proof.
  revert acc; induction items as [|it items IH]; intros acc H; simpl in *; [auto|].
  apply IH in H as [Hacc Hall]. apply SFadd_finite in Hacc as [Hacc Hit].
  split; [assumption|]. constructor; [|assumption].
  destruct (path_bytes it) as [x|]; [eauto | discriminate].
Qed.

(** A finite total has finite summands only, none of them undefined. *)
Lemma sum_bytes_finite (items : list PathBytes) :
  Format.isFinite (sum_bytes items) = true ->
  Forall (fun it => exists x, path_bytes it = Some x /\ Format.isFinite x = true) items.
Proof. intros H. now apply fold_SFadd_finite in H. Qed.

Lemma SFsub_same (x : spec_float) :
  Format.isFinite x = true -> exists s, SFsub 53 1024 x x = S754_zero s.
Proof.
  destruct x as [s|s| |s m e]; try discriminate; intros _.
  - exists false. destruct s; reflexivity.
  - exists false. unfold SFsub. rewrite Z.min_id. unfold shl_align. rewrite Z.sub_diag.
    reflexivity.
Qed.

(** No change of a finite size other than zero is a change of zero percent. *)
Lemma percentChange_same (m : positive) (e : Z) (s : bool) :
  exists s', percentChange (S754_finite s m e) (S754_finite s m e) = S754_zero s'.
Proof.
  unfold percentChange.
  destruct (SFsub_same (S754_finite s m e) eq_refl) as [s0 ->].
  eexists. reflexivity.
Qed.

Lemma percentChange_from_zero (m : positive) (e : Z) (s : bool) :
  percentChange (S754_zero s) (S754_finite false m e) = S754_infinity s.
Proof. destruct s; reflexivity. Qed.

(** A number divided by its opposite is -1. *)
Lemma SFdiv_opposite_any (m : positive) (e : Z) :
  SFdiv 53 1024 (S754_finite true m e) (S754_finite false m e)
  = S754_finite true 4503599627370496 (-52).
Proof.
  unfold SFdiv, SFdiv_core_binary. cbn [Zdigits2].
  replace (Zpos (digits2_pos m) + e - (Zpos (digits2_pos m) + e)) with 0 by lia.
  replace (e - e) with 0 by lia.
  change (Z.min (fexp 53 1024 0) 0) with (-53). change (0 - -53) with 53.
  cbv zeta. cbv iota.
  rewrite Z.shiftl_mul_pow2 by lia.
  assert (Z.div_eucl (Zpos m * 2 ^ 53) (Zpos m) = (2 ^ 53, 0)) as ->.
  { pose proof (Z.div_eucl_eq (Zpos m * 2 ^ 53) (Zpos m) ltac:(lia)) as Heq.
    pose proof (Z.mod_pos_bound (Zpos m * 2 ^ 53) (Zpos m) ltac:(lia)) as Hb.
    unfold Z.modulo in Hb.
    destruct (Z.div_eucl (Zpos m * 2 ^ 53) (Zpos m)) as [q r].
    assert (q = 2 ^ 53) by nia. subst q. f_equal. lia. }
  unfold new_location.
  destruct (Z.even (Zpos m)); reflexivity.
Qed.

Lemma percentChange_to_zero (m : positive) (e : Z) (s : bool) :
  percentChange (S754_finite false m e) (S754_zero s)
  = S754_finite true 7036874417766400 (-46).
Proof.
  unfold percentChange.
  assert (SFsub 53 1024 (S754_zero s) (S754_finite false m e) = S754_finite true m e) as ->
    by (destruct s; reflexivity).
  rewrite SFdiv_opposite_any. reflexivity.
Qed.

(** ** Sorted sets *)

Lemma str_lt_irrefl (a : string) : ~ str_lt a a.
Proof.
  unfold str_lt, String.ltb.
  assert (String.compare a a = Eq) as ->; [|discriminate].
  induction a as [|c a IH]; simpl; [reflexivity|].
  unfold Ascii.compare. now rewrite N.compare_refl.
Qed.

(** A strictly ascending list is determined by its elements. *)
Lemma sorted_same (l1 l2 : list string) :
  StronglySorted str_lt l1 -> StronglySorted str_lt l2 ->
  (forall x, In x l1 <-> In x l2) -> l1 = l2.
Proof.
  revert l2; induction l1 as [|a l1 IH]; intros [|b l2] H1 H2 H.
  - reflexivity.
  - destruct (proj2 (H b) (or_introl eq_refl)).
  - destruct (proj1 (H a) (or_introl eq_refl)).
  - apply StronglySorted_inv in H1 as [H1 Ha]. apply StronglySorted_inv in H2 as [H2 Hb].
    rewrite Forall_forall in Ha, Hb.
    assert (a = b) as ->.
    { destruct (proj1 (H a) (or_introl eq_refl)) as [E|Ea]; [now symmetry|].
      destruct (proj2 (H b) (or_introl eq_refl)) as [E|Eb]; [assumption|].
      exfalso. apply (str_lt_irrefl a).
      apply (str_lt_trans a b a); [apply Ha | apply Hb]; assumption. }
    f_equal. apply IH; try assumption.
    intros x. split; intros Hx.
    + destruct (proj1 (H x) (or_intror Hx)) as [E|Hx']; [|assumption].
      subst x. exfalso. apply (str_lt_irrefl b). now apply Ha.
    + destruct (proj2 (H x) (or_intror Hx)) as [E|Hx']; [|assumption].
      subst x. exfalso. apply (str_lt_irrefl b). now apply Hb.
Qed.

Lemma sort_Set_of_same (l1 l2 : list string) :
  (forall x, In x l1 <-> In x l2) ->
  StringSort.sort (Set_of l1) = StringSort.sort (Set_of l2).
Proof.
  intros H. apply sorted_same; try apply sort_Set_of_sorted.
  intros x. rewrite !sort_In, !Set_of_In. apply H.
Qed.


Lemma forEach_ext_in {A S} (f g : S -> A -> Try S) (l : list A) (s : S) :
  (forall s x, In x l -> f s x = g s x) -> forEach f l s = forEach g l s.
Proof.
  revert s; induction l as [|x l IH]; intros s H; simpl; [reflexivity|].
  rewrite H by now left. destruct (g s x); simpl; [reflexivity|].
  apply IH. intros s' y Hy. apply H. now right.
Qed.

Lemma mapM_inl {A B} (f : A -> Try B) (l : list A) (err : exn) :
  mapM f l = inl err -> exists x, In x l /\ f x = inl err.
Proof.
  induction l as [|x l IH]; simpl; [discriminate|].
  destruct (f x) as [e|y] eqn:Hx; simpl.
  - intros H. injection H as <-. exists x. auto.
  - destruct (mapM f l) as [e|ys]; simpl; [|discriminate].
    intros H. injection H as <-. destruct (IH eq_refl) as (x' & Hin & Hx').
    exists x'. auto.
Qed.

(** ** The rows of the table *)

Lemma entrypoints_In (baseMetafile prMetafile : Metafile) (e : string) :
  In e (entrypoints baseMetafile prMetafile)
  <-> In e (entry_names baseMetafile) \/ In e (entry_names prMetafile).
Proof. unfold entrypoints. now rewrite sort_In, Set_of_In, in_app_iff. Qed.

Lemma entry_names_plain (metafile : Metafile) (e : string) :
  throws metafile = false -> In e (entry_names metafile) -> mem e Object_prototype = false.
Proof.
  intros Hno Hin. apply entry_names_In in Hin as (entry & Hin & He).
  unfold throws in Hno.
  destruct (mem e Object_prototype) eqn:Hm; [|reflexivity].
  assert (existsb inherited_name (outputs metafile) = true) as Hyes.
  { apply existsb_exists. exists entry. split; [assumption|].
    unfold inherited_name. now rewrite He. }
  congruence.
Qed.

Lemma entrypoints_of_sizes (baseMetafile prMetafile : Metafile) (baseSizes prSizes : Sizes) :
  computeSizeByEntrypoint baseMetafile = inr baseSizes ->
  computeSizeByEntrypoint prMetafile = inr prSizes ->
  entrypoints_of baseSizes prSizes = entrypoints baseMetafile prMetafile.
Proof.
  intros Hb Hp. unfold entrypoints_of, entrypoints. apply sort_Set_of_same.
  intros e. rewrite !in_app_iff, (keys_sizes _ _ e Hb), (keys_sizes _ _ e Hp). reflexivity.
Qed.

Section TableFacts.

Variable Number_toString : spec_float -> string.
Variable log_approx : spec_float -> spec_float.
Variable pow_approx : spec_float -> spec_float -> spec_float.
Variable NumberFormat_format : string -> spec_float -> string.


Lemma push_entrypoint_block (baseSizes prSizes : Sizes) (result : list (list string))
    (e : string) (baseSize prSize : list PathBytes) :
  or_empty (get baseSizes e) = inr baseSize ->
  or_empty (get prSizes e) = inr prSize ->
  push_entrypoint Number_toString log_approx pow_approx NumberFormat_format
    baseSizes prSizes result e
  = (blk <~ (block Number_toString log_approx pow_approx NumberFormat_format) e baseSize prSize ;; inr (result ++ blk)).
Proof.
  intros Hb Hp. unfold push_entrypoint, block. rewrite Hb, Hp. cbn [and_then].
  destruct ((summary_row Number_toString log_approx pow_approx NumberFormat_format) e baseSize prSize) as [err|row]; cbn [and_then]; [reflexivity|].
  rewrite forEach_push.
  destruct (mapM _ (paths_of baseSize prSize)) as [err|rows]; cbn [and_then]; [reflexivity|].
  now rewrite <- app_assoc.
Qed.

Lemma diff_rows_table (baseMetafile prMetafile : Metafile) :
  (diff_rows Number_toString log_approx pow_approx NumberFormat_format) baseMetafile prMetafile
  = if throws baseMetafile then inl TypeError
    else if throws prMetafile then inl TypeError
    else (table_rows Number_toString log_approx pow_approx NumberFormat_format) baseMetafile prMetafile.
Proof.
  unfold diff_rows. destruct (throws baseMetafile) eqn:Tb.
  - rewrite computeSizeByEntrypoint_throws by assumption. reflexivity.
  - destruct (computeSizeByEntrypoint_returns baseMetafile Tb) as (bs & Hb & _).
    rewrite Hb. cbn [and_then]. destruct (throws prMetafile) eqn:Tp.
    + rewrite computeSizeByEntrypoint_throws by assumption. reflexivity.
    + destruct (computeSizeByEntrypoint_returns prMetafile Tp) as (ps & Hp & _).
      rewrite Hp. cbn [and_then].
      rewrite (entrypoints_of_sizes _ _ _ _ Hb Hp).
      rewrite (forEach_ext_in _
                 (fun result e =>
                    blk <~ (block Number_toString log_approx pow_approx NumberFormat_format) e (items_of baseMetafile e) (items_of prMetafile e) ;;
                    inr (result ++ blk))).
      * rewrite forEach_blocks. reflexivity.
      * intros result e He.
        assert (mem e Object_prototype = false) as Hplain.
        { apply entrypoints_In in He as [He|He];
            [apply (entry_names_plain baseMetafile) | apply (entry_names_plain prMetafile)];
            assumption. }
        apply push_entrypoint_block; now apply get_sizes.
Qed.

Lemma bytesToSize_inl (x : spec_float) (err : exn) :
  (bytesToSize log_approx pow_approx NumberFormat_format) x = inl err -> err = TypeError.
Proof. unfold bytesToSize. destruct (Format.bytesToSize _ _ _ x); congruence. Qed.

Lemma change_text_inl (d pct : spec_float) (err : exn) :
  (change_text Number_toString log_approx pow_approx NumberFormat_format) d pct = inl err -> err = TypeError.
Proof.
  unfold change_text. destruct ((bytesToSize log_approx pow_approx NumberFormat_format) d) eqn:E; cbn [and_then]; [|discriminate].
  intros H. injection H as <-. eapply bytesToSize_inl; eassumption.
Qed.

Lemma size_cell_inl (item : option PathBytes) (err : exn) :
  (size_cell log_approx pow_approx NumberFormat_format) item = inl err -> err = TypeError.
Proof.
  destruct item as [[p [x|]]|]; simpl; try discriminate. apply bytesToSize_inl.
Qed.

Lemma block_inl (e : string) (baseSize prSize : list PathBytes) (err : exn) :
  (block Number_toString log_approx pow_approx NumberFormat_format) e baseSize prSize = inl err -> err = TypeError.
Proof.
  unfold block, summary_row. cbv zeta.
  destruct ((bytesToSize log_approx pow_approx NumberFormat_format) (sum_bytes baseSize)) eqn:E1; cbn [and_then];
    [intros H; injection H as <-; eapply bytesToSize_inl; eassumption|].
  destruct ((bytesToSize log_approx pow_approx NumberFormat_format) (sum_bytes prSize)) eqn:E2; cbn [and_then];
    [intros H; injection H as <-; eapply bytesToSize_inl; eassumption|].
  destruct ((change_text Number_toString log_approx pow_approx NumberFormat_format) _ _) eqn:E3; cbn [and_then];
    [intros H; injection H as <-; eapply change_text_inl; eassumption|].
  destruct (mapM _ _) as [err'|rows] eqn:E4; cbn [and_then]; [|discriminate].
  intros H. injection H as <-. apply mapM_inl in E4 as (p & _ & Hp).
  unfold detail_row in Hp. cbv zeta in Hp.
  destruct ((size_cell log_approx pow_approx NumberFormat_format) (find_path baseSize p)) eqn:C1; cbn [and_then] in Hp;
    [injection Hp as <-; eapply size_cell_inl; eassumption|].
  destruct ((size_cell log_approx pow_approx NumberFormat_format) (find_path prSize p)) eqn:C2; cbn [and_then] in Hp;
    [injection Hp as <-; eapply size_cell_inl; eassumption|].
  destruct (find_path baseSize p), (find_path prSize p); cbn [and_then] in Hp;
    try discriminate.
  destruct ((change_text Number_toString log_approx pow_approx NumberFormat_format) (SFsub 53 1024 (ToNumber _) _) _) eqn:C3; cbn [and_then] in Hp;
    [|discriminate].
  injection Hp as <-. eapply change_text_inl; eassumption.
Qed.

(** [diff] throws nothing but a [TypeError]. *)
Lemma diff_inl (baseMetafile prMetafile : Metafile) (err : exn) :
  (diff Number_toString log_approx pow_approx NumberFormat_format) baseMetafile prMetafile = inl err -> err = TypeError.
Proof.
  unfold diff. rewrite diff_rows_table.
  destruct (throws baseMetafile); [cbn; congruence|].
  destruct (throws prMetafile); [cbn; congruence|].
  unfold table_rows. destruct (mapM _ _) as [err'|blocks] eqn:E; cbn [and_then];
    [|discriminate].
  intros H. injection H as <-. apply mapM_inl in E as (e & _ & He).
  eapply block_inl; eassumption.
Qed.

(** What [diff] returns, when it returns. *)
Lemma diff_inr (baseMetafile prMetafile : Metafile) (table : string) :
  (diff Number_toString log_approx pow_approx NumberFormat_format) baseMetafile prMetafile = inr table ->
  throws baseMetafile = false /\ throws prMetafile = false
  /\ exists blocks,
       mapM (fun e => (block Number_toString log_approx pow_approx NumberFormat_format) e (items_of baseMetafile e) (items_of prMetafile e))
         (entrypoints baseMetafile prMetafile) = inr blocks
       /\ table = join LF (map render_row
                             (columnHeadings :: separator_row :: List.concat blocks)).
Proof.
  unfold diff. rewrite diff_rows_table.
  destruct (throws baseMetafile); [discriminate|].
  destruct (throws prMetafile); [discriminate|].
  unfold table_rows. destruct (mapM _ _) as [err'|blocks] eqn:E; cbn [and_then];
    [discriminate|].
  intros H. injection H as <-. repeat split. exists blocks. auto.
Qed.

Lemma diff_returns (baseMetafile prMetafile : Metafile) (blocks : list (list (list string))) :
  throws baseMetafile = false -> throws prMetafile = false ->
  mapM (fun e => (block Number_toString log_approx pow_approx NumberFormat_format) e (items_of baseMetafile e) (items_of prMetafile e))
    (entrypoints baseMetafile prMetafile) = inr blocks ->
  (diff Number_toString log_approx pow_approx NumberFormat_format) baseMetafile prMetafile
  = inr (join LF (map render_row (columnHeadings :: separator_row :: List.concat blocks))).
Proof.
  intros Tb Tp H. unfold diff. rewrite diff_rows_table, Tb, Tp. unfold table_rows.
  rewrite H. reflexivity.
Qed.

(** The rows of an entrypoint of the table stand in it, one after the other. *)
Lemma diff_shows_block (baseMetafile prMetafile : Metafile) (table : string) (e : string) :
  (diff Number_toString log_approx pow_approx NumberFormat_format) baseMetafile prMetafile = inr table ->
  In e (entrypoints baseMetafile prMetafile) ->
  exists blk,
    (block Number_toString log_approx pow_approx NumberFormat_format) e (items_of baseMetafile e) (items_of prMetafile e) = inr blk
    /\ shows table blk.
Proof.
  intros H He. apply diff_inr in H as (_ & _ & blocks & Hblocks & ->).
  destruct (mapM_In _ _ _ e Hblocks He) as (before & blk & after & Hblk & ->).
  exists blk. split; [assumption|].
  exists (columnHeadings :: separator_row :: List.concat before), (List.concat after).
  rewrite concat_app. cbn [List.concat]. rewrite <- !app_comm_cons. reflexivity.
Qed.

(** The rows of an entrypoint: the summary row, then the rows of its paths. *)
Lemma block_inr (e : string) (baseSize prSize : list PathBytes) (blk : list (list string)) :
  (block Number_toString log_approx pow_approx NumberFormat_format) e baseSize prSize = inr blk ->
  exists old new change details,
    (bytesToSize log_approx pow_approx NumberFormat_format) (sum_bytes baseSize) = inr old
    /\ (bytesToSize log_approx pow_approx NumberFormat_format) (sum_bytes prSize) = inr new
    /\ (bytesToSize log_approx pow_approx NumberFormat_format) (SFsub 53 1024 (sum_bytes prSize) (sum_bytes baseSize)) = inr change
    /\ blk = [ e; "*"; old; new;
               change +:+ " (" +:+
               toFixed Number_toString
                 (percentChange (sum_bytes baseSize) (sum_bytes prSize)) 2 +:+ "%)" ]
             :: details
    /\ Forall2 (fun p row =>
                  (detail_row Number_toString log_approx pow_approx NumberFormat_format) baseSize prSize
                    (percentChange (sum_bytes baseSize) (sum_bytes prSize)) p = inr row)
         (paths_of baseSize prSize) details.
Proof.
  unfold block, summary_row, change_text. cbv zeta.
  destruct ((bytesToSize log_approx pow_approx NumberFormat_format) (sum_bytes baseSize)) as [|old]; cbn [and_then]; [discriminate|].
  destruct ((bytesToSize log_approx pow_approx NumberFormat_format) (sum_bytes prSize)) as [|new]; cbn [and_then]; [discriminate|].
  destruct ((bytesToSize log_approx pow_approx NumberFormat_format) (SFsub 53 1024 _ _)) as [|change]; cbn [and_then]; [discriminate|].
  destruct (mapM _ _) as [|details] eqn:E; cbn [and_then]; [discriminate|].
  intros H. injection H as <-. exists old, new, change, details.
  repeat split. now apply mapM_inr.
Qed.

(** The row of a path. *)
Lemma detail_row_inr (baseSize prSize : list PathBytes) (percent : spec_float)
    (p : string) (row : list string) :
  (detail_row Number_toString log_approx pow_approx NumberFormat_format) baseSize prSize percent p = inr row ->
  exists old new change,
    (size_cell log_approx pow_approx NumberFormat_format) (find_path baseSize p) = inr old
    /\ (size_cell log_approx pow_approx NumberFormat_format) (find_path prSize p) = inr new
    /\ match find_path baseSize p, find_path prSize p with
       | None, _ => change = "new"
       | Some _, None => change = "deleted"
       | Some b, Some n =>
           exists text,
             (bytesToSize log_approx pow_approx NumberFormat_format) (SFsub 53 1024 (ToNumber (path_bytes n)) (ToNumber (path_bytes b)))
             = inr text
             /\ change = text +:+ " (" +:+ toFixed Number_toString percent 2 +:+ "%)"
       end
    /\ row = map sub [ ""; p; old; new; change ].
Proof.
  unfold detail_row, change_text. cbv zeta.
  destruct ((size_cell log_approx pow_approx NumberFormat_format) (find_path baseSize p)) as [|old]; cbn [and_then]; [discriminate|].
  destruct ((size_cell log_approx pow_approx NumberFormat_format) (find_path prSize p)) as [|new]; cbn [and_then]; [discriminate|].
  destruct (find_path baseSize p) as [b|], (find_path prSize p) as [n|]; cbn [and_then].
  - destruct ((bytesToSize log_approx pow_approx NumberFormat_format) _) as [|text] eqn:E; cbn [and_then]; [discriminate|].
    intros H. injection H as <-. exists old, new, (text +:+ " (" +:+ toFixed Number_toString percent 2 +:+ "%)").
    repeat split. exists text. auto.
  - intros H. injection H as <-. exists old, new, "deleted". auto.
  - intros H. injection H as <-. exists old, new, "new". auto.
  - intros H. injection H as <-. exists old, new, "new". auto.
Qed.

End TableFacts.

(** ** Entrypoints and paths of the table *)

Lemma find_path_In (items : list PathBytes) (p : string) :
  In p (map path items) -> exists it, find_path items p = Some it /\ path it = p.
Proof.
  unfold find_path. induction items as [|it items IH]; simpl; [tauto|].
  intros [H|H].
  - exists it. rewrite H, String.eqb_refl. auto.
  - destruct (path it =? p)%string eqn:E.
    + exists it. apply String.eqb_eq in E. auto.
    + apply IH, H.
Qed.

Lemma find_path_absent (items : list PathBytes) (p : string) :
  mem p (map path items) = false -> find_path items p = None.
Proof.
  intros H. destruct (find_path items p) as [it|] eqn:E; [|reflexivity].
  apply find_some in E as [Hin Hp]. apply String.eqb_eq in Hp.
  assert (In p (map path items)) as Hin' by (rewrite <- Hp; now apply in_map).
  apply mem_In in Hin'. congruence.
Qed.

Lemma paths_of_In (baseSize prSize : list PathBytes) (p : string) :
  In p (paths_of baseSize prSize) <-> In p (map path baseSize) \/ In p (map path prSize).
Proof. unfold paths_of. rewrite sort_In, Set_of_In, in_app_iff. tauto. Qed.



Lemma find_path_path (items : list PathBytes) (p : string) (it : PathBytes) :
  find_path items p = Some it -> In it items /\ path it = p.
Proof.
  intros H. apply find_some in H as [Hin Hp]. apply String.eqb_eq in Hp. auto.
Qed.

Lemma refers_In (outs l : list (string * Output)) (p : string) :
  refers outs l p = true
  <-> exists entry, In entry l /\ truthy (cssBundle (snd entry)) = Some p
                    /\ get outs p <> Undefined.
Proof.
  unfold refers. rewrite existsb_exists. split.
  - intros (entry & Hin & H). exists entry. split; [assumption|].
    unfold css_ref in H. destruct (truthy (cssBundle (snd entry))) as [css|]; [|discriminate].
    destruct (get outs css) eqn:G; try discriminate; cbn [path] in H;
      apply String.eqb_eq in H; subst css; rewrite G; split; congruence.
  - intros (entry & Hin & Hcss & Hget). exists entry. split; [assumption|].
    unfold css_ref. rewrite Hcss. destruct (get outs p); try congruence;
      cbn [path]; apply String.eqb_refl.
Qed.

(** The paths aggregated for an entrypoint. *)
Lemma items_of_paths (metafile : Metafile) (e p : string) :
  In p (map path (items_of metafile e)) <-> aggregated metafile e p.
Proof.
  unfold items_of. rewrite fold_extend_paths, refers_In. unfold aggregated, own_outputs, keys.
  cbn [map In]. rewrite in_map_iff. split.
  - intros [[]|[(entry & Hfst & Hin)|(entry & Hin & Hcss & Hget)]];
      apply filter_In in Hin as [Hin Hn]; exists entry; (split; [assumption|]);
      unfold names in Hn;
      (destruct (truthy (entryPoint (snd entry))) as [ep|]; [|discriminate]);
      apply String.eqb_eq in Hn; subst ep; auto.
  - intros (entry & Hin & He & H).
    assert (In entry (filter (names e) (outputs metafile))) as Hf.
    { apply filter_In. split; [assumption|]. unfold names. rewrite He.
      apply String.eqb_refl. }
    destruct H as [H|[Hcss Hget]]; right; [left|right]; exists entry; auto.
Qed.

Lemma items_of_nonempty (metafile : Metafile) (e : string) :
  In e (entry_names metafile) -> items_of metafile e <> [].
Proof.
  intros H. apply entry_names_In in H as (entry & Hin & Ht).
  assert (In (fst entry) (map path (items_of metafile e))) as Hp.
  { apply items_of_paths. exists entry. auto. }
  intros Hnil. rewrite Hnil in Hp. destruct Hp.
Qed.

Lemma items_of_unnamed (metafile : Metafile) (e : string) :
  mem e (entry_names metafile) = false -> items_of metafile e = [].
Proof.
  intros H. apply items_of_none.
  destruct (own_outputs metafile e) eqn:E; [reflexivity|].
  assert (In e (entry_names metafile)) as Hin by (apply own_outputs_names; congruence).
  apply mem_In in Hin. congruence.
Qed.

Lemma Forall2_impl_In {A B} (R1 R2 : A -> B -> Prop) (l : list A) (l' : list B) :
  (forall a b, In a l -> R1 a b -> R2 a b) -> Forall2 R1 l l' -> Forall2 R2 l l'.
Proof.
  intros H F. induction F as [|a b l l' Hab _ IH]; constructor.
  - apply H; [now left | assumption].
  - apply IH. intros a' b' Hin. apply H. now right.
Qed.

Lemma shows_In (table : string) (rows : list (list string)) (row : list string) :
  shows table rows -> In row rows -> shows table [row].
Proof.
  intros (before & after & ->) Hin. apply in_split in Hin as (l1 & l2 & ->).
  exists (before ++ l1), (l2 ++ after).
  rewrite <- !app_assoc. reflexivity.
Qed.

(** ** Lines of a text *)

Lemma has_LF_app (a b : string) : has_LF (a +:+ b) = has_LF a || has_LF b.
Proof.
  induction a as [|c a IH]; simpl; [reflexivity|]. rewrite IH. apply orb_assoc.
Qed.

Lemma has_LF_escapePipes (s : string) : has_LF (escapePipes s) = has_LF s.
Proof.
  induction s as [|c s IH]; simpl; [reflexivity|].
  destruct (Ascii.eqb c pipe) eqn:E; simpl; rewrite IH; [|reflexivity].
  apply Ascii.eqb_eq in E. subst c. reflexivity.
Qed.

Lemma has_LF_join (sep : string) (l : list string) :
  has_LF sep = false -> Forall (fun s => has_LF s = false) l -> has_LF (join sep l) = false.
Proof.
  intros Hsep H. induction H as [|x l Hx Hl IH]; [reflexivity|].
  destruct l as [|y l]; [assumption|].
  change (join sep (x :: y :: l)) with (x +:+ sep +:+ join sep (y :: l)).
  now rewrite !has_LF_app, Hx, Hsep, IH.
Qed.

Lemma has_LF_render_row (row : list string) :
  Forall (fun cell => has_LF cell = false) row -> has_LF (render_row row) = false.
Proof.
  intros H. unfold render_row. rewrite !has_LF_app, has_LF_join; [reflexivity..|].
  apply Forall_map. eapply Forall_impl; [|exact H].
  intros cell Hc. now rewrite has_LF_escapePipes.
Qed.

Lemma lines_from_app (a rest current : string) :
  has_LF a = false -> lines_from current (a +:+ rest) = lines_from (current +:+ a) rest.
Proof.
  revert current; induction a as [|c a IH]; intros current H; simpl in *.
  - now rewrite append_nil_r.
  - apply orb_false_iff in H as [Hc Ha]. rewrite Hc, IH by assumption.
    now rewrite append_assoc.
Qed.

Lemma lines_from_line (a current : string) :
  has_LF a = false -> lines_from current a = [current +:+ a].
Proof.
  intros H. rewrite <- (append_nil_r a) at 1. now rewrite lines_from_app.
Qed.

(** The lines of lines joined by line feeds are those lines. *)
Lemma lines_join (l : list string) :
  l <> [] -> Forall (fun s => has_LF s = false) l -> lines (join LF l) = l.
Proof.
  unfold lines. intros Hne H. induction H as [|x l Hx Hl IH]; [contradiction|].
  destruct l as [|y l].
  - cbn [join String.concat]. now rewrite lines_from_line.
  - change (join LF (x :: y :: l)) with (x +:+ LF +:+ join LF (y :: l)).
    rewrite lines_from_app by assumption. cbn [append LF lines_from]. simpl.
    f_equal. apply IH. discriminate.
Qed.

(** ** The table *)

Section TableTheorems.

Variable Number_toString : spec_float -> string.
Variable log_approx : spec_float -> spec_float.
Variable pow_approx : spec_float -> spec_float -> spec_float.
Variable NumberFormat_format : string -> spec_float -> string.

Lemma bytesToSize_zero (s : bool) :
  (bytesToSize log_approx pow_approx NumberFormat_format) (S754_zero s) = inr (NumberFormat_format "byte" (S754_zero false)).
Proof.
  unfold bytesToSize, Format.bytesToSize, Format.unitIdx. cbn [Format.isFinite negb].
  cbn [Format.Math_log].
  assert (forall y, Format.isFinite
                      (Format.Math_floor (SFdiv 53 1024 (S754_infinity true) y)) = false)
    as -> by (intros [s'|s'| |s' m' e']; reflexivity).
  reflexivity.
Qed.

Lemma bytesToSize_negative (m : positive) (e : Z) :
  (bytesToSize log_approx pow_approx NumberFormat_format) (S754_finite true m e) = inr (NumberFormat_format "byte" S754_nan).
Proof.
  unfold bytesToSize, Format.bytesToSize, Format.unitIdx. cbn [Format.isFinite negb].
  cbn [Format.Math_log].
  assert (forall y, Format.isFinite (Format.Math_floor (SFdiv 53 1024 S754_nan y)) = false)
    as -> by (intros [s'|s'| |s' m' e']; reflexivity).
  reflexivity.
Qed.

Lemma bytesToSize_not_finite (x : spec_float) :
  Format.isFinite x = false -> (bytesToSize log_approx pow_approx NumberFormat_format) x = inr "".
Proof. intros H. unfold bytesToSize, Format.bytesToSize. now rewrite H. Qed.

Lemma detail_rows_cells (baseSize prSize : list PathBytes) (percent : spec_float)
    (paths : list string) (details : list (list string)) :
  Forall2 (fun p row => (detail_row Number_toString log_approx pow_approx NumberFormat_format) baseSize prSize percent p = inr row) paths details ->
  map (fun row => (nth 0 row "", nth 1 row "")) details
  = map (fun p => (sub "", sub p)) paths
  /\ Forall (fun row => List.length row = 5%nat) details.
Proof.
  induction 1 as [|p row paths details Hrow _ [IH1 IH2]]; [split; [reflexivity|constructor]|].
  apply detail_row_inr in Hrow as (old & new & change & _ & _ & _ & ->).
  split; [cbn [map nth]; now rewrite IH1 | constructor; [reflexivity | assumption]].
Qed.

Lemma block_lengths (e : string) (baseSize prSize : list PathBytes)
    (blk : list (list string)) :
  (block Number_toString log_approx pow_approx NumberFormat_format) e baseSize prSize = inr blk ->
  Forall (fun row => List.length row = 5%nat) blk.
Proof.
  intros H. apply block_inr in H as (old & new & change & details & _ & _ & _ & -> & Hd).
  constructor; [reflexivity|]. now apply detail_rows_cells in Hd.
Qed.

(** The rows of a table, five cells each. *)
Lemma diff_rows_of (baseMetafile prMetafile : Metafile) (table : string) :
  (diff Number_toString log_approx pow_approx NumberFormat_format) baseMetafile prMetafile = inr table ->
  exists rows,
    (diff_rows Number_toString log_approx pow_approx NumberFormat_format) baseMetafile prMetafile = inr rows
    /\ table = join LF (map render_row rows)
    /\ rows <> []
    /\ Forall (fun row => List.length row = 5%nat) rows.
Proof.
  intros H. apply diff_inr in H as (Tb & Tp & blocks & Hblocks & ->).
  exists (columnHeadings :: separator_row :: List.concat blocks).
  split; [rewrite diff_rows_table, Tb, Tp; unfold table_rows; now rewrite Hblocks|].
  split; [reflexivity|]. split; [discriminate|].
  do 2 (constructor; [reflexivity|]).
  apply Forall_concat. apply mapM_inr in Hblocks.
  induction Hblocks as [|e blk es blocks He _ IH]; constructor; [|assumption].
  eapply block_lengths; eassumption.
Qed.


(** C10, as amended.  The text [diff] returns is its rows, five cells each,
    joined by line feeds; a row is rendered with every pipe of every cell
    escaped, so that an escaped cell holds no unescaped pipe and reads back
    as the cell.  When no cell holds a line feed the lines of the text are
    the rendered rows, and each has exactly six unescaped pipes. *)
Theorem escaped_cells_keep_five_columns (baseMetafile prMetafile : Metafile)
    (table : string) :
  (diff Number_toString log_approx pow_approx NumberFormat_format) baseMetafile prMetafile = inr table ->
  exists rows,
    (diff_rows Number_toString log_approx pow_approx NumberFormat_format) baseMetafile prMetafile = inr rows
    /\ table = join LF (map (fun row => "| " +:+ join " | " (map escapePipes row) +:+ " |") rows)
    /\ Forall (fun row => List.length row = 5%nat) rows
    /\ (forall (cell : string) (escaped : bool),
          unescaped_pipes_after escaped (escapePipes cell) = O
          /\ count_pipes (escapePipes cell) = count_pipes cell
          /\ unescapePipes (escapePipes cell) = cell)
    /\ (Forall (Forall (fun cell => has_LF cell = false)) rows ->
        lines table
        = map (fun row => "| " +:+ join " | " (map escapePipes row) +:+ " |") rows
        /\ Forall (fun line => unescaped_pipes line = 6%nat) (lines table)).
Proof.
  intros H. apply diff_rows_of in H as (rows & Hrows & -> & Hne & Hlen).
  exists rows. split; [assumption|]. split; [reflexivity|]. split; [assumption|]. split.
  { intros cell escaped. split; [apply escapePipes_no_unescaped|].
    split; [apply count_pipes_escapePipes | apply unescape_escapePipes]. }
  intros Hlf.
  assert (lines (join LF (map render_row rows)) = map render_row rows) as Hlines.
  { apply lines_join.
    - destruct rows; [contradiction | discriminate].
    - apply Forall_map. eapply Forall_impl; [|exact Hlf].
      intros row. apply has_LF_render_row. }
  split; [exact Hlines|]. rewrite Hlines. apply Forall_map.
  eapply Forall_impl; [|exact Hlen]. intros row Hrow. cbv beta.
  rewrite render_row_separators; [now rewrite Hrow|].
  intros ->. discriminate.
Qed.


(** C3, as amended.  An entrypoint that one manifest only names has, right
    below the row that names it, one row for each of its paths, at least
    one, and each of these rows carries the mark in its last cell, with
    "n/a" for the size on the side that lacks the path.  The row that names
    the entrypoint is not marked: it shows the two totals, that of the
    lacking side being 0, and the change with its percentage. *)
Theorem one_sided_entrypoint_marked (baseMetafile prMetafile : Metafile)
    (e mark table : string) :
  (diff Number_toString log_approx pow_approx NumberFormat_format) baseMetafile prMetafile = inr table ->
  mark_of baseMetafile prMetafile e = Some mark ->
  exists old new change details,
    shows table
      ([ e; "*"; old; new;
         change +:+ " (" +:+
         toFixed Number_toString
           (percentChange (size_of baseMetafile e) (size_of prMetafile e)) 2 +:+ "%)" ]
       :: details)
    /\ (bytesToSize log_approx pow_approx NumberFormat_format) (size_of baseMetafile e) = inr old
    /\ (bytesToSize log_approx pow_approx NumberFormat_format) (size_of prMetafile e) = inr new
    /\ (bytesToSize log_approx pow_approx NumberFormat_format) (SFsub 53 1024 (size_of prMetafile e) (size_of baseMetafile e))
       = inr change
    /\ details <> []
    /\ Forall2 (fun p row =>
                  exists a b,
                    row = map sub [ ""; p; a; b; mark ]
                    /\ (size_cell log_approx pow_approx NumberFormat_format) (find_path (items_of baseMetafile e) p) = inr a
                    /\ (size_cell log_approx pow_approx NumberFormat_format) (find_path (items_of prMetafile e) p) = inr b
                    /\ (mark = "new" -> a = "n/a")
                    /\ (mark = "deleted" -> b = "n/a"))
         (paths_of (items_of baseMetafile e) (items_of prMetafile e)) details
    /\ (mark = "new" -> size_of baseMetafile e = number_of_Z 0)
    /\ (mark = "deleted" -> size_of prMetafile e = number_of_Z 0).
Proof.
  intros H Hmark. unfold mark_of in Hmark.
  assert (In e (entrypoints baseMetafile prMetafile)
          /\ ((mark = "new" /\ items_of baseMetafile e = []
               /\ In e (entry_names prMetafile))
              \/ (mark = "deleted" /\ items_of prMetafile e = []
                  /\ In e (entry_names baseMetafile)))) as [Hin Hside].
  { rewrite entrypoints_In.
    destruct (mem e (entry_names baseMetafile)) eqn:Hb,
             (mem e (entry_names prMetafile)) eqn:Hp; try discriminate;
      injection Hmark as <-.
    - apply mem_In in Hb. split; [auto|]. right. repeat split; [|assumption].
      now apply items_of_unnamed.
    - apply mem_In in Hp. split; [auto|]. left. repeat split; [|assumption].
      now apply items_of_unnamed. }
  destruct (diff_shows_block _ _ _ _ _ _ _ _ H Hin) as (blk & Hblk & Hshows).
  apply block_inr in Hblk as (old & new & change & details & Ho & Hn & Hc & -> & Hd).
  exists old, new, change, details.
  split; [assumption|]. split; [assumption|]. split; [assumption|].
  split; [assumption|]. split.
  { (* at least one path *)
    intros ->. inversion Hd as [Hpaths|]. symmetry in Hpaths.
    assert (forall p, ~ In p (paths_of (items_of baseMetafile e) (items_of prMetafile e)))
      as Hnone by (intros p; rewrite Hpaths; intros []).
    destruct Hside as [(_ & _ & He)|(_ & _ & He)];
      apply items_of_nonempty in He;
      [destruct (items_of prMetafile e) as [|it l] eqn:E
      |destruct (items_of baseMetafile e) as [|it l] eqn:E]; try congruence;
      apply (Hnone (path it)), paths_of_In; [right|left]; now left. }
  split.
  { eapply Forall2_impl_In; [|exact Hd]. intros p row Hp Hrow. cbv beta in Hrow.
    apply detail_row_inr in Hrow as (a & b & c & Ha & Hb & Hc' & ->).
    destruct Hside as [(-> & Hnil & _)|(-> & Hnil & _)]; rewrite Hnil in *.
    - exists a, b. cbn [find_path find] in *. subst c.
      injection Ha as <-. repeat split; auto. discriminate.
    - exists a, b. cbn [find_path find] in Hb, Hc' |- *.
      injection Hb as <-.
      apply paths_of_In in Hp as [Hp|[]].
      apply find_path_In in Hp as (it & Hfind & _). rewrite Hfind in *.
      subst c. repeat split; auto. discriminate. }
  split; intros ->; destruct Hside as [(Hm & Hnil & _)|(Hm & Hnil & _)];
    try discriminate; unfold size_of; now rewrite Hnil.
Qed.

Lemma toFixed_zero (s : bool) : toFixed Number_toString (S754_zero s) 2 = "0.00".
Proof. reflexivity. Qed.

(** C4, as amended.  In the table of a manifest against itself, an
    entrypoint whose total is a finite number other than zero shows a change
    of 0 bytes and 0.00%, in the row that names it and in the row of each of
    its paths. *)
Theorem identical_manifests_zero_percent (metafile : Metafile) (e table : string)
    (s : bool) (m : positive) (x : Z) :
  (diff Number_toString log_approx pow_approx NumberFormat_format) metafile metafile = inr table ->
  size_of metafile e = S754_finite s m x ->
  exists size details,
    (bytesToSize log_approx pow_approx NumberFormat_format) (size_of metafile e) = inr size
    /\ shows table
         ([ e; "*"; size; size;
            NumberFormat_format "byte" (S754_zero false) +:+ " (0.00%)" ] :: details)
    /\ Forall2 (fun p row =>
                  exists cell,
                    row = map sub [ ""; p; cell; cell;
                                    NumberFormat_format "byte" (S754_zero false)
                                    +:+ " (0.00%)" ])
         (paths_of (items_of metafile e) (items_of metafile e)) details.
Proof.
  intros H Hsize.
  assert (In e (entrypoints metafile metafile)) as Hin.
  { apply entrypoints_In. left. apply mem_In.
    destruct (mem e (entry_names metafile)) eqn:E; [reflexivity|].
    unfold size_of in Hsize. rewrite items_of_unnamed in Hsize by assumption.
    discriminate. }
  assert (Forall (fun it => exists y, path_bytes it = Some y /\ Format.isFinite y = true)
            (items_of metafile e)) as Hfinite.
  { apply sum_bytes_finite. fold (size_of metafile e). now rewrite Hsize. }
  destruct (diff_shows_block _ _ _ _ _ _ _ _ H Hin) as (blk & Hblk & Hshows).
  apply block_inr in Hblk as (old & new & change & details & Ho & Hn & Hc & -> & Hd).
  fold (size_of metafile e) in *. rewrite Ho in Hn. injection Hn as <-.
  rewrite Hsize in Hc, Hshows, Hd.
  destruct (SFsub_same (S754_finite s m x) eq_refl) as [s0 Hsub].
  rewrite Hsub, bytesToSize_zero in Hc. injection Hc as <-.
  destruct (percentChange_same m x s) as [s1 Hpct]. rewrite Hpct in Hshows, Hd.
  rewrite toFixed_zero in Hshows.
  exists old, details. split; [assumption|]. split; [assumption|].
  eapply Forall2_impl_In; [|exact Hd]. intros p row Hp Hrow. cbv beta in Hrow.
  apply detail_row_inr in Hrow as (a & b & c & Ha & Hb & Hc & ->).
  apply paths_of_In in Hp. assert (In p (map path (items_of metafile e))) as Hp' by tauto.
  apply find_path_In in Hp' as (it & Hfind & _). rewrite Hfind in *.
  rewrite Ha in Hb. injection Hb as <-.
  destruct Hc as (text & Htext & ->).
  apply find_path_path in Hfind as [Hit _].
  rewrite Forall_forall in Hfinite. destruct (Hfinite it Hit) as (y & Hy & Hfin).
  rewrite Hy in Htext. cbn [ToNumber] in Htext.
  destruct (SFsub_same y Hfin) as [s2 Hsub']. rewrite Hsub', bytesToSize_zero in Htext.
  injection Htext as <-. rewrite toFixed_zero. exists a. reflexivity.
Qed.

(** X7.  An entrypoint that the base manifest does not name and whose total
    in the new manifest is a finite number above zero has the row of a
    growth from 0 bytes by Infinity%. *)
Theorem new_entrypoint_shows_infinity (baseMetafile prMetafile : Metafile)
    (e table : string) (m : positive) (x : Z) :
  (diff Number_toString log_approx pow_approx NumberFormat_format) baseMetafile prMetafile = inr table ->
  mem e (entry_names baseMetafile) = false ->
  size_of prMetafile e = S754_finite false m x ->
  exists size details,
    (bytesToSize log_approx pow_approx NumberFormat_format) (size_of prMetafile e) = inr size
    /\ shows table
         ([ e; "*"; NumberFormat_format "byte" (S754_zero false); size;
            size +:+ " (Infinity%)" ] :: details).
Proof.
  intros H Hbase Hsize.
  assert (In e (entrypoints baseMetafile prMetafile)) as Hin.
  { apply entrypoints_In. right. apply mem_In.
    destruct (mem e (entry_names prMetafile)) eqn:E; [reflexivity|].
    unfold size_of in Hsize. rewrite items_of_unnamed in Hsize by assumption.
    discriminate. }
  destruct (diff_shows_block _ _ _ _ _ _ _ _ H Hin) as (blk & Hblk & Hshows).
  apply block_inr in Hblk as (old & new & change & details & Ho & Hn & Hc & -> & _).
  rewrite (items_of_unnamed _ _ Hbase) in *. fold (size_of prMetafile e) in *.
  change (sum_bytes []) with (S754_zero false) in *.
  rewrite bytesToSize_zero in Ho. injection Ho as <-.
  rewrite Hsize in Hc, Hshows. cbn [SFsub] in Hc. rewrite <- Hsize in Hc.
  rewrite Hn in Hc. injection Hc as <-.
  rewrite percentChange_from_zero in Hshows.
  exists new, details. split; [assumption|]. exact Hshows.
Qed.

(** X17.  An entrypoint that the new manifest does not name and whose total
    in the base manifest is a finite number above zero has the row of a fall
    to 0 bytes by -100.00%; the difference, a number below zero, is
    formatted as NaN bytes. *)
Theorem deleted_entrypoint_shows_minus_100 (baseMetafile prMetafile : Metafile)
    (e table : string) (m : positive) (x : Z) :
  (diff Number_toString log_approx pow_approx NumberFormat_format) baseMetafile prMetafile = inr table ->
  mem e (entry_names prMetafile) = false ->
  size_of baseMetafile e = S754_finite false m x ->
  exists size details,
    (bytesToSize log_approx pow_approx NumberFormat_format) (size_of baseMetafile e) = inr size
    /\ shows table
         ([ e; "*"; size; NumberFormat_format "byte" (S754_zero false);
            NumberFormat_format "byte" S754_nan +:+ " (-100.00%)" ] :: details).
Proof.
  intros H Hpr Hsize.
  assert (In e (entrypoints baseMetafile prMetafile)) as Hin.
  { apply entrypoints_In. left. apply mem_In.
    destruct (mem e (entry_names baseMetafile)) eqn:E; [reflexivity|].
    unfold size_of in Hsize. rewrite items_of_unnamed in Hsize by assumption.
    discriminate. }
  destruct (diff_shows_block _ _ _ _ _ _ _ _ H Hin) as (blk & Hblk & Hshows).
  apply block_inr in Hblk as (old & new & change & details & Ho & Hn & Hc & -> & _).
  rewrite (items_of_unnamed _ _ Hpr) in *. fold (size_of baseMetafile e) in *.
  change (sum_bytes []) with (S754_zero false) in *.
  rewrite bytesToSize_zero in Hn. injection Hn as <-.
  rewrite Hsize in Hc, Hshows. cbn [SFsub negb] in Hc.
  rewrite bytesToSize_negative in Hc. injection Hc as <-.
  rewrite percentChange_to_zero in Hshows.
  exists old, details. split; [assumption|]. exact Hshows.
Qed.

(** X15.  A path aggregated for an entrypoint in one manifest only has a row
    whose last cell is "new" (not in the base manifest) or "deleted" (not in
    the new one), with "n/a" for the size on the side that lacks it; the
    other size is that of the item found, or "n/a" when the item has no
    bytes. *)
Theorem one_sided_path_marked (baseMetafile prMetafile : Metafile)
    (e p mark table : string) :
  (diff Number_toString log_approx pow_approx NumberFormat_format) baseMetafile prMetafile = inr table ->
  path_mark (items_of baseMetafile e) (items_of prMetafile e) p = Some mark ->
  exists a b,
    shows table [ map sub [ ""; p; a; b; mark ] ]
    /\ (size_cell log_approx pow_approx NumberFormat_format) (find_path (items_of baseMetafile e) p) = inr a
    /\ (size_cell log_approx pow_approx NumberFormat_format) (find_path (items_of prMetafile e) p) = inr b
    /\ (mark = "new" -> a = "n/a" /\ find_path (items_of baseMetafile e) p = None)
    /\ (mark = "deleted" -> b = "n/a" /\ find_path (items_of prMetafile e) p = None).
Proof.
  intros H Hmark. unfold path_mark in Hmark.
  assert (In p (paths_of (items_of baseMetafile e) (items_of prMetafile e))) as Hp.
  { apply paths_of_In.
    destruct (mem p (map path (items_of baseMetafile e))) eqn:Hb,
             (mem p (map path (items_of prMetafile e))) eqn:Hq; try discriminate;
      [left; now apply mem_In | right; now apply mem_In]. }
  assert (In e (entrypoints baseMetafile prMetafile)) as Hin.
  { apply entrypoints_In. apply paths_of_In in Hp as [Hp|Hp]; [left|right]; apply mem_In.
    - destruct (mem e (entry_names baseMetafile)) eqn:E; [reflexivity|].
      rewrite items_of_unnamed in Hp by assumption. destruct Hp.
    - destruct (mem e (entry_names prMetafile)) eqn:E; [reflexivity|].
      rewrite items_of_unnamed in Hp by assumption. destruct Hp. }
  destruct (diff_shows_block _ _ _ _ _ _ _ _ H Hin) as (blk & Hblk & Hshows).
  apply block_inr in Hblk as (old & new & change & details & _ & _ & _ & -> & Hd).
  apply in_split in Hp as (l1 & l2 & Hpaths). rewrite Hpaths in Hd.
  apply Forall2_app_inv_l in Hd as (d1 & d2 & _ & Hd & ->).
  inversion Hd as [|? row ? d3 Hrow _]; subst.
  apply detail_row_inr in Hrow as (a & b & c & Ha & Hb & Hc & ->).
  assert (shows table [map sub [""; p; a; b; c]]) as Hrow.
  { eapply shows_In; [exact Hshows|]. right. apply in_or_app. right. now left. }
  destruct (mem p (map path (items_of baseMetafile e))) eqn:Hmb,
           (mem p (map path (items_of prMetafile e))) eqn:Hmp; try discriminate;
    injection Hmark as <-.
  - (* deleted *)
    apply mem_In, find_path_In in Hmb as (it & Hfind & _).
    pose proof (find_path_absent _ _ Hmp) as Hnone. rewrite Hfind, Hnone in *.
    subst c. cbn [size_cell] in Hb. injection Hb as <-.
    exists a, "n/a". repeat split; auto; discriminate.
  - (* new *)
    pose proof (find_path_absent _ _ Hmb) as Hnone. rewrite Hnone in *.
    subst c. cbn [size_cell] in Ha. injection Ha as <-.
    exists "n/a", b. repeat split; auto; discriminate.
Qed.

Lemma entry_names_unnamed (metafile : Metafile) :
  forallb unnamed (outputs metafile) = true -> entry_names metafile = [].
Proof.
  unfold entry_names. induction (outputs metafile) as [|entry l IH]; [reflexivity|].
  cbn [forallb flat_map]. intros H. apply andb_true_iff in H as [He Hl].
  unfold unnamed in He. destruct (truthy (entryPoint (snd entry))); [discriminate|].
  now apply IH.
Qed.

Lemma throws_unnamed (metafile : Metafile) :
  forallb unnamed (outputs metafile) = true -> throws metafile = false.
Proof.
  unfold throws. induction (outputs metafile) as [|entry l IH]; [reflexivity|].
  cbn [forallb existsb]. intros H. apply andb_true_iff in H as [He Hl].
  unfold unnamed in He. unfold inherited_name at 1.
  destruct (truthy (entryPoint (snd entry))); [discriminate|]. now apply IH.
Qed.

(** X13.  Two manifests none of whose outputs has an [entryPoint] give the
    two fixed lines and no row. *)
Theorem no_entrypoints_only_headings (baseMetafile prMetafile : Metafile) :
  forallb unnamed (outputs baseMetafile) = true ->
  forallb unnamed (outputs prMetafile) = true ->
  (diff Number_toString log_approx pow_approx NumberFormat_format) baseMetafile prMetafile
  = inr ("| Entrypoint | Path | Old size | New size | Diff |" +:+ LF
         +:+ "| --- | --- | --- | --- | --- |").
Proof.
  intros Hbase Hpr.
  rewrite (diff_returns _ _ _ _ baseMetafile prMetafile [])
    by (try (now apply throws_unnamed); unfold entrypoints;
        rewrite !entry_names_unnamed by assumption; reflexivity).
  reflexivity.
Qed.

(** C1.  The rows of the two sample manifests: the script grows from 100 to
    200 bytes and the stylesheet stays at 100 bytes, so the entrypoint grows
    from 200 to 300 bytes, by 50.00%.  The rows of the two paths show the
    entrypoint's 50.00% too, where their own sizes change by 100.00% and by
    0.00%. *)
Theorem path_rows_show_entrypoint_percent :
  (diff_rows Number_toString log_approx pow_approx NumberFormat_format) app_base app_pr
  = (t200 <~ (bytesToSize log_approx pow_approx NumberFormat_format) (number_of_Z 200) ;;
     t300 <~ (bytesToSize log_approx pow_approx NumberFormat_format) (number_of_Z 300) ;;
     t100 <~ (bytesToSize log_approx pow_approx NumberFormat_format) (number_of_Z 100) ;;
     t0 <~ (bytesToSize log_approx pow_approx NumberFormat_format) (number_of_Z 0) ;;
     inr [ columnHeadings;
           separator_row;
           ["src/app.ts"; "*"; t200; t300; t100 +:+ " (50.00%)"];
           map sub [""; "out/app.css"; t100; t100; t0 +:+ " (50.00%)"];
           map sub [""; "out/app.js"; t100; t200; t100 +:+ " (50.00%)"] ])
  /\ toFixed Number_toString (percentChange (number_of_Z 200) (number_of_Z 300)) 2 = "50.00"
  /\ toFixed Number_toString (percentChange (number_of_Z 100) (number_of_Z 200)) 2 = "100.00"
  /\ toFixed Number_toString (percentChange (number_of_Z 100) (number_of_Z 100)) 2 = "0.00".
Proof.
  split; [|repeat split; vm_compute; reflexivity].
  cbv -[bytesToSize].
  repeat match goal with
         | |- context [bytesToSize ?l ?p ?f ?x] =>
             destruct (bytesToSize l p f x); cbv -[bytesToSize]
         end; reflexivity.
Qed.

End TableTheorems.

(** ** The tables of the samples *)

Lemma app_diff :
  diff Number_toString_sample log_sample pow_sample format_sample app_base app_pr
  = inr app_table.
Proof. vm_compute. reflexivity. Qed.

Lemma site_diff :
  diff Number_toString_sample log_sample pow_sample format_sample site_base site_pr
  = inr site_table.
Proof. vm_compute. reflexivity. Qed.

Lemma app_pr_diff :
  diff Number_toString_sample log_sample pow_sample format_sample app_pr app_pr
  = inr app_pr_table.
Proof. vm_compute. reflexivity. Qed.

Lemma app_plain_diff :
  diff Number_toString_sample log_sample pow_sample format_sample app_plain app_pr
  = inr app_plain_table.
Proof. vm_compute. reflexivity. Qed.



Lemma one_sided_entrypoint_marked_witness :
  mark_of site_base site_pr "src/new.ts" = Some "new"
  /\ exists details,
       shows site_table
         (["src/new.ts"; "*"; "0 byte"; "12 byte"; "12 byte (Infinity%)"] :: details)
       /\ details <> []
       /\ Forall2 (fun p row => exists a b, row = map sub [""; p; a; b; "new"])
            ["out/a|b.js"] details.
Proof.
  split; [reflexivity|].
  destruct (one_sided_entrypoint_marked Number_toString_sample log_sample pow_sample
              format_sample site_base site_pr "src/new.ts" "new" site_table
              site_diff eq_refl)
    as (old & new & change & details & Hshows & Hold & Hnew & Hchange & Hne & Hrows & _).
  vm_compute in Hold. injection Hold as <-.
  vm_compute in Hnew. injection Hnew as <-.
  vm_compute in Hchange. injection Hchange as <-.
  exists details. split; [exact Hshows|]. split; [exact Hne|].
  eapply Forall2_impl; [|exact Hrows].
  intros p row (a & b & Hrow & _). exists a, b. exact Hrow.
Defined.

Lemma one_sided_entrypoint_marked_counterexample :
  diff Number_toString_sample log_sample pow_sample format_sample site_base site_pr
  = inr site_table
  /\ mark_of site_base site_pr "src/new.ts" = Some "new"
  /\ mark_of site_base site_pr "src/old.ts" = Some "deleted"
  /\ nth 5 (lines site_table) "" = "| src/new.ts | * | 0 byte | 12 byte | 12 byte (Infinity%) |"
  /\ nth 7 (lines site_table) "" = "| src/old.ts | * | 7 byte | 0 byte | ? byte (-100.00%) |".
Proof. repeat split; vm_compute; reflexivity. Qed.

Lemma identical_manifests_zero_percent_witness :
  size_of app_pr "src/app.ts" = number_of_Z 300
  /\ exists details,
       shows app_pr_table
         (["src/app.ts"; "*"; "300 byte"; "300 byte"; "0 byte (0.00%)"] :: details).
Proof.
  split; [vm_compute; reflexivity|].
  destruct (identical_manifests_zero_percent Number_toString_sample log_sample pow_sample
              format_sample app_pr "src/app.ts" app_pr_table
              false 5277655813324800 (-44) app_pr_diff)
    as (size & details & Hsize & Hshows & _); [vm_compute; reflexivity|].
  vm_compute in Hsize. injection Hsize as <-.
  exists details. exact Hshows.
Defined.

Lemma identical_manifests_zero_percent_counterexample :
  diff Number_toString_sample log_sample pow_sample format_sample empty_entry empty_entry
  = inr empty_table
  /\ size_of empty_entry "src/empty.ts" = number_of_Z 0
  /\ nth 2 (lines empty_table) "" = "| src/empty.ts | * | 0 byte | 0 byte | 0 byte (NaN%) |".
Proof. repeat split; vm_compute; reflexivity. Qed.

Lemma escaped_cells_keep_five_columns_witness :
  nth 6 (lines site_table) ""
  = "| <sub></sub> | <sub>out/a\|b.js</sub> | <sub>n/a</sub> | <sub>12 byte</sub> | <sub>new</sub> |"
  /\ Forall (fun line => unescaped_pipes line = 6%nat) (lines site_table).
Proof.
  split; [vm_compute; reflexivity|].
  destruct (escaped_cells_keep_five_columns Number_toString_sample log_sample pow_sample
              format_sample site_base site_pr site_table site_diff)
    as (rows & Hrows & _ & _ & _ & Hlines).
  vm_compute in Hrows. injection Hrows as <-.
  apply Hlines. repeat constructor.
Defined.

Lemma escaped_cells_keep_five_columns_counterexample :
  diff Number_toString_sample log_sample pow_sample format_sample
    entry_two_lines entry_two_lines
  = inr two_lines_table
  /\ map unescaped_pipes (lines two_lines_table) = [6; 6; 1; 5; 6]%nat.
Proof. repeat split; vm_compute; reflexivity. Qed.


Lemma new_entrypoint_shows_infinity_witness :
  exists details,
    shows site_table
      (["src/new.ts"; "*"; "0 byte"; "12 byte"; "12 byte (Infinity%)"] :: details).
Proof.
  destruct (new_entrypoint_shows_infinity Number_toString_sample log_sample pow_sample
              format_sample site_base site_pr "src/new.ts" site_table
              6755399441055744 (-49) site_diff eq_refl)
    as (size & details & Hsize & Hshows); [vm_compute; reflexivity|].
  vm_compute in Hsize. injection Hsize as <-.
  exists details. exact Hshows.
Defined.

Lemma deleted_entrypoint_shows_minus_100_witness :
  exists details,
    shows site_table
      (["src/old.ts"; "*"; "7 byte"; "0 byte"; "? byte (-100.00%)"] :: details).
Proof.
  destruct (deleted_entrypoint_shows_minus_100 Number_toString_sample log_sample pow_sample
              format_sample site_base site_pr "src/old.ts" site_table
              7881299347898368 (-50) site_diff eq_refl)
    as (size & details & Hsize & Hshows); [vm_compute; reflexivity|].
  vm_compute in Hsize. injection Hsize as <-.
  exists details. exact Hshows.
Defined.

Lemma one_sided_path_marked_witness :
  shows app_plain_table
    [["<sub></sub>"; "<sub>out/app.css</sub>"; "<sub>n/a</sub>"; "<sub>100 byte</sub>";
      "<sub>new</sub>"]].
Proof.
  destruct (one_sided_path_marked Number_toString_sample log_sample pow_sample
              format_sample app_plain app_pr "src/app.ts" "out/app.css" "new"
              app_plain_table app_plain_diff eq_refl)
    as (a & b & Hshows & Ha & Hb & _).
  vm_compute in Ha. injection Ha as <-.
  vm_compute in Hb. injection Hb as <-.
  exact Hshows.
Defined.

Lemma no_entrypoints_only_headings_witness :
  diff Number_toString_sample log_sample pow_sample format_sample
    {| outputs := [] |} {| outputs := [("out/chunk.js", chunk 5)] |}
  = inr ("| Entrypoint | Path | Old size | New size | Diff |" +:+ LF
         +:+ "| --- | --- | --- | --- | --- |").
Proof.
  exact (no_entrypoints_only_headings Number_toString_sample log_sample pow_sample
           format_sample {| outputs := [] |} {| outputs := [("out/chunk.js", chunk 5)] |}
           eq_refl eq_refl).
Defined.

(** ** The items of an entrypoint *)

Lemma sizes_items (metafile : Metafile) (sizes : Sizes) (e : string) :
  computeSizeByEntrypoint metafile = inr sizes ->
  or_nil (obj_get sizes e) = items_of metafile e.
Proof.
  intros H. apply computeSizeByEntrypoint_inr in H as (_ & _ & Hget). rewrite Hget.
  destruct (own_outputs metafile e) eqn:E; [|reflexivity].
  now rewrite items_of_none.
Qed.

Lemma obj_get_Some_In {A} (o : list (string * A)) (k : string) (v : A) :
  obj_get o k = Some v -> In (k, v) o.
Proof.
  induction o as [|[k0 v0] o IH]; simpl; [discriminate|].
  destruct (String.eqb_spec k0 k) as [->|_].
  - intros H. injection H as ->. now left.
  - intros H. right. now apply IH.
Qed.

(** ** More about the aggregation *)

Lemma obj_get_In {A} (o : list (string * A)) (k : string) (v : A) :
  NoDup (keys o) -> In (k, v) o -> obj_get o k = Some v.
Proof.
  induction o as [|[k0 v0] o IH]; intros Hnd Hin; [destruct Hin|].
  simpl in Hnd. inversion Hnd as [|? ? Hnotin Hnd']; subst. simpl.
  destruct Hin as [Heq|Hin].
  - injection Heq as -> ->. now rewrite String.eqb_refl.
  - destruct (k0 =? k)%string eqn:E; [|now apply IH].
    apply String.eqb_eq in E. subst k0. exfalso. apply Hnotin.
    unfold keys. change k with (fst (k, v)). now apply in_map.
Qed.


(** Where the items of a list come from. *)
Lemma fold_extend_In (outs l : list (string * Output)) (items : list PathBytes)
    (it : PathBytes) :
  In it (fold_left (extend outs) l items) ->
  In it items
  \/ (exists entry, In entry l
                    /\ it = {| path := fst entry; path_bytes := Some (bytes (snd entry)) |})
  \/ (exists entry, In entry l /\ css_ref outs (snd entry) = Some it).
Proof.
  revert items; induction l as [|entry l IH]; intros items H; [now left|].
  cbn [fold_left] in H. apply IH in H as [H|[(x & Hx & H)|(x & Hx & H)]].
  - unfold extend in H. destruct (css_ref outs (snd entry)) as [c|] eqn:Ec.
    + destruct (has_path _ (path c)).
      * apply in_app_iff in H as [H|[H|[]]]; [now left|].
        right. left. exists entry. split; [now left | now symmetry].
      * apply in_app_iff in H as [H|[H|[]]].
        -- apply in_app_iff in H as [H|[H|[]]]; [now left|].
           right. left. exists entry. split; [now left | now symmetry].
        -- right. right. exists entry. split; [now left|]. now subst.
    + apply in_app_iff in H as [H|[H|[]]]; [now left|].
      right. left. exists entry. split; [now left | now symmetry].
  - right. left. exists x. split; [now right | assumption].
  - right. right. exists x. split; [now right | assumption].
Qed.

Lemma css_ref_listed (outs : list (string * Output)) (output : Output) (c : PathBytes) :
  css_ref outs output = Some c ->
  truthy (cssBundle output) = Some (path c) /\ listed outs c.
Proof.
  unfold css_ref, listed. destruct (truthy (cssBundle output)) as [css|]; [|discriminate].
  destruct (get outs css) eqn:G; intros H; try discriminate; injection H as <-;
    cbn [path path_bytes]; rewrite G; auto.
Qed.

Lemma items_of_In (metafile : Metafile) (e : string) (it : PathBytes) :
  In it (items_of metafile e) ->
  (exists entry, In entry (own_outputs metafile e)
                 /\ it = {| path := fst entry; path_bytes := Some (bytes (snd entry)) |})
  \/ (exists entry, In entry (own_outputs metafile e)
                    /\ css_ref (outputs metafile) (snd entry) = Some it).
Proof.
  intros H. apply fold_extend_In in H as [[]|H]. exact H.
Qed.

Lemma own_outputs_In (metafile : Metafile) (e : string) (entry : string * Output) :
  In entry (own_outputs metafile e)
  <-> In entry (outputs metafile) /\ truthy (entryPoint (snd entry)) = Some e.
Proof.
  unfold own_outputs. rewrite filter_In. unfold names. split; intros [Hin H]; split; auto.
  - destruct (truthy (entryPoint (snd entry))) as [ep|]; [|discriminate].
    apply String.eqb_eq in H. now subst.
  - rewrite H. apply String.eqb_refl.
Qed.

Lemma items_of_listed (metafile : Metafile) (e : string) :
  wf_metafile metafile -> Forall (listed (outputs metafile)) (items_of metafile e).
Proof.
  intros Hwf. apply Forall_forall. intros it Hit.
  apply items_of_In in Hit as [(entry & Hin & ->)|(entry & Hin & Hc)].
  - apply own_outputs_In in Hin as [Hin _]. destruct entry as [p o].
    unfold listed, get. cbn [path path_bytes fst snd].
    now rewrite (obj_get_In _ p o Hwf Hin).
  - now apply css_ref_listed in Hc.
Qed.

(** X11.  Every item aggregated for an entrypoint is what the lookup of its
    path among the outputs of the manifest finds: an output, with the bytes
    of that output, or a property of [Object.prototype], without bytes. *)
Theorem items_are_outputs (metafile : Metafile) (sizes : Sizes) (e : string) :
  wf_metafile metafile ->
  computeSizeByEntrypoint metafile = inr sizes ->
  Forall (listed (outputs metafile)) (or_nil (obj_get sizes e)).
Proof.
  intros Hwf H. rewrite (sizes_items _ _ e H). now apply items_of_listed.
Qed.


(** ** Whole sizes *)

Lemma total_app (a b : list Z) : total (a ++ b) = total a + total b.
Proof. unfold total. induction a as [|x a IH]; simpl; lia. Qed.

Lemma count_of_whole (it : PathBytes) (x : spec_float) :
  path_bytes it = Some x -> whole x -> x = number_of_Z (count_of it) /\ 0 <= count_of it.
Proof. intros Hx [Heq Hb]. unfold count_of. rewrite Hx. cbn [ToNumber]. split; [exact Heq | lia]. Qed.

Lemma total_whole (items : list PathBytes) :
  Forall (fun it => exists x, path_bytes it = Some x /\ whole x) items ->
  0 <= total (map count_of items).
Proof.
  induction 1 as [|it items (x & Hx & Hw) _ IH]; simpl; [lia|].
  destruct (count_of_whole it x Hx Hw). lia.
Qed.

Lemma fold_SFadd_whole (items : list PathBytes) (a : Z) :
  0 <= a ->
  Forall (fun it => exists x, path_bytes it = Some x /\ whole x) items ->
  a + total (map count_of items) < 2 ^ 53 ->
  fold_left (fun acc it => SFadd 53 1024 acc (ToNumber (path_bytes it))) items (number_of_Z a)
  = number_of_Z (a + total (map count_of items)).
Proof.
  intros Ha H. revert a Ha; induction H as [|it items (x & Hx & Hw) Hall IH]; intros a Ha Hlt.
  - simpl. now rewrite Z.add_0_r.
  - cbn [fold_left map total fold_right] in *. fold (total (map count_of items)) in *.
    destruct (count_of_whole it x Hx Hw) as [Heq Hc].
    pose proof (total_whole items Hall) as Ht.
    rewrite Hx. cbn [ToNumber]. rewrite Heq at 1. rewrite SFadd_exact by lia.
    rewrite IH by lia. f_equal. lia.
Qed.

(** The binary64 total of whole sizes is their integer total, below 2^53. *)
Lemma sum_bytes_whole (items : list PathBytes) :
  Forall (fun it => exists x, path_bytes it = Some x /\ whole x) items ->
  total (map count_of items) < 2 ^ 53 ->
  sum_bytes items = number_of_Z (total (map count_of items)).
Proof. intros H Hlt. unfold sum_bytes. now rewrite fold_SFadd_whole by (try lia; assumption). Qed.

Lemma items_of_whole (metafile : Metafile) (e : string) :
  whole_sizes metafile -> plain_refs metafile = true ->
  Forall (fun it => exists x, path_bytes it = Some x /\ whole x) (items_of metafile e).
Proof.
  intros Hw Hplain. unfold whole_sizes in Hw. rewrite Forall_forall in Hw.
  unfold plain_refs in Hplain. rewrite forallb_forall in Hplain.
  apply Forall_forall. intros it Hit.
  apply items_of_In in Hit as [(entry & Hin & ->)|(entry & Hin & Hc)];
    apply own_outputs_In in Hin as [Hin _].
  - exists (bytes (snd entry)). split; [reflexivity | now apply Hw].
  - specialize (Hplain entry Hin). rewrite Hc in Hplain.
    pose proof Hc as Hc'. apply css_ref_listed in Hc' as [_ Hl]. unfold listed, get in Hl.
    destruct it as [p [x|]]; [|discriminate]. cbn [path path_bytes] in *.
    exists x. split; [reflexivity|].
    destruct (obj_get (outputs metafile) p) as [o|] eqn:G.
    + injection Hl as ->. apply (Hw (p, o)). now apply obj_get_Some_In.
    + destruct (mem p Object_prototype); [discriminate | destruct Hl].
Qed.

Lemma distinct_from_ext (refs : list PathBytes) (seen seen' : list string) :
  (forall c, In c refs -> (In (path c) seen <-> In (path c) seen')) ->
  distinct_from seen refs = distinct_from seen' refs.
Proof.
  revert seen seen'; induction refs as [|c refs IH]; intros seen seen' H; simpl;
    [reflexivity|].
  rewrite (mem_ext (path c) seen seen') by (apply H; now left).
  destruct (mem (path c) seen').
  - apply IH. intros c' Hc'. apply H. now right.
  - f_equal. apply IH. intros c' Hc'. simpl.
    specialize (H c' (or_intror Hc')). tauto.
Qed.


Lemma count_total_app (a b : list PathBytes) :
  total (map count_of (a ++ b)) = total (map count_of a) + total (map count_of b).
Proof. now rewrite map_app, total_app. Qed.

(** The integer total of what the visits of one entrypoint add up to. *)
Lemma fold_extend_total (outs l : list (string * Output)) (items : list PathBytes) :
  (forall c, In c (css_refs outs l) -> ~ In (path c) (keys l)) ->
  total (map count_of (fold_left (extend outs) l items))
  = total (map count_of items)
    + total (map (fun entry => byte_count (bytes (snd entry))) l)
    + total (map count_of (distinct_from (map path items) (css_refs outs l))).
Proof.
  revert items; induction l as [|entry l IH]; intros items H.
  - simpl. lia.
  - cbn [fold_left].
    assert (forall c, In c (css_refs outs l) -> ~ In (path c) (keys l)) as Hl.
    { intros c Hc Hin. apply (H c).
      - unfold css_refs in *. simpl. apply in_or_app. now right.
      - simpl. now right. }
    assert (forall c, In c (css_refs outs l) -> path c <> fst entry) as Hfst.
    { intros c Hc Heq. apply (H c).
      - unfold css_refs in *. simpl. apply in_or_app. now right.
      - simpl. now left. }
    rewrite IH by assumption. clear IH.
    unfold extend. unfold css_refs at 2. cbn [flat_map]. fold (css_refs outs l).
    destruct (css_ref outs (snd entry)) as [c0|] eqn:Ec0.
    + assert (path c0 <> fst entry) as Hc0.
      { intros Heq. apply (H c0).
        - unfold css_refs. simpl. rewrite Ec0. now left.
        - simpl. now left. }
      rewrite has_path_app.
      replace (has_path [{| path := fst entry; path_bytes := Some (bytes (snd entry)) |}]
                 (path c0))
        with false
        by (unfold has_path; simpl; symmetry; rewrite orb_false_r;
            apply String.eqb_neq; congruence).
      rewrite orb_false_r, has_path_mem. cbn [app distinct_from].
      destruct (mem (path c0) (map path items)) eqn:Hm.
      * rewrite count_total_app. cbn [map total fold_right count_of path_bytes ToNumber].
        rewrite (distinct_from_ext (css_refs outs l) _ (map path items)); [unfold total, count_of; cbn [fold_right map path_bytes ToNumber app]; lia|].
        intros c Hc. rewrite map_app, in_app_iff. simpl.
        specialize (Hfst c Hc). intuition congruence.
      * rewrite !count_total_app. cbn [map total fold_right].
        rewrite (distinct_from_ext (css_refs outs l) _ (path c0 :: map path items)).
        -- unfold total, count_of. cbn [fold_right map path_bytes ToNumber app]. lia.
        -- intros c Hc. rewrite !map_app, !in_app_iff. simpl.
           specialize (Hfst c Hc). intuition congruence.
    + rewrite count_total_app. cbn [map total fold_right count_of path_bytes ToNumber].
      rewrite (distinct_from_ext (css_refs outs l) _ (map path items)); [unfold total, count_of; cbn [fold_right map path_bytes ToNumber app]; lia|].
      intros c Hc. rewrite map_app, in_app_iff. simpl.
      specialize (Hfst c Hc). intuition congruence.
Qed.

Lemma css_apart_spec (metafile : Metafile) (e : string) :
  css_apart metafile e = true ->
  forall c, In c (css_refs (outputs metafile) (own_outputs metafile e)) ->
            ~ In (path c) (keys (own_outputs metafile e)).
Proof.
  unfold css_apart. rewrite forallb_forall. intros H c Hc Hin.
  specialize (H c Hc). apply negb_true_iff in H. apply mem_In in Hin. congruence.
Qed.

Lemma items_of_total (metafile : Metafile) (e : string) :
  css_apart metafile e = true ->
  total (map count_of (items_of metafile e)) = claimed_size metafile e.
Proof.
  intros H. unfold items_of, claimed_size.
  rewrite fold_extend_total by now apply css_apart_spec. reflexivity.
Qed.

(** C5, as amended.  When no stylesheet bundle referenced by the outputs of an
    entrypoint is itself an output emitted for that entrypoint, no reference
    names a property of [Object.prototype] that the manifest does not list,
    and the sizes are non-negative integers that stay below 2^53, the total
    [diff] computes for the entrypoint is the sum of the bytes of the outputs
    whose [entryPoint] names it plus the bytes of each stylesheet bundle
    those outputs reference and the manifest lists, each bundle once.  In
    every manifest the paths aggregated for an entrypoint are those outputs
    and the bundles for which the lookup finds something, so an output
    without [entryPoint] contributes only as a referenced stylesheet bundle,
    and the entrypoints are the [entryPoint] names of the outputs. *)
Theorem size_of_entrypoint (metafile : Metafile) (sizes : Sizes) (e : string) :
  computeSizeByEntrypoint metafile = inr sizes ->
  css_apart metafile e = true ->
  plain_refs metafile = true ->
  whole_sizes metafile ->
  claimed_size metafile e < 2 ^ 53 ->
  sum_bytes (or_nil (obj_get sizes e)) = number_of_Z (claimed_size metafile e)
  /\ (forall p, In p (map path (or_nil (obj_get sizes e))) <-> aggregated metafile e p)
  /\ (In e (keys sizes)
      <-> exists entry, In entry (outputs metafile)
                        /\ truthy (entryPoint (snd entry)) = Some e).
Proof.
  intros H Hapart Hplain Hwhole Hlt. rewrite (sizes_items _ _ e H).
  split; [|split].
  - rewrite sum_bytes_whole.
    + now rewrite items_of_total.
    + now apply items_of_whole.
    + now rewrite items_of_total.
  - intros p. apply items_of_paths.
  - rewrite (keys_sizes _ _ e H). apply entry_names_In.
Qed.

(** ** Outputs nobody names *)

Lemma forEach_app {A S} (f : S -> A -> Try S) (l1 l2 : list A) (s : S) :
  forEach f (l1 ++ l2) s = (s' <~ forEach f l1 s ;; forEach f l2 s').
Proof.
  revert s; induction l1 as [|x l1 IH]; intros s; simpl; [reflexivity|].
  destruct (f s x); simpl; [reflexivity | apply IH].
Qed.

Lemma obj_get_skip {A} (o1 o2 : list (string * A)) (q k : string) (v : A) :
  k <> q -> obj_get (o1 ++ (q, v) :: o2) k = obj_get (o1 ++ o2) k.
Proof.
  intros Hne. induction o1 as [|[k0 v0] o1 IH]; simpl.
  - apply String.eqb_neq in Hne. rewrite String.eqb_sym in Hne. now rewrite Hne.
  - destruct (k0 =? k)%string; [reflexivity | exact IH].
Qed.


Lemma get_skip {A} (o1 o2 : list (string * A)) (q k : string) (v : A) :
  k <> q -> get (o1 ++ (q, v) :: o2) k = get (o1 ++ o2) k.
Proof. intros Hne. unfold get. now rewrite obj_get_skip. Qed.

Lemma visit_skip (outs1 outs2 : list (string * Output)) (q : string) (o : Output)
    (result : Sizes) (entry : string * Output) :
  references q entry = false ->
  visit (outs1 ++ (q, o) :: outs2) result entry = visit (outs1 ++ outs2) result entry.
Proof.
  intros Href. destruct entry as [p output]. unfold visit. unfold references in Href.
  cbn [snd] in Href.
  destruct (truthy (entryPoint output)) as [ep|]; [|reflexivity].
  destruct (truthy (cssBundle output)) as [css|]; [|reflexivity].
  apply String.eqb_neq in Href. rewrite get_skip by assumption. reflexivity.
Qed.

Section Unnamed.

Variable Number_toString : spec_float -> string.
Variable log_approx : spec_float -> spec_float.
Variable pow_approx : spec_float -> spec_float -> spec_float.
Variable NumberFormat_format : string -> spec_float -> string.

(** X12.  An output with no [entryPoint] that no output names as its
    stylesheet bundle changes nothing: the aggregation and the table, on
    either side of the diff, are those of the manifest without it. *)
Theorem unnamed_output_is_ignored
    (outs1 outs2 : list (string * Output)) (q : string) (o : Output) (other : Metafile) :
  truthy (entryPoint o) = None ->
  forallb (fun entry => negb (references q entry)) (outs1 ++ outs2) = true ->
  computeSizeByEntrypoint {| outputs := outs1 ++ (q, o) :: outs2 |}
  = computeSizeByEntrypoint {| outputs := outs1 ++ outs2 |}
  /\ (diff Number_toString log_approx pow_approx NumberFormat_format) {| outputs := outs1 ++ (q, o) :: outs2 |} other
     = (diff Number_toString log_approx pow_approx NumberFormat_format) {| outputs := outs1 ++ outs2 |} other
  /\ (diff Number_toString log_approx pow_approx NumberFormat_format) other {| outputs := outs1 ++ (q, o) :: outs2 |}
     = (diff Number_toString log_approx pow_approx NumberFormat_format) other {| outputs := outs1 ++ outs2 |}.
Proof.
  intros Hep Href. rewrite forallb_forall in Href.
  assert (computeSizeByEntrypoint {| outputs := outs1 ++ (q, o) :: outs2 |}
          = computeSizeByEntrypoint {| outputs := outs1 ++ outs2 |}) as Heq.
  { unfold computeSizeByEntrypoint. cbn [outputs].
    rewrite !forEach_app. cbn [forEach].
    rewrite (forEach_ext_in (visit (outs1 ++ (q, o) :: outs2)) (visit (outs1 ++ outs2)) outs1).
    - destruct (forEach (visit (outs1 ++ outs2)) outs1 []) as [err|result];
        cbn [and_then]; [reflexivity|].
      assert (visit (outs1 ++ (q, o) :: outs2) result (q, o) = inr result) as ->
        by (unfold visit; now rewrite Hep).
      cbn [and_then]. apply forEach_ext_in. intros s x Hx. apply visit_skip.
      apply negb_true_iff, Href, in_or_app. now right.
    - intros s x Hx. apply visit_skip.
      apply negb_true_iff, Href, in_or_app. now left. }
  split; [exact Heq|].
  unfold diff, diff_rows. rewrite Heq. split; reflexivity.
Qed.

End Unnamed.

Lemma unnamed_output_is_ignored_witness :
  diff Number_toString_sample log_sample pow_sample format_sample
    {| outputs := [("out/app.js", emitted "src/app.ts" 100 (Some "out/app.css"));
                   ("out/chunk.js", chunk 5);
                   ("out/app.css", chunk 100)] |} app_pr
  = diff Number_toString_sample log_sample pow_sample format_sample app_base app_pr.
Proof.
  destruct (unnamed_output_is_ignored Number_toString_sample log_sample pow_sample
              format_sample
              [("out/app.js", emitted "src/app.ts" 100 (Some "out/app.css"))]
              [("out/app.css", chunk 100)] "out/chunk.js" (chunk 5) app_pr
              eq_refl eq_refl) as (_ & H & _).
  exact H.
Defined.

(** ** The samples of the aggregation *)

Lemma items_are_outputs_witness :
  Forall (listed (outputs shared_css))
    [ {| path := "out/a.js"; path_bytes := Some (number_of_Z 100) |};
      {| path := "out/app.css"; path_bytes := Some (number_of_Z 10) |};
      {| path := "out/b.js"; path_bytes := Some (number_of_Z 30) |};
      {| path := "out/c.js"; path_bytes := Some (number_of_Z 1) |} ].
Proof.
  assert (NoDup (keys (outputs shared_css))) as Hwf
    by (repeat constructor; simpl; intuition discriminate).
  exact (items_are_outputs shared_css _ "src/app.ts" Hwf eq_refl).
Defined.



Lemma shared_css_whole : whole_sizes shared_css.
Proof.
  unfold whole_sizes, shared_css. cbn [outputs].
  repeat constructor; cbn [snd emitted chunk bytes]; apply whole_number_of_Z; lia.
Qed.

Lemma size_of_entrypoint_witness :
  css_apart shared_css "src/app.ts" = true
  /\ size_of shared_css "src/app.ts" = number_of_Z (100 + 30 + 1 + 10).
Proof.
  split; [reflexivity|].
  destruct (size_of_entrypoint shared_css _ "src/app.ts" eq_refl eq_refl eq_refl
              shared_css_whole) as (Hsize & _).
  - vm_compute. reflexivity.
  - exact Hsize.
Defined.

Lemma size_of_entrypoint_counterexample :
  wf_metafile css_around
  /\ whole_sizes css_around
  /\ plain_refs css_around = true
  /\ size_of css_around "src/app.ts" = number_of_Z 1121
  /\ claimed_size css_around "src/app.ts" = 1122
  /\ distinct_size css_around "src/app.ts" = 1111
  /\ whole_sizes css_toString
  /\ css_apart css_toString "src/app.ts" = true
  /\ size_of css_toString "src/app.ts" = S754_nan.
Proof.
  split; [repeat constructor; simpl; intuition discriminate|].
  split; [unfold whole_sizes, css_around; cbn [outputs];
          repeat constructor; cbn [snd emitted chunk bytes]; apply whole_number_of_Z; lia|].
  split; [reflexivity|]. split; [vm_compute; reflexivity|].
  split; [vm_compute; reflexivity|]. split; [vm_compute; reflexivity|].
  split; [unfold whole_sizes, css_toString; cbn [outputs];
          repeat constructor; cbn [snd emitted chunk bytes]; apply whole_number_of_Z; lia|].
  split; [reflexivity | vm_compute; reflexivity].
Qed.

(** ** The order of the outputs *)

Lemma obj_get_Permutation {A} (o1 o2 : list (string * A)) (k : string) :
  Permutation o1 o2 -> NoDup (keys o1) -> obj_get o1 k = obj_get o2 k.
Proof.
  induction 1 as [|[k' v] l l' Hp IH|[k1 v1] [k2 v2] l|l l' l'' H1 IH1 H2 IH2]; intros Hn.
  - reflexivity.
  - simpl in *. inversion Hn; subst. rewrite IH by assumption. reflexivity.
  - simpl in *. destruct (k2 =? k)%string eqn:E2, (k1 =? k)%string eqn:E1; try reflexivity.
    apply String.eqb_eq in E1, E2. subst. inversion Hn; simpl in *; tauto.
  - rewrite IH1 by assumption. apply IH2.
    eapply Permutation_NoDup; [|exact Hn]. unfold keys. now apply Permutation_map.
Qed.

Lemma find_path_Permutation (l l' : list PathBytes) (p : string) :
  Permutation l l' -> NoDup (map path l) -> find_path l p = find_path l' p.
Proof.
  unfold find_path.
  induction 1 as [|x l l' Hp IH|x y l|l l' l'' H1 IH1 H2 IH2]; intros Hn.
  - reflexivity.
  - simpl in *. inversion Hn; subst. rewrite IH by assumption. reflexivity.
  - simpl in *. destruct (path y =? p)%string eqn:E2, (path x =? p)%string eqn:E1;
      try reflexivity.
    apply String.eqb_eq in E1, E2. inversion Hn; simpl in *.
    exfalso. intuition congruence.
  - rewrite IH1 by assumption. apply IH2.
    eapply Permutation_NoDup; [|exact Hn]. now apply Permutation_map.
Qed.

Lemma total_Permutation (l l' : list Z) : Permutation l l' -> total l = total l'.
Proof.
  unfold total. induction 1; simpl; lia.
Qed.

Lemma keys_filter_NoDup {A} (f : string * A -> bool) (l : list (string * A)) :
  NoDup (keys l) -> NoDup (keys (filter f l)).
Proof.
  induction l as [|x l IH]; intros Hn; simpl; [constructor|].
  simpl in Hn. inversion Hn as [|? ? Hx Hl]; subst.
  destruct (f x); [|auto]. simpl. constructor; [|auto].
  intros Hin. apply Hx. unfold keys in *. apply in_map_iff in Hin as (y & Hy & Hin).
  apply filter_In in Hin as [Hin _]. rewrite <- Hy. now apply in_map.
Qed.

Lemma snoc_NoDup (l : list string) (x : string) :
  NoDup l -> ~ In x l -> NoDup (l ++ [x]).
Proof.
  intros Hn Hx. apply (Permutation_NoDup (Permutation_cons_append l x)).
  now constructor.
Qed.

(** When no stylesheet bundle referenced by the outputs [l] is one of them,
    their visits push every path once. *)
Lemma fold_extend_NoDup (outs l : list (string * Output)) (items : list PathBytes) :
  NoDup (map path items) -> NoDup (keys l) ->
  (forall p, In p (keys l) -> ~ In p (map path items)) ->
  (forall c, In c (css_refs outs l) -> ~ In (path c) (keys l)) ->
  NoDup (map path (fold_left (extend outs) l items)).
Proof.
  revert items; induction l as [|entry l IH]; intros items Hitems Hl Hnew Hcss;
    [exact Hitems|].
  cbn [fold_left]. simpl in Hl. inversion Hl as [|? ? Hfst Hl']; subst.
  assert (forall c, css_ref outs (snd entry) = Some c -> ~ In (path c) (keys (entry :: l)))
    as Hc.
  { intros c Hc. apply Hcss. unfold css_refs. simpl. rewrite Hc. now left. }
  apply IH.
  - unfold extend.
    assert (NoDup (map path (items ++ [{| path := fst entry;
                                          path_bytes := Some (bytes (snd entry)) |}])))
      as Hown.
    { rewrite map_app. apply snoc_NoDup; [assumption|]. apply Hnew. now left. }
    destruct (css_ref outs (snd entry)) as [c|]; [|exact Hown].
    destruct (has_path _ (path c)) eqn:Hp; [exact Hown|].
    rewrite map_app. apply snoc_NoDup; [exact Hown|].
    rewrite has_path_mem in Hp. intros Hin. apply mem_In in Hin. congruence.
  - assumption.
  - intros p Hp Hin. apply extend_paths in Hin as [Hin|[->|(c & Hc' & <-)]].
    + apply (Hnew p); [now right | assumption].
    + contradiction.
    + apply (Hc c Hc'). now right.
  - intros c Hin. intros Hk. apply (Hcss c).
    + unfold css_refs in *. simpl. apply in_or_app. now right.
    + now right.
Qed.

Lemma items_of_NoDup (metafile : Metafile) (e : string) :
  wf_metafile metafile -> css_apart metafile e = true ->
  NoDup (map path (items_of metafile e)).
Proof.
  intros Hwf Hapart. unfold items_of. apply fold_extend_NoDup.
  - constructor.
  - apply keys_filter_NoDup, Hwf.
  - intros p _ [].
  - now apply css_apart_spec.
Qed.

Lemma items_of_item_of (metafile : Metafile) (e : string) :
  wf_metafile metafile ->
  map (item_of (outputs metafile)) (map path (items_of metafile e)) = items_of metafile e.
Proof.
  intros Hwf. pose proof (items_of_listed metafile e Hwf) as Hall.
  induction Hall as [|it items Hit _ IH]; [reflexivity|].
  simpl. rewrite IH. f_equal. unfold item_of. unfold listed in Hit.
  destruct it as [p b]. cbn [path path_bytes] in *.
  destruct (get (outputs metafile) p); [now subst | now subst | destruct Hit].
Qed.

Lemma entry_names_Permutation (m1 m2 : Metafile) (e : string) :
  Permutation (outputs m1) (outputs m2) ->
  In e (entry_names m1) <-> In e (entry_names m2).
Proof.
  intros H. rewrite !entry_names_In.
  split; intros (entry & Hin & Ht); exists entry; split; try assumption.
  - eapply Permutation_in; eassumption.
  - eapply Permutation_in; [apply Permutation_sym|]; eassumption.
Qed.

Lemma throws_Permutation (m1 m2 : Metafile) :
  Permutation (outputs m1) (outputs m2) -> throws m1 = throws m2.
Proof.
  intros H. unfold throws.
  destruct (existsb inherited_name (outputs m1)) eqn:E1,
           (existsb inherited_name (outputs m2)) eqn:E2; try reflexivity.
  - apply existsb_exists in E1 as (x & Hx & Hi).
    assert (existsb inherited_name (outputs m2) = true) as E
      by (apply existsb_exists; exists x; split;
          [eapply Permutation_in; eassumption | assumption]).
    congruence.
  - apply existsb_exists in E2 as (x & Hx & Hi).
    assert (existsb inherited_name (outputs m1) = true) as E
      by (apply existsb_exists; exists x; split;
          [eapply Permutation_in; [apply Permutation_sym|]; eassumption | assumption]).
    congruence.
Qed.

Section Reordered.

Variables m1 m2 : Metafile.
Hypothesis wf : wf_metafile m1.
Hypothesis reordered : Permutation (outputs m1) (outputs m2).

Lemma reordered_wf : wf_metafile m2.
Proof.
  unfold wf_metafile, keys. eapply Permutation_NoDup; [|exact wf].
  now apply Permutation_map.
Qed.

Lemma reordered_get (p : string) : get (outputs m1) p = get (outputs m2) p.
Proof. unfold get. now rewrite (obj_get_Permutation _ _ p reordered wf). Qed.

Lemma reordered_css_ref (o : Output) : css_ref (outputs m1) o = css_ref (outputs m2) o.
Proof.
  unfold css_ref. destruct (truthy (cssBundle o)); [|reflexivity].
  now rewrite reordered_get.
Qed.

Lemma reordered_own (e : string) (entry : string * Output) :
  In entry (own_outputs m1 e) <-> In entry (own_outputs m2 e).
Proof.
  unfold own_outputs. rewrite !filter_In.
  split; intros [H Hn]; split; try assumption.
  - eapply Permutation_in; eassumption.
  - eapply Permutation_in; [apply Permutation_sym|]; eassumption.
Qed.

Lemma reordered_keys_own (e p : string) :
  In p (keys (own_outputs m1 e)) <-> In p (keys (own_outputs m2 e)).
Proof.
  unfold keys. rewrite !in_map_iff.
  split; intros (entry & Hp & Hin); exists entry; split; try assumption;
    now apply (reordered_own e).
Qed.

Lemma reordered_css_refs (e : string) (c : PathBytes) :
  In c (css_refs (outputs m1) (own_outputs m1 e))
  <-> In c (css_refs (outputs m2) (own_outputs m2 e)).
Proof.
  unfold css_refs. rewrite !in_flat_map.
  split; intros (entry & Hin & Hc); exists entry; split.
  - now apply (reordered_own e).
  - now rewrite <- reordered_css_ref.
  - now apply (reordered_own e).
  - now rewrite reordered_css_ref.
Qed.

Lemma reordered_apart (e : string) : css_apart m1 e = true -> css_apart m2 e = true.
Proof.
  unfold css_apart. rewrite !forallb_forall. intros H c Hc.
  apply reordered_css_refs in Hc. specialize (H c Hc).
  rewrite (mem_ext (path c) _ (keys (own_outputs m1 e))); [exact H|].
  symmetry. apply reordered_keys_own.
Qed.

Lemma reordered_aggregated (e p : string) : aggregated m1 e p <-> aggregated m2 e p.
Proof.
  unfold aggregated.
  split; intros (entry & Hin & He & H); exists entry; (split; [|split; [assumption|]]).
  - eapply Permutation_in; eassumption.
  - now rewrite <- reordered_get.
  - eapply Permutation_in; [apply Permutation_sym|]; eassumption.
  - now rewrite reordered_get.
Qed.

Lemma reordered_items (e : string) :
  css_apart m1 e = true -> Permutation (items_of m1 e) (items_of m2 e).
Proof.
  intros Hapart.
  rewrite <- (items_of_item_of m1 e wf), <- (items_of_item_of m2 e reordered_wf).
  rewrite (map_ext (item_of (outputs m2)) (item_of (outputs m1)))
    by (intros p; unfold item_of; now rewrite reordered_get).
  apply Permutation_map, NoDup_Permutation.
  - now apply items_of_NoDup.
  - apply items_of_NoDup; [exact reordered_wf | now apply reordered_apart].
  - intros p. rewrite !items_of_paths. apply reordered_aggregated.
Qed.

Hypothesis apart : forallb (css_apart m1) (entry_names m1) = true.
Hypothesis plain : plain_refs m1 = true.
Hypothesis sizes : whole_sizes m1.
Hypothesis exact : exact_totals m1 = true.

Lemma apart_everywhere (e : string) : css_apart m1 e = true.
Proof.
  destruct (in_dec string_dec e (entry_names m1)) as [Hin|Hout].
  - rewrite forallb_forall in apart. now apply apart.
  - unfold css_apart.
    assert (own_outputs m1 e = []) as ->; [|reflexivity].
    destruct (own_outputs m1 e) eqn:E; [reflexivity|].
    exfalso. apply Hout, own_outputs_names. congruence.
Qed.

Lemma reordered_sum (e : string) : sum_bytes (items_of m1 e) = sum_bytes (items_of m2 e).
Proof.
  pose proof (reordered_items e (apart_everywhere e)) as Hperm.
  pose proof (items_of_whole m1 e sizes plain) as Hwhole.
  assert (total (map count_of (items_of m1 e)) < 2 ^ 53) as Hlt.
  { destruct (in_dec string_dec e (entry_names m1)) as [Hin|Hout].
    - unfold exact_totals in exact. rewrite forallb_forall in exact.
      now apply Z.ltb_lt, exact.
    - rewrite items_of_unnamed; [simpl; lia|].
      destruct (mem e (entry_names m1)) eqn:E; [|reflexivity].
      apply mem_In in E. contradiction. }
  assert (total (map count_of (items_of m2 e)) = total (map count_of (items_of m1 e))) as Ht
    by (symmetry; now apply total_Permutation, Permutation_map).
  rewrite (sum_bytes_whole (items_of m1 e)) by assumption.
  rewrite (sum_bytes_whole (items_of m2 e)).
  - now rewrite Ht.
  - eapply Permutation_Forall; eassumption.
  - now rewrite Ht.
Qed.

Lemma reordered_paths (e : string) (other : list PathBytes) :
  paths_of (items_of m1 e) other = paths_of (items_of m2 e) other
  /\ paths_of other (items_of m1 e) = paths_of other (items_of m2 e).
Proof.
  assert (forall p, In p (map path (items_of m1 e)) <-> In p (map path (items_of m2 e)))
    as Hp by (intros p; rewrite !items_of_paths; apply reordered_aggregated).
  split; unfold paths_of; apply sort_Set_of_same; intros p; rewrite !in_app_iff, Hp;
    reflexivity.
Qed.

Lemma reordered_find (e p : string) :
  find_path (items_of m1 e) p = find_path (items_of m2 e) p.
Proof.
  apply find_path_Permutation.
  - apply reordered_items, apart_everywhere.
  - apply items_of_NoDup; [exact wf | apply apart_everywhere].
Qed.

Variable Number_toString : spec_float -> string.
Variable log_approx : spec_float -> spec_float.
Variable pow_approx : spec_float -> spec_float -> spec_float.
Variable NumberFormat_format : string -> spec_float -> string.

Lemma reordered_block (other : list PathBytes) (e : string) :
  (block Number_toString log_approx pow_approx NumberFormat_format) e (items_of m1 e) other = (block Number_toString log_approx pow_approx NumberFormat_format) e (items_of m2 e) other
  /\ (block Number_toString log_approx pow_approx NumberFormat_format) e other (items_of m1 e) = (block Number_toString log_approx pow_approx NumberFormat_format) e other (items_of m2 e).
Proof.
  assert ((summary_row Number_toString log_approx pow_approx NumberFormat_format) e (items_of m1 e) other = (summary_row Number_toString log_approx pow_approx NumberFormat_format) e (items_of m2 e) other
          /\ (summary_row Number_toString log_approx pow_approx NumberFormat_format) e other (items_of m1 e) = (summary_row Number_toString log_approx pow_approx NumberFormat_format) e other (items_of m2 e))
    as [Hs1 Hs2] by (unfold summary_row; now rewrite (reordered_sum e)).
  assert (forall percent p,
            (detail_row Number_toString log_approx pow_approx NumberFormat_format) (items_of m1 e) other percent p
            = (detail_row Number_toString log_approx pow_approx NumberFormat_format) (items_of m2 e) other percent p
            /\ (detail_row Number_toString log_approx pow_approx NumberFormat_format) other (items_of m1 e) percent p
               = (detail_row Number_toString log_approx pow_approx NumberFormat_format) other (items_of m2 e) percent p) as Hd
    by (intros percent p; unfold detail_row; now rewrite (reordered_find e p)).
  unfold block.
  rewrite Hs1, Hs2, (reordered_sum e), (proj1 (reordered_paths e other)),
    (proj2 (reordered_paths e other)).
  split.
  - destruct ((summary_row Number_toString log_approx pow_approx NumberFormat_format) e (items_of m2 e) other); cbn [and_then]; [reflexivity|].
    rewrite (mapM_ext_in _ ((detail_row Number_toString log_approx pow_approx NumberFormat_format) (items_of m2 e) other
                              (percentChange (sum_bytes (items_of m2 e)) (sum_bytes other))));
      [reflexivity|].
    intros p _. apply Hd.
  - destruct ((summary_row Number_toString log_approx pow_approx NumberFormat_format) e other (items_of m2 e)); cbn [and_then]; [reflexivity|].
    rewrite (mapM_ext_in _ ((detail_row Number_toString log_approx pow_approx NumberFormat_format) other (items_of m2 e)
                              (percentChange (sum_bytes other) (sum_bytes (items_of m2 e)))));
      [reflexivity|].
    intros p _. apply Hd.
Qed.

Lemma reordered_diff (other : Metafile) :
  (diff Number_toString log_approx pow_approx NumberFormat_format) m1 other = (diff Number_toString log_approx pow_approx NumberFormat_format) m2 other /\ (diff Number_toString log_approx pow_approx NumberFormat_format) other m1 = (diff Number_toString log_approx pow_approx NumberFormat_format) other m2.
Proof.
  unfold diff. rewrite !diff_rows_table, (throws_Permutation m1 m2 reordered).
  assert (entrypoints m1 other = entrypoints m2 other
          /\ entrypoints other m1 = entrypoints other m2) as [He1 He2].
  { unfold entrypoints. split; apply sort_Set_of_same; intros e; rewrite !in_app_iff;
      rewrite (entry_names_Permutation m1 m2 e reordered); reflexivity. }
  unfold table_rows. rewrite He1, He2.
  rewrite (mapM_ext_in _ (fun e => (block Number_toString log_approx pow_approx NumberFormat_format) e (items_of m2 e) (items_of other e))
             (entrypoints m2 other))
    by (intros e _; apply reordered_block).
  rewrite (mapM_ext_in (fun e => (block Number_toString log_approx pow_approx NumberFormat_format) e (items_of other e) (items_of m1 e))
             (fun e => (block Number_toString log_approx pow_approx NumberFormat_format) e (items_of other e) (items_of m2 e))
             (entrypoints other m2))
    by (intros e _; apply reordered_block).
  split; reflexivity.
Qed.

End Reordered.

(** X19.  The table does not depend on the order in which a manifest lists
    its outputs, when the paths of the manifest are distinct, no stylesheet
    bundle of an entrypoint is itself an output of that entrypoint, no
    reference names a property of [Object.prototype] that is no output, and
    the sizes are non-negative integers whose total stays below 2^53 for
    every entrypoint: the manifest may be replaced, on either side of the
    diff, by any rearrangement of its outputs. *)
Theorem table_ignores_output_order
    (Number_toString : spec_float -> string)
    (log_approx : spec_float -> spec_float)
    (pow_approx : spec_float -> spec_float -> spec_float)
    (NumberFormat_format : string -> spec_float -> string)
    (metafile rearranged other : Metafile) :
  wf_metafile metafile ->
  Permutation (outputs metafile) (outputs rearranged) ->
  forallb (css_apart metafile) (entry_names metafile) = true ->
  plain_refs metafile = true ->
  whole_sizes metafile ->
  exact_totals metafile = true ->
  (diff Number_toString log_approx pow_approx NumberFormat_format) metafile other = (diff Number_toString log_approx pow_approx NumberFormat_format) rearranged other
  /\ (diff Number_toString log_approx pow_approx NumberFormat_format) other metafile = (diff Number_toString log_approx pow_approx NumberFormat_format) other rearranged.
Proof.
  intros Hwf Hperm Hapart Hplain Hwhole Hexact.
  exact (reordered_diff metafile rearranged Hwf Hperm Hapart Hplain Hwhole Hexact
           Number_toString log_approx pow_approx NumberFormat_format other).
Qed.

Lemma app_base_whole : whole_sizes app_base.
Proof.
  unfold whole_sizes, app_base. cbn [outputs].
  repeat constructor; cbn [snd emitted chunk bytes]; apply whole_number_of_Z; lia.
Qed.

Lemma table_ignores_output_order_witness :
  diff Number_toString_sample log_sample pow_sample format_sample app_base app_pr
  = diff Number_toString_sample log_sample pow_sample format_sample app_base_reordered app_pr
  /\ diff Number_toString_sample log_sample pow_sample format_sample app_pr app_base
     = diff Number_toString_sample log_sample pow_sample format_sample
         app_pr app_base_reordered.
Proof.
  apply (table_ignores_output_order Number_toString_sample log_sample pow_sample
           format_sample app_base app_base_reordered app_pr).
  - repeat constructor; simpl; intuition discriminate.
  - apply perm_swap.
  - reflexivity.
  - reflexivity.
  - exact app_base_whole.
  - vm_compute. reflexivity.
Defined.

(** ** The action *)

Section ActionFacts.

Variable Number_toString : spec_float -> string.
Variable log_approx : spec_float -> spec_float.
Variable pow_approx : spec_float -> spec_float -> spec_float.
Variable NumberFormat_format : string -> spec_float -> string.
Variable host : Host.

Lemma load_read_manifest (file : string) (w : World) :
  load host file w = (read_manifest host file, logged w [ReadFile file]).
Proof.
  unfold load, read_manifest, bind, call, lift, logged. simpl.
  destruct (readFileSync host file) as [e|text]; [reflexivity|].
  simpl. destruct (JSON_parse host text); reflexivity.
Qed.

Lemma logged_logged (w : World) (a b : list Call) :
  logged (logged w a) b = logged w (a ++ b).
Proof. unfold logged. simpl. now rewrite app_assoc. Qed.

Lemma diffM_outcome (baseMetafile prMetafile : Metafile) (w : World) :
  (diffM Number_toString log_approx pow_approx NumberFormat_format) baseMetafile prMetafile w
  = ((diff Number_toString log_approx pow_approx NumberFormat_format) baseMetafile prMetafile, logged w [Diff]).
Proof.
  unfold diffM, bind, call, lift, logged. cbn [fst snd].
  destruct ((diff Number_toString log_approx pow_approx NumberFormat_format) baseMetafile prMetafile); reflexivity.
Qed.

Lemma getClient_missing (w : World) :
  truthy (githubToken host) = None -> getClient host w = (inl (Error token_not_found), w).
Proof. unfold getClient. intros ->. reflexivity. Qed.

Lemma comment_missing (message : string) (w : World) :
  truthy (githubToken host) = None ->
  comment host message w = (inl (Error token_not_found), w).
Proof. intros H. unfold comment, bind. now rewrite getClient_missing. Qed.

(** The body [run] posts never starts with the identifier. *)
Lemma run_message_unmarked (table : string) :
  startsWith (run_message table) identifier = false.
Proof. reflexivity. Qed.

(** C7. When reading or parsing one of the two manifests fails, the program
    ends with that very failure, in the local mode and in the action mode
    alike: each file was read at most once, the second only if the first
    loaded, and nothing else was called, so no table was computed, printed
    or posted. *)
Theorem manifest_failure_propagates (e : exn) (w : World) :
  first_failure host = Some e ->
  (program Number_toString log_approx pow_approx NumberFormat_format) host w
  = (inl e,
     logged w (match read_manifest host (fst (manifest_paths host)) with
               | inl _ => [ReadFile (fst (manifest_paths host))]
               | inr _ => [ReadFile (fst (manifest_paths host));
                           ReadFile (snd (manifest_paths host))]
               end)).
Proof.
  unfold first_failure, program, manifest_paths.
  assert (forall base pr,
    match read_manifest host base with
    | inl e0 => Some e0
    | inr _ => match read_manifest host pr with inl e0 => Some e0 | inr _ => None end
    end = Some e ->
    forall k : Metafile -> Metafile -> M unit,
    (baseMetafile <- load host base ;; prMetafile <- load host pr ;;
     k baseMetafile prMetafile) w
    = (inl e, logged w (match read_manifest host base with
                        | inl _ => [ReadFile base]
                        | inr _ => [ReadFile base; ReadFile pr]
                        end))) as Hseq.
  { intros base pr Hfail k. unfold bind at 1. rewrite load_read_manifest.
    destruct (read_manifest host base) as [e0|baseMetafile].
    - injection Hfail as ->. reflexivity.
    - unfold bind at 1. rewrite load_read_manifest.
      destruct (read_manifest host pr) as [e0|prMetafile]; [|discriminate].
      injection Hfail as ->. rewrite logged_logged. reflexivity. }
  destruct (argv host) as [|a0 [|a1 [|base [|pr rest]]]]; cbn [fst snd];
    intros Hfail; unfold run, main; apply Hseq; exact Hfail.
Qed.

(** C6, as amended.  With no token in the [github_token] input and none in
    [GITHUB_TOKEN], [getClient] throws the descriptive error and changes
    nothing, and so does [comment], before it lists, updates or creates any
    comment.  In the action mode the error comes after both manifests were
    read and diffed: when they load and [diff] returns, [run] ends with it,
    having read the two files and computed the table and posted nothing;
    when [diff] throws, [run] ends with what [diff] threw. *)
Theorem missing_token_fails (w : World) :
  truthy (githubToken host) = None ->
  getClient host w = (inl (Error token_not_found), w)
  /\ (forall message, comment host message w = (inl (Error token_not_found), w))
  /\ (forall baseMetafile prMetafile,
        let base := path_resolve host (cwd host) (getInput host "base_path") in
        let pr := path_resolve host (cwd host) (getInput host "pr_path") in
        read_manifest host base = inr baseMetafile ->
        read_manifest host pr = inr prMetafile ->
        (run Number_toString log_approx pow_approx NumberFormat_format) host w
        = (match (diff Number_toString log_approx pow_approx NumberFormat_format) baseMetafile prMetafile with
           | inr _ => inl (Error token_not_found)
           | inl thrown => inl thrown
           end,
           logged w [ReadFile base; ReadFile pr; Diff])).
Proof.
  intros Htoken. split; [now apply getClient_missing|].
  split; [intros message; now apply comment_missing|].
  intros baseMetafile prMetafile base pr Hbase Hpr. unfold run. fold base pr.
  unfold bind at 1. rewrite load_read_manifest, Hbase.
  unfold bind at 1. rewrite load_read_manifest, Hpr.
  unfold bind at 1. rewrite diffM_outcome, !logged_logged. cbn [app].
  destruct ((diff Number_toString log_approx pow_approx NumberFormat_format) baseMetafile prMetafile) as [thrown|table]; [reflexivity|].
  now rewrite comment_missing.
Qed.

(** ** Posting the comment *)

Lemma first_marked_app (a b : list IssueComment) :
  first_marked (a ++ b)
  = match first_marked a with Some id => Some id | None => first_marked b end.
Proof.
  induction a as [|c a IH]; simpl; [reflexivity|].
  destruct (body c) as [text|]; [destruct (startsWith text identifier)|];
    try reflexivity; exact IH.
Qed.

Lemma first_marked_firstn (n : nat) (cs : list IssueComment) :
  first_marked cs = None -> first_marked (firstn n cs) = None.
Proof.
  revert n. induction cs as [|c cs IH]; intros [|n]; try reflexivity.
  cbn [firstn first_marked].
  destruct (body c) as [text|]; [destruct (startsWith text identifier)|];
    try discriminate; apply IH.
Qed.

Lemma first_page_all (w : World) :
  (List.length (comments w) <= per_page)%nat -> firstn per_page (comments w) = comments w.
Proof. apply firstn_all2. Qed.

Lemma getClient_present (token : string) (w : World) :
  truthy (githubToken host) = Some token -> getClient host w = (inr token, w).
Proof. unfold getClient. intros ->. reflexivity. Qed.

Lemma findComment_present (token : string) (w : World) :
  truthy (githubToken host) = Some token ->
  findComment host w
  = (inr (first_marked (firstn per_page (comments w))), logged w [ListComments]).
Proof.
  intros H. unfold findComment. unfold bind at 1. rewrite (getClient_present token w H).
  reflexivity.
Qed.

Lemma comment_with_token (token message : string) (w : World) :
  truthy (githubToken host) = Some token ->
  comment host message w
  = match first_marked (firstn per_page (comments w)) with
    | Some id =>
        if id =? 0 then createComment message (logged w [ListComments])
        else updateComment id message (logged w [ListComments])
    | None => createComment message (logged w [ListComments])
    end.
Proof.
  intros Htoken. unfold comment. unfold bind at 1.
  rewrite (getClient_present token w Htoken).
  unfold bind at 1. rewrite (findComment_present token w Htoken).
  destruct (first_marked (firstn per_page (comments w))) as [id|];
    [destruct (id =? 0)|]; reflexivity.
Qed.

Lemma createComment_listed (message : string) (w : World) :
  createComment message (logged w [ListComments])
  = (inr tt,
     {| comments := comments w ++ [{| comment_id := fresh_id (comments w);
                                      body := Some message |}];
        stdout := stdout w;
        calls := calls w ++ [ListComments; CreateComment] |}).
Proof.
  unfold createComment, bind, call, logged. cbn [fst snd comments stdout calls].
  rewrite <- app_assoc. reflexivity.
Qed.

Lemma updateComment_listed (id : Z) (message : string) (w : World) :
  updateComment id message (logged w [ListComments])
  = (inr tt,
     {| comments := map (set_body id message) (comments w);
        stdout := stdout w;
        calls := calls w ++ [ListComments; UpdateComment id] |}).
Proof.
  unfold updateComment, bind, call, logged. cbn [fst snd comments stdout calls].
  rewrite <- app_assoc. reflexivity.
Qed.

(** C2 on the code.  The body [run] posts does not start with the identifier,
    so [findComment] never finds a comment the action posted: on an issue
    with no marked comment on the page [findComment] reads, every run
    creates one more comment; that page still has no marked comment
    afterwards, and neither has the issue when it had none before. *)
Theorem every_run_creates_a_comment (token table : string) (w : World) :
  truthy (githubToken host) = Some token ->
  first_marked (firstn per_page (comments w)) = None ->
  let posted := {| comment_id := fresh_id (comments w);
                   body := Some (run_message table) |} in
  comment host (run_message table) w
  = (inr tt,
     {| comments := comments w ++ [posted];
        stdout := stdout w;
        calls := calls w ++ [ListComments; CreateComment] |})
  /\ first_marked (firstn per_page (comments w ++ [posted])) = None
  /\ (first_marked (comments w) = None -> first_marked (comments w ++ [posted]) = None).
Proof.
  intros Htoken Hnone posted. split; [|split].
  - rewrite (comment_with_token token _ w Htoken), Hnone. apply createComment_listed.
  - rewrite firstn_app, first_marked_app, Hnone. now apply first_marked_firstn.
  - intros Hall. rewrite first_marked_app, Hall. reflexivity.
Qed.

Lemma comment_when_marked (token message : string) (id : Z) (w : World) :
  truthy (githubToken host) = Some token ->
  first_marked (firstn per_page (comments w)) = Some id ->
  id <> 0 ->
  comment host message w
  = (inr tt,
     {| comments := map (set_body id message) (comments w);
        stdout := stdout w;
        calls := calls w ++ [ListComments; UpdateComment id] |}).
Proof.
  intros Htoken Hid Hnz.
  rewrite (comment_with_token token _ w Htoken), Hid.
  apply Z.eqb_neq in Hnz. rewrite Hnz. apply updateComment_listed.
Qed.

(** X2. When a comment whose body starts with the identifier is on the page
    [findComment] reads, the first 30 comments of the issue, [comment]
    updates the first such comment and creates none: the issue has as many
    comments as before, and those with another id are as they were. *)
Theorem marked_comment_is_updated (token message : string) (id : Z) (w : World) :
  truthy (githubToken host) = Some token ->
  first_marked (firstn per_page (comments w)) = Some id ->
  id <> 0 ->
  comment host message w
  = (inr tt,
     {| comments := map (set_body id message) (comments w);
        stdout := stdout w;
        calls := calls w ++ [ListComments; UpdateComment id] |})
  /\ List.length (map (set_body id message) (comments w)) = List.length (comments w)
  /\ (forall c, In c (comments w) -> comment_id c <> id ->
                In c (map (set_body id message) (comments w))).
Proof.
  intros Htoken Hid Hnz.
  split; [now apply (comment_when_marked token)|].
  split; [apply length_map|].
  intros c Hin Hc. apply in_map_iff. exists c. split; [|assumption].
  unfold set_body. apply Z.eqb_neq in Hc. now rewrite Hc.
Qed.

(** X3. With two further arguments on the command line the program reads the
    two files and computes the table; when [diff] returns it prints the
    table, once, and touches no comment; when [diff] throws it ends with
    what [diff] threw and prints nothing. *)
Theorem local_mode_prints_table
    (a0 a1 base pr : string) (rest : list string)
    (baseMetafile prMetafile : Metafile) (w : World) :
  argv host = a0 :: a1 :: base :: pr :: rest ->
  read_manifest host base = inr baseMetafile ->
  read_manifest host pr = inr prMetafile ->
  (program Number_toString log_approx pow_approx NumberFormat_format) host w
  = match (diff Number_toString log_approx pow_approx NumberFormat_format) baseMetafile prMetafile with
    | inr table =>
        (inr tt,
         {| comments := comments w;
            stdout := stdout w ++ [table];
            calls := calls w ++ [ReadFile base; ReadFile pr; Diff; ConsoleLog] |})
    | inl thrown => (inl thrown, logged w [ReadFile base; ReadFile pr; Diff])
    end.
Proof.
  intros Hargv Hbase Hpr. unfold program. rewrite Hargv. unfold main.
  unfold bind at 1. rewrite load_read_manifest, Hbase.
  unfold bind at 1. rewrite load_read_manifest, Hpr.
  unfold bind at 1. rewrite diffM_outcome, !logged_logged. cbn [app].
  destruct ((diff Number_toString log_approx pow_approx NumberFormat_format) baseMetafile prMetafile) as [thrown|table]; [reflexivity|].
  unfold console_log, bind, call, logged. cbn [fst snd comments stdout calls].
  rewrite <- !app_assoc. reflexivity.
Qed.

(** ** At most one marked comment *)

Lemma first_marked_find (cs : list IssueComment) :
  first_marked cs = option_map comment_id (find marked cs).
Proof.
  induction cs as [|c cs IH]; simpl; [reflexivity|]. unfold marked at 1.
  destruct (body c) as [b|]; [destruct (startsWith b identifier)|];
    try reflexivity; exact IH.
Qed.

Lemma set_body_others (id : Z) (message : string) (cs : list IssueComment) :
  (forall c, In c cs -> comment_id c <> id /\ marked c = false) ->
  count_marked (map (set_body id message) cs) = O.
Proof.
  induction cs as [|c cs IH]; intros H; [reflexivity|].
  destruct (H c (or_introl eq_refl)) as [Hid Hm].
  unfold count_marked in *. cbn [map filter]. unfold set_body at 1.
  apply Z.eqb_neq in Hid. rewrite Hid, Hm. apply IH.
  intros c' Hc'. apply H. now right.
Qed.

Lemma set_body_count (id : Z) (message : string) (cs : list IssueComment) :
  NoDup (map comment_id cs) ->
  (forall c, In c cs -> marked c = true -> comment_id c = id) ->
  (count_marked (map (set_body id message) cs) <= 1)%nat.
Proof.
  induction cs as [|c cs IH]; intros Hnd Hm; [unfold count_marked; simpl; lia|].
  inversion Hnd as [|? ? Hnotin Hnd']; subst.
  destruct (Z.eq_dec (comment_id c) id) as [Hid|Hid].
  - assert (count_marked (map (set_body id message) cs) = O) as H0.
    { apply set_body_others. intros c' Hc'. split.
      - intros Heq. apply Hnotin. rewrite Hid, <- Heq. now apply in_map.
      - destruct (marked c') eqn:E; [|reflexivity].
        exfalso. apply Hnotin. rewrite Hid, <- (Hm c' (or_intror Hc') E). now apply in_map. }
    unfold count_marked in *. cbn [map filter].
    destruct (marked (set_body id message c)); cbn [List.length]; lia.
  - assert (marked c = false) as Hc.
    { destruct (marked c) eqn:E; [|reflexivity].
      exfalso. apply Hid, Hm; [now left | exact E]. }
    unfold count_marked in *. cbn [map filter]. unfold set_body at 1.
    apply Z.eqb_neq in Hid. rewrite Hid, Hc. apply IH; [assumption|].
    intros c' Hc' Hm'. apply Hm; [now right | assumption].
Qed.

Lemma single_marked (cs : list IssueComment) (c0 c : IssueComment) :
  (count_marked cs <= 1)%nat -> find marked cs = Some c0 ->
  In c cs -> marked c = true -> c = c0.
Proof.
  unfold count_marked. intros Hle Hfind Hin Hm.
  assert (In c0 (filter marked cs)) as H0.
  { apply find_some in Hfind as [Hin0 Hm0]. apply filter_In. auto. }
  assert (In c (filter marked cs)) as H1 by (apply filter_In; auto).
  destruct (filter marked cs) as [|x [|y l]]; simpl in *; try lia; try contradiction.
  destruct H0 as [<-|[]], H1 as [<-|[]]. reflexivity.
Qed.

(** X4. Whatever the message, [comment] keeps the marked comments of an
    issue at most one, on an issue whose comments fit the page [findComment]
    reads (at most 30) and have distinct, nonzero ids. *)
Theorem comment_keeps_one_marked (message : string) (w : World) :
  (List.length (comments w) <= per_page)%nat ->
  NoDup (map comment_id (comments w)) ->
  Forall (fun c => comment_id c <> 0) (comments w) ->
  (count_marked (comments w) <= 1)%nat ->
  (count_marked (comments (snd (comment host message w))) <= 1)%nat.
Proof.
  intros Hpage Hnd Hnz Hle.
  destruct (truthy (githubToken host)) as [token|] eqn:Htoken.
  - rewrite (comment_with_token token message w Htoken), (first_page_all w Hpage).
    destruct (first_marked (comments w)) as [id|] eqn:Hfirst.
    + pose proof Hfirst as Hfind. rewrite first_marked_find in Hfind.
      destruct (find marked (comments w)) as [c0|] eqn:Hc0; [|discriminate].
      injection Hfind as Hid.
      assert (id <> 0) as Hidnz.
      { rewrite <- Hid. rewrite Forall_forall in Hnz. apply Hnz.
        now apply find_some in Hc0 as [Hin _]. }
      apply Z.eqb_neq in Hidnz. rewrite Hidnz, updateComment_listed.
      cbn [snd comments]. apply set_body_count; [assumption|].
      intros c Hin Hm. now rewrite (single_marked _ c0 c Hle Hc0 Hin Hm).
    + assert (count_marked (comments w) = O) as H0.
      { rewrite first_marked_find in Hfirst. unfold count_marked.
        destruct (find marked (comments w)) eqn:Hfind; [discriminate|].
        destruct (filter marked (comments w)) as [|c l] eqn:Hf; [reflexivity|].
        assert (In c (filter marked (comments w))) as Hin by (rewrite Hf; now left).
        apply filter_In in Hin as [Hin Hm].
        now rewrite (find_none _ _ Hfind c Hin) in Hm. }
      rewrite createComment_listed. cbn [snd comments].
      unfold count_marked in *. rewrite filter_app, length_app, H0. simpl.
      destruct (marked _); simpl; lia.
  - rewrite comment_missing by assumption. exact Hle.
Qed.

(** X8. [getClient] takes the token from the [github_token] input when that
    is not empty, otherwise from [GITHUB_TOKEN] when that is set and not
    empty, and otherwise throws; it calls nothing. *)
Theorem input_token_takes_precedence (w : World) :
  (getInput host "github_token" <> "" ->
   getClient host w = (inr (getInput host "github_token"), w))
  /\ (getInput host "github_token" = "" ->
      forall t, env_GITHUB_TOKEN host = Some t -> t <> "" ->
      getClient host w = (inr t, w))
  /\ (getInput host "github_token" = "" ->
      env_GITHUB_TOKEN host = None \/ env_GITHUB_TOKEN host = Some "" ->
      getClient host w = (inl (Error token_not_found), w)).
Proof.
  unfold getClient, githubToken, truthy. split; [|split].
  - intros H. apply String.eqb_neq in H. rewrite H, H. reflexivity.
  - intros -> t -> Ht. apply String.eqb_neq in Ht. cbn. rewrite Ht. reflexivity.
  - intros -> [-> | ->]; reflexivity.
Qed.

Lemma first_marked_split (cs : list IssueComment) :
  match first_marked cs with
  | Some id =>
      exists before c after,
        cs = before ++ c :: after
        /\ Forall (fun c' => marked c' = false) before
        /\ marked c = true /\ comment_id c = id
  | None => Forall (fun c' => marked c' = false) cs
  end.
Proof.
  induction cs as [|c cs IH]; [constructor|].
  cbn [first_marked].
  assert (marked c = match body c with Some b => startsWith b identifier | None => false end)
    as Hm by reflexivity.
  destruct (body c) as [b|].
  - destruct (startsWith b identifier) eqn:Hb.
    + exists [], c, cs. repeat split; [constructor | assumption].
    + destruct (first_marked cs) as [id|].
      * destruct IH as (before & c0 & after & -> & Hbefore & Hc0 & Hid).
        exists (c :: before), c0, after. repeat split; try assumption.
        constructor; assumption.
      * constructor; assumption.
  - destruct (first_marked cs) as [id|].
    + destruct IH as (before & c0 & after & -> & Hbefore & Hc0 & Hid).
      exists (c :: before), c0, after. repeat split; try assumption.
      constructor; assumption.
    + constructor; assumption.
Qed.

(** X9. [findComment] lists the comments once, which gives it the first
    page, the first 30 comments of the issue, and returns the id of the
    first comment on that page whose body starts with the identifier (every
    comment before it has none such body), or null when no comment on that
    page is marked; without a token it throws before listing. *)
Theorem findComment_finds_first_marked (w : World) :
  match truthy (githubToken host) with
  | None => findComment host w = (inl (Error token_not_found), w)
  | Some _ =>
      exists found,
        findComment host w = (inr found, logged w [ListComments])
        /\ match found with
           | Some id =>
               exists before c after,
                 firstn per_page (comments w) = before ++ c :: after
                 /\ Forall (fun c' => marked c' = false) before
                 /\ marked c = true /\ comment_id c = id
           | None => Forall (fun c' => marked c' = false) (firstn per_page (comments w))
           end
  end.
Proof.
  destruct (truthy (githubToken host)) as [token|] eqn:Htoken.
  - exists (first_marked (firstn per_page (comments w))).
    split; [now apply (findComment_present token)|].
    apply (first_marked_split (firstn per_page (comments w))).
  - unfold findComment. unfold bind at 1. now rewrite getClient_missing.
Qed.

(** X10. Started with fewer than two arguments after the script name, with a
    token and two readable manifests, the program reads the two files named
    by the inputs [base_path] and [pr_path], resolved against the working
    directory, and diffs them.  When [diff] returns, it hands the table,
    under its heading, to [comment]: the first marked comment among the
    first 30 of the issue is updated, or else a comment is created; nothing
    is printed.  When [diff] throws, the run ends with what [diff] threw and
    no comment is listed or posted. *)
Theorem action_mode_posts_table
    (token : string) (baseMetafile prMetafile : Metafile) (w : World) :
  let base := path_resolve host (cwd host) (getInput host "base_path") in
  let pr := path_resolve host (cwd host) (getInput host "pr_path") in
  (List.length (argv host) < 4)%nat ->
  truthy (githubToken host) = Some token ->
  read_manifest host base = inr baseMetafile ->
  read_manifest host pr = inr prMetafile ->
  (program Number_toString log_approx pow_approx NumberFormat_format) host w
  = match (diff Number_toString log_approx pow_approx NumberFormat_format) baseMetafile prMetafile with
    | inl thrown => (inl thrown, logged w [ReadFile base; ReadFile pr; Diff])
    | inr table =>
        let message := run_message table in
        let posted := {| comment_id := fresh_id (comments w); body := Some message |} in
        (inr tt,
         match first_marked (firstn per_page (comments w)) with
         | Some id =>
             if id =? 0
             then {| comments := comments w ++ [posted]; stdout := stdout w;
                     calls := calls w ++ [ReadFile base; ReadFile pr; Diff; ListComments;
                                          CreateComment] |}
             else {| comments := map (set_body id message) (comments w);
                     stdout := stdout w;
                     calls := calls w ++ [ReadFile base; ReadFile pr; Diff; ListComments;
                                          UpdateComment id] |}
         | None =>
             {| comments := comments w ++ [posted]; stdout := stdout w;
                calls := calls w ++ [ReadFile base; ReadFile pr; Diff; ListComments;
                                     CreateComment] |}
         end)
    end.
Proof.
  intros base pr Hargv Htoken Hbase Hpr.
  assert ((program Number_toString log_approx pow_approx NumberFormat_format) host = (run Number_toString log_approx pow_approx NumberFormat_format) host) as ->.
  { unfold program. destruct (argv host) as [|a0 [|a1 [|a2 [|a3 rest]]]]; try reflexivity.
    simpl in Hargv. lia. }
  unfold run. fold base pr.
  unfold bind at 1. rewrite load_read_manifest, Hbase.
  unfold bind at 1. rewrite load_read_manifest, Hpr.
  unfold bind at 1. rewrite diffM_outcome, !logged_logged. cbn [app].
  destruct ((diff Number_toString log_approx pow_approx NumberFormat_format) baseMetafile prMetafile) as [thrown|table]; [reflexivity|].
  cbv zeta. rewrite (comment_with_token token _ _ Htoken).
  unfold logged. cbn [comments stdout calls].
  destruct (first_marked (firstn per_page (comments w))) as [id|].
  - destruct (id =? 0).
    + unfold createComment, bind, call. cbn [fst snd comments stdout calls].
      rewrite <- !app_assoc. reflexivity.
    + unfold updateComment, bind, call. cbn [fst snd comments stdout calls].
      rewrite <- !app_assoc. reflexivity.
  - unfold createComment, bind, call. cbn [fst snd comments stdout calls].
    rewrite <- !app_assoc. reflexivity.
Qed.

Lemma set_body_id (id : Z) (message : string) (c : IssueComment) :
  comment_id (set_body id message c) = comment_id c.
Proof.
  unfold set_body. destruct (comment_id c =? id) eqn:E; [|reflexivity].
  apply Z.eqb_eq in E. now rewrite E.
Qed.

(** X16. [comment] removes no comment and reorders none: the ids of the
    issue's comments stay as they were, followed by at most one new id;
    nothing is printed. *)
Theorem comment_removes_nothing (message : string) (w : World) :
  exists added,
    map comment_id (comments (snd (comment host message w)))
    = map comment_id (comments w) ++ added
    /\ (List.length added <= 1)%nat
    /\ stdout (snd (comment host message w)) = stdout w.
Proof.
  destruct (truthy (githubToken host)) as [token|] eqn:Htoken.
  - rewrite (comment_with_token token message w Htoken).
    assert (exists added,
      map comment_id (comments (snd (createComment message (logged w [ListComments]))))
      = map comment_id (comments w) ++ added
      /\ (List.length added <= 1)%nat
      /\ stdout (snd (createComment message (logged w [ListComments]))) = stdout w)
      as Hcreate.
    { exists [fresh_id (comments w)]. rewrite createComment_listed.
      cbn [fst snd comments stdout calls].
      rewrite map_app. repeat split. simpl. lia. }
    destruct (first_marked (firstn per_page (comments w))) as [id|];
      [destruct (id =? 0)|]; try exact Hcreate.
    exists []. rewrite updateComment_listed. cbn [fst snd comments stdout calls].
    rewrite map_map, app_nil_r. repeat split; [|simpl; lia].
    apply map_ext. intros c. apply set_body_id.
  - rewrite comment_missing by assumption. exists []. cbn [snd].
    rewrite app_nil_r. repeat split. simpl. lia.
Qed.

End ActionFacts.

(** ** The action on the sample host *)

Lemma proto_diff :
  diff Number_toString_sample log_sample pow_sample format_sample entry_constructor app_pr
  = inl TypeError.
Proof. vm_compute. reflexivity. Qed.

Lemma manifest_failure_propagates_witness :
  first_failure (sample_host [] "missing.json" "token" None)
  = Some (SystemError "ENOENT" "/work/missing.json")
  /\ program Number_toString_sample log_sample pow_sample format_sample
       (sample_host [] "missing.json" "token" None) no_comments
     = (inl (SystemError "ENOENT" "/work/missing.json"),
        {| comments := []; stdout := []; calls := [ReadFile "/work/missing.json"] |})
  /\ first_failure (sample_host ["/work/base.json"; "/work/broken.json"] "" "" None)
     = Some (SyntaxError "Unexpected end of JSON input")
  /\ program Number_toString_sample log_sample pow_sample format_sample
       (sample_host ["/work/base.json"; "/work/broken.json"] "" "" None) no_comments
     = (inl (SyntaxError "Unexpected end of JSON input"),
        {| comments := []; stdout := [];
           calls := [ReadFile "/work/base.json"; ReadFile "/work/broken.json"] |}).
Proof.
  split; [reflexivity|]. split.
  - rewrite (manifest_failure_propagates Number_toString_sample log_sample pow_sample
               format_sample (sample_host [] "missing.json" "token" None)
               (SystemError "ENOENT" "/work/missing.json") no_comments eq_refl).
    reflexivity.
  - split; [reflexivity|].
    rewrite (manifest_failure_propagates Number_toString_sample log_sample pow_sample
               format_sample
               (sample_host ["/work/base.json"; "/work/broken.json"] "" "" None)
               (SyntaxError "Unexpected end of JSON input") no_comments eq_refl).
    reflexivity.
Defined.

Lemma missing_token_fails_witness :
  truthy (githubToken (sample_host [] "base.json" "" None)) = None
  /\ getClient (sample_host [] "base.json" "" None) no_comments
     = (inl (Error token_not_found), no_comments)
  /\ run Number_toString_sample log_sample pow_sample format_sample
       (sample_host [] "base.json" "" None) no_comments
     = (inl (Error token_not_found),
        {| comments := []; stdout := [];
           calls := [ReadFile "/work/base.json"; ReadFile "/work/pr.json"; Diff] |})
  /\ run Number_toString_sample log_sample pow_sample format_sample
       (sample_host [] "proto.json" "" None) no_comments
     = (inl TypeError,
        {| comments := []; stdout := [];
           calls := [ReadFile "/work/proto.json"; ReadFile "/work/pr.json"; Diff] |}).
Proof.
  split; [reflexivity|].
  destruct (missing_token_fails Number_toString_sample log_sample pow_sample format_sample
              (sample_host [] "base.json" "" None) no_comments eq_refl) as (H1 & _ & H3).
  destruct (missing_token_fails Number_toString_sample log_sample pow_sample format_sample
              (sample_host [] "proto.json" "" None) no_comments eq_refl) as (_ & _ & H4).
  split; [exact H1|]. split.
  - rewrite (H3 app_base app_pr eq_refl eq_refl), app_diff. reflexivity.
  - rewrite (H4 entry_constructor app_pr eq_refl eq_refl), proto_diff. reflexivity.
Defined.

(** C6 as stated fails on the sample host without a token: [run] reads both
    manifests and computes the table before the token error comes up, and
    when base.json is missing the run ends with the read failure, not with
    the token error. *)
Lemma missing_token_fails_counterexample :
  truthy (githubToken (sample_host [] "base.json" "" None)) = None
  /\ run Number_toString_sample log_sample pow_sample format_sample
       (sample_host [] "base.json" "" None) no_comments
     = (inl (Error token_not_found),
        {| comments := []; stdout := [];
           calls := [ReadFile "/work/base.json"; ReadFile "/work/pr.json"; Diff] |})
  /\ run Number_toString_sample log_sample pow_sample format_sample
       (sample_host [] "missing.json" "" None) no_comments
     = (inl (SystemError "ENOENT" "/work/missing.json"),
        {| comments := []; stdout := []; calls := [ReadFile "/work/missing.json"] |}).
Proof. repeat split; vm_compute; reflexivity. Qed.

Lemma every_run_creates_a_comment_witness :
  truthy (githubToken (sample_host [] "base.json" "token" None)) = Some "token"
  /\ comments
       (snd (comment (sample_host [] "base.json" "token" None) (run_message "second table")
          (snd (comment (sample_host [] "base.json" "token" None)
                  (run_message "first table") no_comments))))
     = [ {| comment_id := 1; body := Some (run_message "first table") |};
         {| comment_id := 2; body := Some (run_message "second table") |} ].
Proof.
  split; [reflexivity|].
  destruct (every_run_creates_a_comment (sample_host [] "base.json" "token" None)
              "token" "second table"
              (snd (comment (sample_host [] "base.json" "token" None)
                      (run_message "first table") no_comments))
              eq_refl eq_refl) as [H _].
  rewrite H. reflexivity.
Defined.

Lemma marked_comment_is_updated_witness :
  comments (snd (comment (sample_host [] "base.json" "token" None) "new body" one_marked))
  = [ {| comment_id := 7; body := Some "first" |};
      {| comment_id := 9; body := Some "new body" |} ].
Proof.
  destruct (marked_comment_is_updated (sample_host [] "base.json" "token" None)
              "token" "new body" 9 one_marked eq_refl eq_refl) as [H _]; [discriminate|].
  rewrite H. reflexivity.
Defined.

(** A marked comment beyond the first page is not found: [comment] creates a
    second marked comment. *)
Lemma second_page_is_not_read :
  findComment (sample_host [] "base.json" "token" None) crowded
  = (inr None, logged crowded [ListComments])
  /\ count_marked (comments crowded) = 1%nat
  /\ count_marked
       (comments (snd (comment (sample_host [] "base.json" "token" None)
                         (identifier +:+ " new") crowded))) = 2%nat.
Proof. repeat split; vm_compute; reflexivity. Qed.

Lemma local_mode_prints_table_witness :
  program Number_toString_sample log_sample pow_sample format_sample
    (sample_host ["/work/base.json"; "/work/pr.json"] "" "" None) no_comments
  = (inr tt,
     {| comments := []; stdout := [app_table];
        calls := [ReadFile "/work/base.json"; ReadFile "/work/pr.json"; Diff;
                  ConsoleLog] |})
  /\ program Number_toString_sample log_sample pow_sample format_sample
       (sample_host ["/work/proto.json"; "/work/pr.json"] "" "" None) no_comments
     = (inl TypeError,
        {| comments := []; stdout := [];
           calls := [ReadFile "/work/proto.json"; ReadFile "/work/pr.json"; Diff] |}).
Proof.
  split.
  - rewrite (local_mode_prints_table Number_toString_sample log_sample pow_sample
               format_sample
               (sample_host ["/work/base.json"; "/work/pr.json"] "" "" None)
               "node" "index.js" "/work/base.json" "/work/pr.json" [] app_base app_pr
               no_comments eq_refl eq_refl eq_refl), app_diff.
    reflexivity.
  - rewrite (local_mode_prints_table Number_toString_sample log_sample pow_sample
               format_sample
               (sample_host ["/work/proto.json"; "/work/pr.json"] "" "" None)
               "node" "index.js" "/work/proto.json" "/work/pr.json" []
               entry_constructor app_pr no_comments eq_refl eq_refl eq_refl), proto_diff.
    reflexivity.
Defined.

Lemma comment_keeps_one_marked_witness :
  (count_marked (comments one_marked) <= 1)%nat
  /\ (count_marked
        (comments (snd (comment (sample_host [] "base.json" "token" None)
                          (identifier +:+ " new") one_marked))) <= 1)%nat.
Proof.
  split; [unfold count_marked; simpl; lia|].
  apply (comment_keeps_one_marked (sample_host [] "base.json" "token" None)
           (identifier +:+ " new") one_marked).
  - unfold per_page. simpl. lia.
  - simpl. repeat constructor; simpl; intuition discriminate.
  - repeat constructor; discriminate.
  - unfold count_marked. simpl. lia.
Defined.

Lemma input_token_takes_precedence_witness :
  getClient (sample_host [] "base.json" "from input" (Some "from env")) no_comments
  = (inr "from input", no_comments)
  /\ getClient (sample_host [] "base.json" "" (Some "from env")) no_comments
     = (inr "from env", no_comments)
  /\ getClient (sample_host [] "base.json" "" (Some "")) no_comments
     = (inl (Error token_not_found), no_comments).
Proof.
  destruct (input_token_takes_precedence
              (sample_host [] "base.json" "from input" (Some "from env")) no_comments)
    as (H1 & _ & _).
  destruct (input_token_takes_precedence
              (sample_host [] "base.json" "" (Some "from env")) no_comments)
    as (_ & H2 & _).
  destruct (input_token_takes_precedence
              (sample_host [] "base.json" "" (Some "")) no_comments)
    as (_ & _ & H3).
  split; [apply H1; discriminate|].
  split; [apply H2; [reflexivity | reflexivity | discriminate]|].
  apply H3; [reflexivity | now right].
Defined.

Lemma action_mode_posts_table_witness :
  program Number_toString_sample log_sample pow_sample format_sample
    (sample_host [] "base.json" "token" None) no_comments
  = (inr tt,
     {| comments := [ {| comment_id := 1; body := Some (run_message app_table) |} ];
        stdout := [];
        calls := [ReadFile "/work/base.json"; ReadFile "/work/pr.json"; Diff;
                  ListComments; CreateComment] |})
  /\ program Number_toString_sample log_sample pow_sample format_sample
       (sample_host [] "proto.json" "token" None) no_comments
     = (inl TypeError,
        {| comments := []; stdout := [];
           calls := [ReadFile "/work/proto.json"; ReadFile "/work/pr.json"; Diff] |}).
Proof.
  split.
  - rewrite (action_mode_posts_table Number_toString_sample log_sample pow_sample
               format_sample (sample_host [] "base.json" "token" None) "token"
               app_base app_pr no_comments);
      [rewrite app_diff; reflexivity | simpl; lia | reflexivity | reflexivity | reflexivity].
  - rewrite (action_mode_posts_table Number_toString_sample log_sample pow_sample
               format_sample (sample_host [] "proto.json" "token" None) "token"
               entry_constructor app_pr no_comments);
      [rewrite proto_diff; reflexivity | simpl; lia | reflexivity | reflexivity
      | reflexivity].
Defined.

(** ** bytesToSize *)

Section FormatFacts.

Variable log_approx : spec_float -> spec_float.
Variable pow_approx : spec_float -> spec_float -> spec_float.
Variable NumberFormat_format : string -> spec_float -> string.

Lemma unitIdx_not_finite (x : spec_float) :
  Format.isFinite x = false \/ x = S754_nan ->
  forall y, Format.isFinite (Format.Math_floor (SFdiv 53 1024 x y)) = false.
Proof.
  intros H y. destruct x as [s|s| |s m e]; simpl in H; try (destruct H; discriminate).
  - destruct y as [s'|s'| |s' m' e']; reflexivity.
  - destruct y as [s'|s'| |s' m' e']; reflexivity.
Qed.

(** [bytesToSize] of a number with no finite logarithm: a number below zero
    is printed as NaN bytes, zero (of either sign) as 0 bytes, and Infinity
    and NaN as the empty string; the unit is "byte" in each case and the
    approximated logarithm and power play no part. *)
Theorem bytesToSize_without_logarithm :
  (forall m e,
      Format.bytesToSize log_approx pow_approx NumberFormat_format (S754_finite true m e)
      = Format.Text (NumberFormat_format "byte" S754_nan))
  /\ (forall z, - 2 ^ 53 < z < 0 ->
        Format.bytesToSize log_approx pow_approx NumberFormat_format (number_of_Z z)
        = Format.Text (NumberFormat_format "byte" S754_nan))
  /\ (forall s,
        Format.bytesToSize log_approx pow_approx NumberFormat_format (S754_zero s)
        = Format.Text (NumberFormat_format "byte" (S754_zero false)))
  /\ (forall x, Format.isFinite x = false ->
        Format.bytesToSize log_approx pow_approx NumberFormat_format x = Format.Text "").
Proof.
  assert (forall m e,
      Format.bytesToSize log_approx pow_approx NumberFormat_format (S754_finite true m e)
      = Format.Text (NumberFormat_format "byte" S754_nan)) as Hneg.
  { intros m e. unfold Format.bytesToSize, Format.unitIdx. cbn [Format.isFinite negb].
    cbn [Format.Math_log]. rewrite unitIdx_not_finite by (right; reflexivity).
    reflexivity. }
  split; [exact Hneg|]. split; [|split].
  - intros z Hz. destruct z as [|p|p]; try lia.
    destruct (binary_round_exact true p) as (Heq & _); [lia|].
    unfold number_of_Z, binary_normalize. rewrite Heq. apply Hneg.
  - intros s. unfold Format.bytesToSize, Format.unitIdx. cbn [Format.isFinite negb].
    cbn [Format.Math_log]. rewrite unitIdx_not_finite by (left; reflexivity).
    reflexivity.
  - intros x Hx. unfold Format.bytesToSize. rewrite Hx. reflexivity.
Qed.

(** [bytesToSize] of a finite number above zero whose unit index is the
    integer [k]: the unit is [units[k]] for 0 <= k < 5 and "petabyte" above
    5, the value printed is [bytes / 1024 ** k]; for k = 5 (the clamp tests
    [>] against a length of 5) and for k < 0 (a size below one byte) no unit
    is found and [Intl.NumberFormat] is refused.  The list has no "gigabyte":
    k = 3 gives "terabyte". *)
Theorem bytesToSize_unit (m : positive) (e k : Z) :
  - 2 ^ 53 < k < 2 ^ 53 ->
  Format.unitIdx log_approx (S754_finite false m e) = number_of_Z k ->
  Format.bytesToSize log_approx pow_approx NumberFormat_format (S754_finite false m e)
  = match unit_for k with
    | Some u =>
        Format.Text
          (NumberFormat_format u
             (SFdiv 53 1024 (S754_finite false m e) (Format.pow_1024 pow_approx (number_of_Z k))))
    | None => Format.TypeError
    end.
Proof.
  intros Hk Hidx. unfold Format.bytesToSize. cbn [Format.isFinite negb]. rewrite Hidx.
  destruct (number_of_Z_exact k Hk) as [Hint Hfin]. rewrite Hfin.
  change (Z.of_nat (List.length Format.units)) with 5. rewrite five_below by assumption.
  change (SFeqb (S754_finite false m e) (number_of_Z 0)) with false. cbv iota.
  unfold unit_for.
  destruct (Z.ltb_spec 5 k) as [H5|H5].
  - replace (k <? 0) with false by (symmetry; apply Z.ltb_ge; lia).
    replace (k <? 5) with false by (symmetry; apply Z.ltb_ge; lia).
    replace (k =? 5) with false by (symmetry; apply Z.eqb_neq; lia).
    reflexivity.
  - unfold Format.element. rewrite Hint.
    destruct (Z.ltb_spec k 0) as [H0|H0]; [reflexivity|].
    destruct (Z.ltb_spec k 5) as [H4|H4]; [reflexivity|].
    assert (k = 5) as -> by lia. reflexivity.
Qed.

End FormatFacts.

Lemma bytesToSize_unit_witness :
  Format.bytesToSize log_sample pow_sample format_sample (number_of_Z (3 * 1024 ^ 3))
  = Format.Text "3 terabyte"
  /\ Format.bytesToSize log_sample pow_sample format_sample (number_of_Z (1024 ^ 5))
     = Format.TypeError.
Proof.
  split.
  - change (number_of_Z (3 * 1024 ^ 3)) with (S754_finite false 6755399441055744 (-21)).
    rewrite (bytesToSize_unit log_sample pow_sample format_sample
               6755399441055744 (-21) 3); [reflexivity | lia | reflexivity].
  - change (number_of_Z (1024 ^ 5)) with (S754_finite false 4503599627370496 (-2)).
    rewrite (bytesToSize_unit log_sample pow_sample format_sample
               4503599627370496 (-2) 5); [reflexivity | lia | reflexivity].
Defined.


Lemma bytesToSize_without_logarithm_witness :
  Format.bytesToSize log_sample pow_sample format_sample (number_of_Z (-5))
  = Format.Text "? byte"
  /\ Format.bytesToSize log_sample pow_sample format_sample (S754_zero true)
     = Format.Text "0 byte"
  /\ Format.bytesToSize log_sample pow_sample format_sample (S754_infinity false)
     = Format.Text "".
Proof.
  destruct (bytesToSize_without_logarithm log_sample pow_sample format_sample)
    as (_ & Hneg & Hzero & Hinf).
  split; [exact (Hneg (-5) ltac:(lia))|].
  split; [exact (Hzero true)|].
  exact (Hinf (S754_infinity false) eq_refl).
Defined.

(** [escapePipes] lengthens a string by one code unit for each pipe, and
    leaves exactly the strings without a pipe as they are. *)
Theorem escapePipes_adds_one_per_pipe (str : string) :
  String.length (escapePipes str) = (String.length str + count_pipes str)%nat
  /\ (escapePipes str = str <-> count_pipes str = O).
Proof.
  assert (String.length (escapePipes str) = (String.length str + count_pipes str)%nat) as Hlen.
  { induction str as [|c str IH]; [reflexivity|]. cbn [escapePipes count_pipes].
    destruct (Ascii.eqb c pipe); simpl; rewrite IH; lia. }
  split; [exact Hlen|]. split.
  - intros Heq. rewrite Heq in Hlen. lia.
  - intros H0. clear Hlen. induction str as [|c str IH]; [reflexivity|].
    cbn [escapePipes count_pipes] in *.
    destruct (Ascii.eqb c pipe); [discriminate|].
    f_equal. apply IH. exact H0.
Qed.

(** [escapePipes] loses nothing: two strings with the same escaped form are
    the same string. *)
Theorem escapePipes_injective (a b : string) :
  (escapePipes a =? escapePipes b)%string = (a =? b)%string.
Proof.
  destruct (String.eqb_spec a b) as [->|Hne].
  - apply String.eqb_refl.
  - apply String.eqb_neq. intros Heq. apply Hne.
    rewrite <- (unescape_escapePipes a), <- (unescape_escapePipes b). now f_equal.
Qed.

